(** * Snake game (game.hpp / game.cpp): a shallow embedding and its properties

    The C++ class [Game] is embedded as a record of its data members together
    with the part of the process environment its methods act on (the text
    files and the sequence of values returned by [rand()]).  Methods become
    functions on that record.  A method that would run into undefined
    behaviour (front() or pop_back() on an empty deque, an index outside a
    vector) returns [None]. *)

From Stdlib Require Import ZArith List String Ascii Bool Lia.
From Stdlib Require Import Permutation Sorted SpecFloat DecimalString.
From Stdlib Require OrderedTypeEx DecimalPos.
From Stdlib Require Import QArith Qabs Qminmax Lqa.
Import ListNotations.
Open Scope Z_scope.

(** ** Machine integers *)

Definition INT_MIN : Z := -2147483648.
Definition INT_MAX : Z := 2147483647.

(** Two's complement wrap-around of a 32-bit [int]. *)
Definition wrap_int (z : Z) : Z := (z + 2147483648) mod 4294967296 - 2147483648.

Definition in_int_range (z : Z) : bool := (INT_MIN <=? z) && (z <=? INT_MAX).

(** ** binary32 arithmetic ([float]) *)

Module F32.
Definition prec : Z := 24.
Definition emax : Z := 128.

Definition t := spec_float.

Definition zero : t := S754_zero false.

(** Conversion [int -> float], rounding to nearest even. *)
Definition of_int (z : Z) : t := binary_normalize prec emax z 0 false.

Definition add : t -> t -> t := SFadd prec emax.
Definition sub : t -> t -> t := SFsub prec emax.
Definition mul : t -> t -> t := SFmul prec emax.
Definition div : t -> t -> t := SFdiv prec emax.

Definition ltb : t -> t -> bool := SFltb.
Definition leb : t -> t -> bool := SFleb.

(** The literal [n/d] written as a decimal with suffix [f]: the binary32
    value nearest to the quotient. *)
Definition literal (n d : Z) : t := div (of_int n) (of_int d).

(** [std::max(a, b)] is [(a < b) ? b : a]. *)
Definition max (a b : t) : t := if ltb a b then b else a.
End F32.

(** ** Plain data of game.hpp *)

Record Position := mkPosition { x : Z; y : Z }.

(** [Position::operator==] *)
Definition Position_eqb (a b : Position) : bool :=
  (x a =? x b) && (y a =? y b).

Module ScoreEntry.
Record t := mk { name : string; score : Z }.

(** [ScoreEntry::operator<]: [score > other.score]. *)
Definition lt (a b : t) : bool := score b <? score a.
End ScoreEntry.

Inductive Direction := UP | DOWN | LEFT | RIGHT.

Inductive GameState := MENU | PLAYING | PAUSED | GAME_OVER | LEADERBOARD | SETTINGS.

Definition Direction_eqb (a b : Direction) : bool :=
  match a, b with
  | UP, UP | DOWN, DOWN | LEFT, LEFT | RIGHT, RIGHT => true
  | _, _ => false
  end.

Definition GameState_eqb (a b : GameState) : bool :=
  match a, b with
  | MENU, MENU | PLAYING, PLAYING | PAUSED, PAUSED
  | GAME_OVER, GAME_OVER | LEADERBOARD, LEADERBOARD | SETTINGS, SETTINGS => true
  | _, _ => false
  end.

(** The direction a snake heading [d] cannot turn into. *)
Definition opposite (d : Direction) : Direction :=
  match d with UP => DOWN | DOWN => UP | LEFT => RIGHT | RIGHT => LEFT end.

(** ** [std::sort] on the leaderboard

    The standard fixes only that the result is a permutation of the input in
    which no element is [operator<]-smaller than an earlier one; the order of
    entries with equal scores is left to the implementation. *)

Definition score_ge (a b : ScoreEntry.t) : Prop :=
  ScoreEntry.score b <= ScoreEntry.score a.

Class StdSort := {
  std_sort : list ScoreEntry.t -> list ScoreEntry.t;
  std_sort_perm : forall l, Permutation l (std_sort l);
  std_sort_sorted : forall l, StronglySorted score_ge (std_sort l)
}.

(** One implementation: insertion below the entries that are not smaller. *)
Fixpoint insert_entry (e : ScoreEntry.t) (l : list ScoreEntry.t) : list ScoreEntry.t :=
  match l with
  | [] => [e]
  | h :: t => if ScoreEntry.lt e h then e :: l else h :: insert_entry e t
  end.

Fixpoint insertion_sort (l : list ScoreEntry.t) : list ScoreEntry.t :=
  match l with
  | [] => []
  | h :: t => insert_entry h (insertion_sort t)
  end.

(** ** Files *)

(** A file system: the text of each file that can be opened for reading, and
    which paths can be opened for writing. *)
Record FileSystem := mkFS {
  contents : string -> option string;
  writable : string -> bool
}.

(** [std::ifstream file(path); file.is_open()] *)
Definition open_read (fs : FileSystem) (path : string) : option string :=
  contents fs path.

(** [std::ofstream file(path); if (file.is_open()) file << data;]: the file is
    truncated and rewritten; nothing happens when it cannot be opened. *)
Definition write_file (fs : FileSystem) (path data : string) : FileSystem :=
  if writable fs path
  then mkFS (fun p => if String.eqb p path then Some data else contents fs p)
            (writable fs)
  else fs.

(** ** Formatted extraction ([operator>>]) in the "C" locale *)

Definition isspace (c : ascii) : bool :=
  let n := N_of_ascii c in
  (n =? 32)%N || ((9 <=? n)%N && (n <=? 13)%N).

Definition isdigit (c : ascii) : bool :=
  let n := N_of_ascii c in
  (48 <=? n)%N && (n <=? 57)%N.

Definition digit_value (c : ascii) : Z := Z.of_N (N_of_ascii c) - 48.

(** The sentry of a formatted input function skips leading white space. *)
Fixpoint skipws (s : string) : string :=
  match s with
  | String c s' => if isspace c then skipws s' else s
  | EmptyString => s
  end.

(** Characters up to the next white space, and the rest of the stream. *)
Fixpoint read_word (s : string) : string * string :=
  match s with
  | String c s' =>
      if isspace c then (EmptyString, s)
      else let '(w, rest) := read_word s' in (String c w, rest)
  | EmptyString => (EmptyString, EmptyString)
  end.

(** [stream >> str]: fails at end of input, otherwise extracts a non-empty
    word.  The result carries the rest of the stream. *)
Definition extract_string (s : string) : option (string * string) :=
  match skipws s with
  | EmptyString => None
  | s' => Some (read_word s')
  end.

(** Decimal digits accumulated left to right. *)
Fixpoint read_digits (acc : Z) (s : string) : Z * string :=
  match s with
  | String c s' =>
      if isdigit c then read_digits (10 * acc + digit_value c) s' else (acc, s)
  | EmptyString => (acc, EmptyString)
  end.

(** The digits of an integer field: at least one is required. *)
Definition parse_digits (negative : bool) (s : string) : option (Z * string) :=
  match s with
  | String c _ =>
      if isdigit c
      then let '(v, rest) := read_digits 0 s in
           Some (if negative then - v else v, rest)
      else None
  | EmptyString => None
  end.

(** The integer field at the head of the stream: an optional sign followed by
    at least one digit.  [None] when there is no digit. *)
Definition parse_integer (s : string) : option (Z * string) :=
  match s with
  | String "-"%char r => parse_digits true r
  | String "+"%char r => parse_digits false r
  | _ => parse_digits false s
  end.

(** [stream >> n] for [int n]: fails when no integer can be read or when the
    value does not fit an [int]. *)
Definition extract_int (s : string) : option (Z * string) :=
  match parse_integer (skipws s) with
  | Some (v, rest) => if in_int_range v then Some (v, rest) else None
  | None => None
  end.

(** [stream >> b] for [bool b] (no boolalpha): the field is read as an
    integer; 0 gives false, 1 true, any other value true, and a field
    without digits false.  At end of input the variable keeps its value. *)
Definition extract_bool (old : bool) (s : string) : bool :=
  match skipws s with
  | EmptyString => old
  | s' => match parse_integer s' with
          | Some (v, _) => negb (v =? 0)
          | None => false
          end
  end.

(** The pairs read by [while (stream >> a >> b)], where [b] is an [int]: the
    loop ends at the first extraction that fails.  Every successful round
    consumes at least one character, so the length of the stream bounds the
    number of rounds. *)
Fixpoint read_pairs_fuel {A : Type} (first : string -> option (A * string))
    (fuel : nat) (s : string) : option (list (A * Z)) :=
  match fuel with
  | O => None
  | S fuel' =>
      match first s with
      | None => Some []
      | Some (a, s1) =>
          match extract_int s1 with
          | None => Some []
          | Some (b, s2) =>
              match read_pairs_fuel first fuel' s2 with
              | Some l => Some ((a, b) :: l)
              | None => None
              end
          end
      end
  end.

Definition read_pairs {A : Type} (first : string -> option (A * string))
    (s : string) : list (A * Z) :=
  match read_pairs_fuel first (S (String.length s)) s with
  | Some l => l
  | None => []
  end.

(** [while (file >> name >> score)] *)
Definition read_name_score_pairs : string -> list (string * Z) :=
  read_pairs extract_string.

(** [while (file >> x >> y)] *)
Definition read_int_pairs : string -> list (Z * Z) :=
  read_pairs extract_int.

(** [stream << n] for an [int]. *)
Definition string_of_int (n : Z) : string := NilZero.string_of_int (Z.to_int n).

Definition newline : string := String (ascii_of_nat 10) EmptyString.

(** [file << name << " " << score << "\n"] *)
Definition score_line (n : string) (v : Z) : string :=
  (n ++ " " ++ string_of_int v ++ newline)%string.

(** ** [std::map<std::string, int>]: entries kept in increasing key order *)

Module StdMap.
Definition t := list (string * Z).

Definition empty : t := [].

(** [m.find(k)] *)
Fixpoint find (k : string) (m : t) : option Z :=
  match m with
  | [] => None
  | (k', v) :: m' => if String.eqb k k' then Some v else find k m'
  end.

(** [m[k] = v] *)
Fixpoint assign (k : string) (v : Z) (m : t) : t :=
  match m with
  | [] => [(k, v)]
  | (k', v') :: m' =>
      match String.compare k k' with
      | Eq => (k, v) :: m'
      | Lt => (k, v) :: m
      | Gt => (k', v') :: assign k v m'
      end
  end.
End StdMap.

(** ** Input of one frame (raylib)

    What the windowing layer reports during one pass of the main loop: the
    keys for which [IsKeyPressed] is true, [GetFrameTime()] and
    [WindowShouldClose()]. *)

Inductive Key :=
  | KEY_W | KEY_S | KEY_A | KEY_D | KEY_UP | KEY_DOWN | KEY_LEFT | KEY_RIGHT
  | KEY_P | KEY_SPACE | KEY_Q | KEY_ESCAPE | KEY_ENTER | KEY_R | KEY_L.

Record Input := mkInput {
  IsKeyPressed : Key -> bool;
  GetFrameTime : F32.t;
  WindowShouldClose : bool
}.

(** ** The class [Game] *)

Module Game.

Definition GRID_WIDTH : Z := 30.
Definition GRID_HEIGHT : Z := 20.
Definition MAX_LEADERBOARD_ENTRIES : Z := 10.
Definition MAX_OBSTACLES : Z := 100.

(** The data members of the class that the game logic uses, in the order
    of game.hpp, followed by the environment: the files, the values that
    successive calls of [rand()] return, and the number of calls made. *)
Record t := mk {
  currentState : GameState;
  snake : list Position;
  food : Position;
  obstacles : list Position;
  currentDirection : Direction;
  nextDirection : Direction;
  score : Z;
  overallHighestScore : Z;
  personalBestScore : Z;
  moveTimer : F32.t;
  moveInterval : F32.t;
  animationTimer : F32.t;
  playerName : string;
  leaderboard : list ScoreEntry.t;
  selectedMenuItem : Z;
  gameRunning : bool;
  showGrid : bool;
  files : FileSystem;
  rand_values : nat -> N;
  rand_calls : nat
}.

Definition set_currentState (v : GameState) (g : t) : t :=
  mk v (snake g) (food g) (obstacles g) (currentDirection g) (nextDirection g)
     (score g) (overallHighestScore g) (personalBestScore g) (moveTimer g)
     (moveInterval g) (animationTimer g) (playerName g) (leaderboard g)
     (selectedMenuItem g) (gameRunning g) (showGrid g) (files g)
     (rand_values g) (rand_calls g).
Definition set_snake (v : list Position) (g : t) : t :=
  mk (currentState g) v (food g) (obstacles g) (currentDirection g)
     (nextDirection g) (score g) (overallHighestScore g) (personalBestScore g)
     (moveTimer g) (moveInterval g) (animationTimer g) (playerName g)
     (leaderboard g) (selectedMenuItem g) (gameRunning g) (showGrid g)
     (files g) (rand_values g) (rand_calls g).
Definition set_food (v : Position) (g : t) : t :=
  mk (currentState g) (snake g) v (obstacles g) (currentDirection g)
     (nextDirection g) (score g) (overallHighestScore g) (personalBestScore g)
     (moveTimer g) (moveInterval g) (animationTimer g) (playerName g)
     (leaderboard g) (selectedMenuItem g) (gameRunning g) (showGrid g)
     (files g) (rand_values g) (rand_calls g).
Definition set_obstacles (v : list Position) (g : t) : t :=
  mk (currentState g) (snake g) (food g) v (currentDirection g)
     (nextDirection g) (score g) (overallHighestScore g) (personalBestScore g)
     (moveTimer g) (moveInterval g) (animationTimer g) (playerName g)
     (leaderboard g) (selectedMenuItem g) (gameRunning g) (showGrid g)
     (files g) (rand_values g) (rand_calls g).
Definition set_currentDirection (v : Direction) (g : t) : t :=
  mk (currentState g) (snake g) (food g) (obstacles g) v (nextDirection g)
     (score g) (overallHighestScore g) (personalBestScore g) (moveTimer g)
     (moveInterval g) (animationTimer g) (playerName g) (leaderboard g)
     (selectedMenuItem g) (gameRunning g) (showGrid g) (files g)
     (rand_values g) (rand_calls g).
Definition set_nextDirection (v : Direction) (g : t) : t :=
  mk (currentState g) (snake g) (food g) (obstacles g) (currentDirection g) v
     (score g) (overallHighestScore g) (personalBestScore g) (moveTimer g)
     (moveInterval g) (animationTimer g) (playerName g) (leaderboard g)
     (selectedMenuItem g) (gameRunning g) (showGrid g) (files g)
     (rand_values g) (rand_calls g).
Definition set_score (v : Z) (g : t) : t :=
  mk (currentState g) (snake g) (food g) (obstacles g) (currentDirection g)
     (nextDirection g) v (overallHighestScore g) (personalBestScore g)
     (moveTimer g) (moveInterval g) (animationTimer g) (playerName g)
     (leaderboard g) (selectedMenuItem g) (gameRunning g) (showGrid g)
     (files g) (rand_values g) (rand_calls g).
Definition set_overallHighestScore (v : Z) (g : t) : t :=
  mk (currentState g) (snake g) (food g) (obstacles g) (currentDirection g)
     (nextDirection g) (score g) v (personalBestScore g) (moveTimer g)
     (moveInterval g) (animationTimer g) (playerName g) (leaderboard g)
     (selectedMenuItem g) (gameRunning g) (showGrid g) (files g)
     (rand_values g) (rand_calls g).
Definition set_personalBestScore (v : Z) (g : t) : t :=
  mk (currentState g) (snake g) (food g) (obstacles g) (currentDirection g)
     (nextDirection g) (score g) (overallHighestScore g) v (moveTimer g)
     (moveInterval g) (animationTimer g) (playerName g) (leaderboard g)
     (selectedMenuItem g) (gameRunning g) (showGrid g) (files g)
     (rand_values g) (rand_calls g).
Definition set_moveTimer (v : F32.t) (g : t) : t :=
  mk (currentState g) (snake g) (food g) (obstacles g) (currentDirection g)
     (nextDirection g) (score g) (overallHighestScore g) (personalBestScore g)
     v (moveInterval g) (animationTimer g) (playerName g) (leaderboard g)
     (selectedMenuItem g) (gameRunning g) (showGrid g) (files g)
     (rand_values g) (rand_calls g).
Definition set_animationTimer (v : F32.t) (g : t) : t :=
  mk (currentState g) (snake g) (food g) (obstacles g) (currentDirection g)
     (nextDirection g) (score g) (overallHighestScore g) (personalBestScore g)
     (moveTimer g) (moveInterval g) v (playerName g) (leaderboard g)
     (selectedMenuItem g) (gameRunning g) (showGrid g) (files g)
     (rand_values g) (rand_calls g).
Definition set_playerName (v : string) (g : t) : t :=
  mk (currentState g) (snake g) (food g) (obstacles g) (currentDirection g)
     (nextDirection g) (score g) (overallHighestScore g) (personalBestScore g)
     (moveTimer g) (moveInterval g) (animationTimer g) v (leaderboard g)
     (selectedMenuItem g) (gameRunning g) (showGrid g) (files g)
     (rand_values g) (rand_calls g).
Definition set_leaderboard (v : list ScoreEntry.t) (g : t) : t :=
  mk (currentState g) (snake g) (food g) (obstacles g) (currentDirection g)
     (nextDirection g) (score g) (overallHighestScore g) (personalBestScore g)
     (moveTimer g) (moveInterval g) (animationTimer g) (playerName g) v
     (selectedMenuItem g) (gameRunning g) (showGrid g) (files g)
     (rand_values g) (rand_calls g).
Definition set_selectedMenuItem (v : Z) (g : t) : t :=
  mk (currentState g) (snake g) (food g) (obstacles g) (currentDirection g)
     (nextDirection g) (score g) (overallHighestScore g) (personalBestScore g)
     (moveTimer g) (moveInterval g) (animationTimer g) (playerName g)
     (leaderboard g) v (gameRunning g) (showGrid g) (files g) (rand_values g)
     (rand_calls g).
Definition set_gameRunning (v : bool) (g : t) : t :=
  mk (currentState g) (snake g) (food g) (obstacles g) (currentDirection g)
     (nextDirection g) (score g) (overallHighestScore g) (personalBestScore g)
     (moveTimer g) (moveInterval g) (animationTimer g) (playerName g)
     (leaderboard g) (selectedMenuItem g) v (showGrid g) (files g)
     (rand_values g) (rand_calls g).
Definition set_showGrid (v : bool) (g : t) : t :=
  mk (currentState g) (snake g) (food g) (obstacles g) (currentDirection g)
     (nextDirection g) (score g) (overallHighestScore g) (personalBestScore g)
     (moveTimer g) (moveInterval g) (animationTimer g) (playerName g)
     (leaderboard g) (selectedMenuItem g) (gameRunning g) v (files g)
     (rand_values g) (rand_calls g).
Definition set_files (v : FileSystem) (g : t) : t :=
  mk (currentState g) (snake g) (food g) (obstacles g) (currentDirection g)
     (nextDirection g) (score g) (overallHighestScore g) (personalBestScore g)
     (moveTimer g) (moveInterval g) (animationTimer g) (playerName g)
     (leaderboard g) (selectedMenuItem g) (gameRunning g) (showGrid g) v
     (rand_values g) (rand_calls g).
Definition set_rand_calls (v : nat) (g : t) : t :=
  mk (currentState g) (snake g) (food g) (obstacles g) (currentDirection g)
     (nextDirection g) (score g) (overallHighestScore g) (personalBestScore g)
     (moveTimer g) (moveInterval g) (animationTimer g) (playerName g)
     (leaderboard g) (selectedMenuItem g) (gameRunning g) (showGrid g)
     (files g) (rand_values g) v.

Notation "x <- e ;; k" := (match e with Some x => k | None => None end)
  (at level 61, e at next level, right associativity).

(** [rand()]: the next value of the sequence. *)
Definition rand (g : t) : N * t :=
  (rand_values g (rand_calls g), set_rand_calls (S (rand_calls g)) g).

(** *** Utility *)

Definition getDifficultyLevel (g : t) : Z :=
  wrap_int (Z.quot (score g) 50 + 1).

Definition calculateSpeed (g : t) : F32.t :=
  let baseSpeed := F32.literal 15 100 in
  let speedIncrease := F32.mul (F32.of_int (Z.quot (score g) 30)) (F32.literal 2 100) in
  let minSpeed := F32.literal 5 100 in
  F32.max minSpeed (F32.sub baseSpeed speedIncrease).

(** *** Snake, food and obstacles *)

Definition initializeSnake (g : t) : t :=
  let body :=
    [ mkPosition (Z.quot GRID_WIDTH 2) (Z.quot GRID_HEIGHT 2);
      mkPosition (Z.quot GRID_WIDTH 2) (Z.quot GRID_HEIGHT 2 + 1);
      mkPosition (Z.quot GRID_WIDTH 2) (Z.quot GRID_HEIGHT 2 + 2) ] in
  set_nextDirection UP (set_currentDirection UP (set_snake body g)).

(** The integers [0, 1, ..., n-1] a counting loop runs through. *)
Definition upto (n : Z) : list Z := map Z.of_nat (seq 0 (Z.to_nat n)).

(** The cells in the order of the two nested loops of [generateFood]. *)
Definition grid_cells : list Position :=
  flat_map (fun cx => map (fun cy => mkPosition cx cy) (upto GRID_HEIGHT))
           (upto GRID_WIDTH).

Definition isEmpty (g : t) (pos : Position) : bool :=
  negb (existsb (fun segment => Position_eqb segment pos) (snake g))
  && negb (existsb (fun obs => Position_eqb obs pos) (obstacles g)).

Definition emptyPositions (g : t) : list Position :=
  filter (isEmpty g) grid_cells.

Definition generateFood (g : t) : option t :=
  let candidates := emptyPositions g in
  match candidates with
  | [] => Some g
  | _ :: _ =>
      let '(r, g1) := rand g in
      let i := (r mod N.of_nat (List.length candidates))%N in
      pos <- nth_error candidates (N.to_nat i) ;;
      Some (set_food pos g1)
  end.

(** The cell next to [front] in direction [d] ([newHead] in [moveSnake]). *)
Definition advance (d : Direction) (front : Position) : Position :=
  match d with
  | UP => mkPosition (x front) (wrap_int (y front - 1))
  | DOWN => mkPosition (x front) (wrap_int (y front + 1))
  | LEFT => mkPosition (wrap_int (x front - 1)) (y front)
  | RIGHT => mkPosition (wrap_int (x front + 1)) (y front)
  end.

Definition moveSnake (g : t) : option t :=
  match snake g with
  | [] => None
  | front :: _ =>
      let newHead := advance (currentDirection g) front in
      Some (set_snake (newHead :: snake g) g)
  end.

Definition checkCollision (g : t) : option bool :=
  match snake g with
  | [] => None
  | head :: rest =>
      Some ((x head <? 0) || (GRID_WIDTH <=? x head)
            || (y head <? 0) || (GRID_HEIGHT <=? y head)
            || existsb (fun segment => Position_eqb segment head) rest
            || existsb (fun obs => Position_eqb obs head) (obstacles g))
  end.

Definition in_grid (px py : Z) : bool :=
  (0 <=? px) && (px <? GRID_WIDTH) && (0 <=? py) && (py <? GRID_HEIGHT).

(** The loop of [loadObstacles] over the pairs the stream yields; [acc] is
    the vector built so far. *)
Fixpoint loadObstacles_loop (pairs : list (Z * Z)) (acc : list Position)
    : list Position :=
  match pairs with
  | [] => acc
  | (px, py) :: pairs' =>
      if Z.of_nat (List.length acc) <? MAX_OBSTACLES
      then loadObstacles_loop pairs'
             (if in_grid px py then acc ++ [mkPosition px py] else acc)
      else acc
  end.

Definition loadObstacles (filename : string) (g : t) : t :=
  match open_read (files g) filename with
  | Some text => set_obstacles (loadObstacles_loop (read_int_pairs text) []) g
  | None => set_obstacles [] g
  end.

(** *** Best scores *)

(** The loop of [loadHighestScores]; the pair is
    [(overallHighestScore, personalBestScore)]. *)
Fixpoint loadHighestScores_loop (player : string) (pairs : list (string * Z))
    (best : Z * Z) : Z * Z :=
  match pairs with
  | [] => best
  | (n, s) :: pairs' =>
      let overall := if fst best <? s then s else fst best in
      let personal :=
        if String.eqb n player && (snd best <? s) then s else snd best in
      loadHighestScores_loop player pairs' (overall, personal)
  end.

Definition loadHighestScores (g : t) : t :=
  let g0 := set_personalBestScore 0 (set_overallHighestScore 0 g) in
  match open_read (files g0) "user_scores.txt" with
  | Some text =>
      let best := loadHighestScores_loop (playerName g0)
                    (read_name_score_pairs text) (0, 0) in
      set_personalBestScore (snd best) (set_overallHighestScore (fst best) g0)
  | None => g0
  end.

(** The text written by a loop of [file << name << " " << score << "\n"]. *)
Definition score_lines (l : list (string * Z)) : string :=
  fold_right (fun p rest => (score_line (fst p) (snd p) ++ rest)%string)
             EmptyString l.

Definition savePersonalBest (g : t) : t :=
  if score g <=? personalBestScore g then g
  else
    let stored :=
      match open_read (files g) "user_scores.txt" with
      | Some text =>
          fold_left (fun m p => StdMap.assign (fst p) (snd p) m)
                    (read_name_score_pairs text) StdMap.empty
      | None => StdMap.empty
      end in
    let userScores := StdMap.assign (playerName g) (score g) stored in
    let g1 := set_files (write_file (files g) "user_scores.txt"
                           (score_lines userScores)) g in
    let g2 := set_personalBestScore (score g1) g1 in
    if overallHighestScore g2 <? score g2
    then set_overallHighestScore (score g2) g2
    else g2.

(** *** Settings *)

Definition loadSettings (g : t) : t :=
  match open_read (files g) "settings.txt" with
  | Some text => set_showGrid (extract_bool (showGrid g) text) g
  | None => g
  end.

Definition saveSettings (g : t) : t :=
  set_files (write_file (files g) "settings.txt"
               (if showGrid g then "1" else "0")) g.

(** *** Leaderboard *)

(** One round of the merging loop of [loadLeaderboard]. *)
Definition keep_best (m : StdMap.t) (p : string * Z) : StdMap.t :=
  match StdMap.find (fst p) m with
  | None => StdMap.assign (fst p) (snd p) m
  | Some old => if old <? snd p then StdMap.assign (fst p) (snd p) m else m
  end.

Definition entry_of (p : string * Z) : ScoreEntry.t :=
  ScoreEntry.mk (fst p) (snd p).

Definition pair_of (e : ScoreEntry.t) : string * Z :=
  (ScoreEntry.name e, ScoreEntry.score e).

(** The first loop of [saveToLeaderboard]: the first entry of the player
    takes the new score if that is higher.  The flag is [playerExists]. *)
Fixpoint update_entry (player : string) (s : Z) (l : list ScoreEntry.t)
    : list ScoreEntry.t * bool :=
  match l with
  | [] => ([], false)
  | e :: l' =>
      if String.eqb (ScoreEntry.name e) player
      then ((if ScoreEntry.score e <? s then ScoreEntry.mk (ScoreEntry.name e) s else e) :: l',
            true)
      else let '(l'', found) := update_entry player s l' in (e :: l'', found)
  end.

(** [saveSessionBestScore]: user_scores.txt is read with the merging loop
    that [loadLeaderboard] uses (a name keeps its highest score) and written
    back from the map.  The members [score] and [playerName] are not used. *)
Definition saveSessionBestScore (g : t) : t :=
  let userScores :=
    match open_read (files g) "user_scores.txt" with
    | Some text => fold_left keep_best (read_name_score_pairs text) StdMap.empty
    | None => StdMap.empty
    end in
  set_files (write_file (files g) "user_scores.txt" (score_lines userScores)) g.

(** The destructor [~Game], as far as it acts on the files. *)
Definition destructor (g : t) : t := saveSettings (saveSessionBestScore g).

Section WithSort.
Context {sorter : StdSort}.

Definition loadLeaderboard (g : t) : t :=
  match open_read (files g) "scores.txt" with
  | Some text =>
      let bestScores :=
        fold_left keep_best (read_name_score_pairs text) StdMap.empty in
      set_leaderboard (std_sort (map entry_of bestScores)) g
  | None => set_leaderboard [] g
  end.

Definition saveToLeaderboard (g : t) : t :=
  if 0 <? score g then
    let '(updated, playerExists) :=
      update_entry (playerName g) (score g) (leaderboard g) in
    let pushed :=
      if playerExists then updated
      else updated ++ [ScoreEntry.mk (playerName g) (score g)] in
    let sorted := std_sort pushed in
    let resized :=
      if MAX_LEADERBOARD_ENTRIES <? Z.of_nat (List.length sorted)
      then firstn (Z.to_nat MAX_LEADERBOARD_ENTRIES) sorted
      else sorted in
    let g1 := set_leaderboard resized g in
    set_files (write_file (files g1) "scores.txt"
                 (score_lines (map pair_of resized))) g1
  else g.

(** *** State changes and input *)

Definition changeState (newState : GameState) (g : t) : t :=
  let g1 := set_selectedMenuItem 0 (set_currentState newState g) in
  match newState with
  | LEADERBOARD => loadLeaderboard g1
  | _ => g1
  end.

Definition reset (g : t) : option t :=
  g1 <- generateFood (initializeSnake g) ;;
  Some (set_animationTimer F32.zero (set_moveTimer F32.zero (set_score 0 g1))).

Definition handleMenuInput (inp : Input) (g : t) : option t :=
  let g1 :=
    if IsKeyPressed inp KEY_DOWN || IsKeyPressed inp KEY_S
    then set_selectedMenuItem (Z.rem (wrap_int (selectedMenuItem g + 1)) 4) g
    else g in
  let g2 :=
    if IsKeyPressed inp KEY_UP || IsKeyPressed inp KEY_W
    then set_selectedMenuItem
           (Z.rem (wrap_int (wrap_int (selectedMenuItem g1 - 1) + 4)) 4) g1
    else g1 in
  if IsKeyPressed inp KEY_ENTER || IsKeyPressed inp KEY_SPACE then
    match selectedMenuItem g2 with
    | 0 => g3 <- reset g2 ;; Some (changeState PLAYING g3)
    | 1 => Some (changeState LEADERBOARD g2)
    | 2 => Some (changeState SETTINGS g2)
    | 3 => Some (set_gameRunning false g2)
    | _ => Some g2
    end
  else Some g2.

Definition handleGameInput (inp : Input) (g : t) : t :=
  if IsKeyPressed inp KEY_P || IsKeyPressed inp KEY_SPACE then
    changeState PAUSED g
  else if IsKeyPressed inp KEY_Q || IsKeyPressed inp KEY_ESCAPE then
    changeState MENU g
  else
    let g1 :=
      if (IsKeyPressed inp KEY_W || IsKeyPressed inp KEY_UP)
         && negb (Direction_eqb (currentDirection g) DOWN)
      then set_nextDirection UP g else g in
    let g2 :=
      if (IsKeyPressed inp KEY_S || IsKeyPressed inp KEY_DOWN)
         && negb (Direction_eqb (currentDirection g1) UP)
      then set_nextDirection DOWN g1 else g1 in
    let g3 :=
      if (IsKeyPressed inp KEY_A || IsKeyPressed inp KEY_LEFT)
         && negb (Direction_eqb (currentDirection g2) RIGHT)
      then set_nextDirection LEFT g2 else g2 in
    if (IsKeyPressed inp KEY_D || IsKeyPressed inp KEY_RIGHT)
       && negb (Direction_eqb (currentDirection g3) LEFT)
    then set_nextDirection RIGHT g3 else g3.

Definition handleLeaderboardInput (inp : Input) (g : t) : t :=
  if IsKeyPressed inp KEY_ESCAPE || IsKeyPressed inp KEY_Q
     || IsKeyPressed inp KEY_ENTER
  then changeState MENU g else g.

Definition handleSettingsInput (inp : Input) (g : t) : t :=
  let g1 :=
    if IsKeyPressed inp KEY_ENTER || IsKeyPressed inp KEY_SPACE
    then set_showGrid (negb (showGrid g)) g else g in
  if IsKeyPressed inp KEY_ESCAPE || IsKeyPressed inp KEY_Q
  then changeState MENU (saveSettings g1) else g1.

Definition handleInput (inp : Input) (g : t) : option t :=
  match currentState g with
  | MENU => handleMenuInput inp g
  | PLAYING => Some (handleGameInput inp g)
  | LEADERBOARD => Some (handleLeaderboardInput inp g)
  | SETTINGS => Some (handleSettingsInput inp g)
  | GAME_OVER =>
      g1 <- (if IsKeyPressed inp KEY_R
             then g' <- reset g ;; Some (changeState PLAYING g')
             else Some g) ;;
      let g2 :=
        if IsKeyPressed inp KEY_Q || IsKeyPressed inp KEY_ESCAPE
        then changeState MENU g1 else g1 in
      Some (if IsKeyPressed inp KEY_L then changeState LEADERBOARD g2 else g2)
  | PAUSED =>
      let g1 :=
        if IsKeyPressed inp KEY_P || IsKeyPressed inp KEY_SPACE
        then changeState PLAYING g else g in
      Some (if IsKeyPressed inp KEY_Q || IsKeyPressed inp KEY_ESCAPE
            then changeState MENU g1 else g1)
  end.

(** *** The logical tick *)

(** The body of [if (moveTimer >= currentSpeed)] in [update]. *)
Definition tick (g : t) : option t :=
  let g1 := set_currentDirection (nextDirection g) (set_moveTimer F32.zero g) in
  g2 <- moveSnake g1 ;;
  collided <- checkCollision g2 ;;
  if collided then
    Some (changeState GAME_OVER (savePersonalBest (saveToLeaderboard g2)))
  else
    match snake g2 with
    | [] => None
    | front :: _ =>
        if Position_eqb front (food g2)
        then generateFood (set_score (wrap_int (score g2 + 10)) g2)
        else Some (set_snake (removelast (snake g2)) g2)
    end.

Definition update (deltaTime : F32.t) (g : t) : option t :=
  let g1 := set_moveTimer (F32.add (moveTimer g) deltaTime) g in
  let currentSpeed := calculateSpeed g1 in
  if F32.leb currentSpeed (moveTimer g1) then tick g1 else Some g1.

Definition updateAnimations (deltaTime : F32.t) (g : t) : t :=
  set_animationTimer (F32.add (animationTimer g) deltaTime) g.

(** One pass of the loop of [run]; drawing does not change the state. *)
Definition frame (inp : Input) (g : t) : option t :=
  let deltaTime := GetFrameTime inp in
  g1 <- handleInput inp g ;;
  g2 <- (if GameState_eqb (currentState g1) PLAYING
         then update deltaTime g1 else Some g1) ;;
  Some (updateAnimations deltaTime g2).

(** [run] over the inputs of successive frames. *)
Fixpoint run (inputs : list Input) (g : t) : option t :=
  match inputs with
  | [] => Some g
  | inp :: inputs' =>
      if negb (WindowShouldClose inp) && gameRunning g
      then g' <- frame inp g ;; run inputs' g'
      else Some g
  end.

(** The constructor.  [env] supplies the player name, the files and the
    [rand()] sequence, and the values of the members the constructor
    leaves uninitialised until [reset] ([food] and the directions). *)
Definition construct (env : t) : option t :=
  let g0 :=
    mk MENU [] (food env) [] (currentDirection env) (nextDirection env)
       0 0 0 F32.zero (F32.literal 15 100) F32.zero (playerName env) []
       0 true true (files env) (rand_values env) (rand_calls env) in
  reset (loadObstacles "obstacles.txt"
           (loadLeaderboard (loadHighestScores (loadSettings g0)))).
End WithSort.
End Game.

(** ** Drawing (raylib)

    A drawing method is embedded as the list of raylib calls it makes, in
    order, with the arguments it computes.  [Fade] is raylib's and is kept
    as a constructor of the colour argument. *)

Module Color.
Record t := mk { r : Z; g : Z; b : Z; a : Z }.
End Color.

(** The palette [Game::Colors] and raylib's WHITE and BLACK. *)
Module Colors.
Definition background : Color.t := Color.mk 15 15 25 255.
Definition snakeHead : Color.t := Color.mk 100 255 100 255.
Definition snakeBody : Color.t := Color.mk 50 200 50 255.
Definition food : Color.t := Color.mk 255 100 100 255.
Definition obstacle : Color.t := Color.mk 120 120 120 255.
Definition grid : Color.t := Color.mk 30 30 40 255.
Definition ui : Color.t := Color.mk 200 200 200 255.
Definition accent : Color.t := Color.mk 100 150 255 255.
Definition warning : Color.t := Color.mk 255 200 100 255.
Definition success : Color.t := Color.mk 100 255 150 255.
Definition WHITE : Color.t := Color.mk 255 255 255 255.
Definition BLACK : Color.t := Color.mk 0 0 0 255.
End Colors.

Inductive Paint :=
  | Plain (c : Color.t)
  | Fade (c : Color.t) (alpha : F32.t).

(** [DrawTextEx] takes the position as a [Vector2] of two floats, and the
    font size and the spacing as floats. *)
Inductive DrawCall :=
  | DrawRectangle (posX posY width height : Z) (color : Paint)
  | DrawRectangleLines (posX posY width height : Z) (color : Paint)
  | DrawLine (startX startY endX endY : Z) (color : Paint)
  | DrawTextEx (text : string) (px py : F32.t) (fontSize spacing : F32.t)
               (tint : Paint).

Module Draw.

Definition CELL_SIZE : Z := 20.
Definition SCREEN_WIDTH : Z := Game.GRID_WIDTH * CELL_SIZE + 250.
Definition SCREEN_HEIGHT : Z := Game.GRID_HEIGHT * CELL_SIZE + 150.

(** An [int] where a [float] is expected. *)
Definition flt (z : Z) : F32.t := F32.of_int z.

(** [std::to_string] of an [int] or a [size_t]. *)
Definition to_string (n : Z) : string := string_of_int n.

(** The line "NEW PERSONAL BEST!" or "NEW HIGHEST SCORE!" of the game over
    screen, when one is drawn. *)
Definition record_banner (g : Game.t) (centerX centerY : Z) : list DrawCall :=
  if (Game.personalBestScore g <? Game.score g) && (0 <? Game.personalBestScore g)
  then [DrawTextEx "NEW PERSONAL BEST!"
          (F32.sub (flt centerX) (flt 85)) (F32.sub (flt centerY) (flt 40))
          (flt 18) (flt 1) (Plain Colors.success)]
  else if (Game.overallHighestScore g <? Game.score g)
          && (0 <? Game.overallHighestScore g)
  then [DrawTextEx "NEW HIGHEST SCORE!"
          (F32.sub (flt centerX) (flt 85)) (F32.sub (flt centerY) (flt 20))
          (flt 18) (flt 1) (Plain Colors.warning)]
  else [].

Definition drawGameOver (g : Game.t) : list DrawCall :=
  let centerX := Z.quot SCREEN_WIDTH 2 in
  let centerY := Z.quot SCREEN_HEIGHT 2 in
  [ DrawRectangle 0 0 SCREEN_WIDTH SCREEN_HEIGHT
      (Fade Colors.BLACK (F32.literal 7 10));
    DrawRectangle (centerX - 200) (centerY - 150) 400 300
      (Fade Colors.background (F32.literal 95 100));
    DrawRectangleLines (centerX - 200) (centerY - 150) 400 300
      (Plain Colors.accent);
    DrawTextEx "GAME OVER"
      (F32.sub (flt centerX) (flt 80)) (F32.sub (flt centerY) (flt 120))
      (flt 28) (flt 2) (Plain Colors.warning);
    DrawTextEx ("Final Score: " ++ to_string (Game.score g))
      (F32.sub (flt centerX) (flt 70)) (F32.sub (flt centerY) (flt 80))
      (flt 20) (flt 1) (Plain Colors.WHITE) ]
  ++ record_banner g centerX centerY
  ++ [ DrawTextEx "R - Restart Game"
         (F32.sub (flt centerX) (flt 65)) (F32.add (flt centerY) (flt 75))
         (flt 16) (flt 1) (Plain Colors.accent);
       DrawTextEx "L - View Leaderboard"
         (F32.sub (flt centerX) (flt 80)) (F32.add (flt centerY) (flt 95))
         (flt 16) (flt 1) (Plain Colors.accent);
       DrawTextEx "Q - Return to Menu"
         (F32.sub (flt centerX) (flt 75)) (F32.add (flt centerY) (flt 115))
         (flt 16) (flt 1) (Plain Colors.accent) ].

(** The body of the loop of [drawLeaderboard] for the entry [e] at index
    [i]. *)
Definition leaderboard_row (player : string) (startY : Z) (i : nat)
    (e : ScoreEntry.t) : list DrawCall :=
  let row := startY + 40 + Z.of_nat i * 30 in
  let isCurrentPlayer := String.eqb (ScoreEntry.name e) player in
  let tint := Plain (if isCurrentPlayer then Colors.success else Colors.ui) in
  (if isCurrentPlayer
   then [DrawRectangle 40 (row - 5) (SCREEN_WIDTH - 80) 25
           (Fade Colors.accent (F32.literal 2 10))]
   else [])
  ++ [ DrawTextEx (to_string (Z.of_nat i + 1)) (flt 50) (flt row)
         (flt 16) (flt 1) (Plain Colors.ui);
       DrawTextEx (ScoreEntry.name e) (flt 150) (flt row) (flt 16) (flt 1) tint;
       DrawTextEx (to_string (ScoreEntry.score e)) (flt 350) (flt row)
         (flt 16) (flt 1) tint ].

(** The rows for the indices [i], [i+1], ... below the bound of the loop. *)
Fixpoint leaderboard_rows (player : string) (startY : Z) (i : nat)
    (entries : list ScoreEntry.t) : list DrawCall :=
  match entries with
  | [] => []
  | e :: entries' =>
      leaderboard_row player startY i e
      ++ leaderboard_rows player startY (S i) entries'
  end.

Definition drawLeaderboard (g : Game.t) : list DrawCall :=
  let centerX := Z.quot SCREEN_WIDTH 2 in
  let startY := 100 in
  [ DrawTextEx "LEADERBOARD" (F32.sub (flt centerX) (flt 90)) (flt 50)
      (flt 32) (flt 2) (Plain Colors.accent) ]
  ++ match Game.leaderboard g with
     | [] =>
         [ DrawTextEx "No scores yet. Be the first!"
             (F32.sub (flt centerX) (flt 100)) (F32.add (flt startY) (flt 50))
             (flt 20) (flt 1) (Plain Colors.ui) ]
     | _ :: _ =>
         [ DrawTextEx "Rank" (flt 50) (flt startY) (flt 16) (flt 1)
             (Plain Colors.accent);
           DrawTextEx "Player" (flt 150) (flt startY) (flt 16) (flt 1)
             (Plain Colors.accent);
           DrawTextEx "Score" (flt 350) (flt startY) (flt 16) (flt 1)
             (Plain Colors.accent);
           DrawLine 50 (startY + 25) (SCREEN_WIDTH - 50) (startY + 25)
             (Plain Colors.grid) ]
         ++ leaderboard_rows (Game.playerName g) startY 0
              (firstn (Nat.min (List.length (Game.leaderboard g))
                               (Z.to_nat Game.MAX_LEADERBOARD_ENTRIES))
                      (Game.leaderboard g))
     end
  ++ [ DrawTextEx "Press Q or Escape to return to menu"
         (F32.sub (flt centerX) (flt 140)) (F32.sub (flt SCREEN_HEIGHT) (flt 50))
         (flt 14) (flt 1) (Plain Colors.ui) ].

End Draw.

(** ** The program (main.cpp) *)

(** [std::getline]: the characters before the first newline. *)
Fixpoint getline (s : string) : string :=
  match s with
  | EmptyString => EmptyString
  | String c s' =>
      if Ascii.eqb c (ascii_of_nat 10) then EmptyString else String c (getline s')
  end.

(** What [main] prints on standard output before it reads the name. *)
Definition greeting : string :=
  ("Welcome to Snake Game - Modern Edition!" ++ newline ++ "Enter your name: ")%string.

(** [main]: the name is the first line of standard input, "Player" when
    that line is empty; the game is constructed, run over the frames and
    destroyed.  The result is the output, the game as the destructor
    leaves it and the exit status.  [env] supplies the files, the [rand()]
    sequence and the members the constructor leaves uninitialised. *)
Definition main {sorter : StdSort} (stdin : string) (env : Game.t)
    (inputs : list Input) : option (string * Game.t * Z) :=
  let typed := getline stdin in
  let playerName := if String.eqb typed "" then "Player"%string else typed in
  match Game.construct (Game.set_playerName playerName env) with
  | Some game =>
      match Game.run inputs game with
      | Some game' => Some (greeting, Game.destructor game', 0)
      | None => None
      end
  | None => None
  end.
(** * Vocabulary of the specification *)

(** ** The board and a running session *)

(** A cell of the 30 x 20 board. *)
Definition on_board (p : Position) : Prop :=
  0 <= x p < 30 /\ 0 <= y p < 20.

(** The head [head] runs into a wall, into the body [body] behind it, or
    into an obstacle. *)
Definition hits (head : Position) (body obstacles : list Position) : Prop :=
  x head < 0 \/ x head >= 30 \/ y head < 0 \/ y head >= 20
  \/ In head body \/ In head obstacles.

(** A cell that neither the snake nor an obstacle occupies. *)
Definition free_cell (g : Game.t) (p : Position) : Prop :=
  on_board p /\ ~ In p (Game.snake g) /\ ~ In p (Game.obstacles g).

(** What the board shows is the same in both states. *)
Definition same_board (g g' : Game.t) : Prop :=
  Game.snake g' = Game.snake g /\ Game.food g' = Game.food g
  /\ Game.obstacles g' = Game.obstacles g /\ Game.score g' = Game.score g
  /\ Game.currentDirection g' = Game.currentDirection g
  /\ Game.nextDirection g' = Game.nextDirection g
  /\ Game.playerName g' = Game.playerName g
  /\ Game.rand_values g' = Game.rand_values g
  /\ Game.rand_calls g' = Game.rand_calls g.

(** The movement timer has reached the interval of the current score when
    [deltaTime] is added: the condition under which [update] ticks. *)
Definition tick_due (deltaTime : F32.t) (g : Game.t) : Prop :=
  F32.leb (Game.calculateSpeed g) (F32.add (Game.moveTimer g) deltaTime) = true.

(** The state in which [update] calls [checkCollision]: the buffered
    direction committed, the timer cleared and the new head prepended. *)
Definition moved (g : Game.t) (front : Position) : Game.t :=
  Game.set_snake (Game.advance (Game.nextDirection g) front :: Game.snake g)
    (Game.set_currentDirection (Game.nextDirection g)
       (Game.set_moveTimer F32.zero g)).

(** What holds of the snake and the score while a session runs: the segments
    are distinct cells of the board, and every segment beyond the first three
    was paid for with ten points. *)
Definition session_ok (g : Game.t) : Prop :=
  NoDup (Game.snake g) /\ Forall on_board (Game.snake g)
  /\ (3 <= List.length (Game.snake g))%nat
  /\ Game.score g = 10 * (Z.of_nat (List.length (Game.snake g)) - 3).

(** A session is running in the states PLAYING and PAUSED. *)
Definition in_session (g : Game.t) : Prop :=
  Game.currentState g = PLAYING \/ Game.currentState g = PAUSED.

Definition game_inv (g : Game.t) : Prop := in_session g -> session_ok g.

(** ** Input *)

(** The two keys that command direction [d]. *)
Definition turn_keys (d : Direction) : list Key :=
  match d with
  | UP => [KEY_W; KEY_UP]
  | DOWN => [KEY_S; KEY_DOWN]
  | LEFT => [KEY_A; KEY_LEFT]
  | RIGHT => [KEY_D; KEY_RIGHT]
  end.

(** The input of the frame commands direction [d] and nothing else. *)
Definition pressing (d : Direction) (inp : Input) : Prop :=
  (exists k, In k (turn_keys d) /\ IsKeyPressed inp k = true)
  /\ (forall k, IsKeyPressed inp k = true -> In k (turn_keys d)).

(** The keys of a frame. *)
Definition keys (pressed : list Key) (k : Key) : bool :=
  existsb (fun k' =>
             match k, k' with
             | KEY_W, KEY_W | KEY_S, KEY_S | KEY_A, KEY_A | KEY_D, KEY_D
             | KEY_UP, KEY_UP | KEY_DOWN, KEY_DOWN | KEY_LEFT, KEY_LEFT
             | KEY_RIGHT, KEY_RIGHT | KEY_P, KEY_P | KEY_SPACE, KEY_SPACE
             | KEY_Q, KEY_Q | KEY_ESCAPE, KEY_ESCAPE | KEY_ENTER, KEY_ENTER
             | KEY_R, KEY_R | KEY_L, KEY_L => true
             | _, _ => false
             end) pressed.

(** The frame time 0.2 s, longer than every movement interval. *)
Definition long_frame : F32.t := F32.literal 2 10.

(** A frame of 1/60 s, shorter than every movement interval, and one of
    0.2 s, with the given keys pressed. *)
Definition short_input (pressed : list Key) : Input :=
  mkInput (keys pressed) (F32.literal 1 60) false.

Definition long_input (pressed : list Key) : Input :=
  mkInput (keys pressed) long_frame false.

(** ** Stores of obstacles and scores *)

(** The entries of an obstacles file that [loadObstacles] keeps, in the words
    of the specification: those on the board, up to the first hundred. *)
Definition kept_obstacles (pairs : list (Z * Z)) : list Position :=
  firstn 100
    (map (fun p => mkPosition (fst p) (snd p))
         (filter (fun p => Game.in_grid (fst p) (snd p)) pairs)).

(** The highest of the given scores, 0 when there is none above it: the best
    score of a player of whom nothing (positive) is recorded is 0. *)
Definition best_of (scores : list Z) : Z := fold_right Z.max 0 scores.

(** The scores recorded for [player] among the pairs of a store. *)
Definition scores_of (player : string) (pairs : list (string * Z)) : list Z :=
  map snd (filter (fun p => String.eqb (fst p) player) pairs).

(** The maximum of the scores recorded, in the words of the specification:
    the highest of them, and none when no score is recorded. *)
Definition recorded_max (scores : list Z) : option Z :=
  match scores with
  | [] => None
  | s :: rest => Some (fold_right Z.max s rest)
  end.

(** The pairs a score store holds; a missing file holds none. *)
Definition stored_pairs (fs : FileSystem) (path : string) : list (string * Z) :=
  match open_read fs path with
  | Some text => read_name_score_pairs text
  | None => []
  end.

(** The keys of a [std::map] increase strictly along its entries. *)
Definition key_lt (a b : string * Z) : Prop :=
  String.compare (fst a) (fst b) = Lt.

Definition map_ok (m : StdMap.t) : Prop := StronglySorted key_lt m.

(** [v] is the highest score recorded for [n] among [pairs]. *)
Definition best_recorded (pairs : list (string * Z)) (n : string) (v : Z) : Prop :=
  In (n, v) pairs /\ forall s, In (n, s) pairs -> s <= v.

(** What the merging loop of [loadLeaderboard] has built after the pairs
    [seen]: for every name seen, its highest score. *)
Definition merged (seen : list (string * Z)) (m : StdMap.t) : Prop :=
  map_ok m
  /\ (forall n v, StdMap.find n m = Some v -> best_recorded seen n v)
  /\ (forall n s, In (n, s) seen -> exists v, StdMap.find n m = Some v).

(** No two entries of the leaderboard carry the same name. *)
Definition unique_names (l : list ScoreEntry.t) : Prop :=
  NoDup (map ScoreEntry.name l).

(** The distinct names of a store, each once. *)
Definition distinct_names (pairs : list (string * Z)) : list string :=
  nodup string_dec (map fst pairs).

(** The upsert of the specification: the entry of [player] keeps the higher
    of its score and [s]; a player without entry gets one at the end. *)
Definition upsert_max (player : string) (s : Z) (l : list ScoreEntry.t)
    : list ScoreEntry.t :=
  if existsb (fun e => String.eqb (ScoreEntry.name e) player) l
  then map (fun e =>
              if String.eqb (ScoreEntry.name e) player
              then ScoreEntry.mk (ScoreEntry.name e) (Z.max (ScoreEntry.score e) s)
              else e) l
  else l ++ [ScoreEntry.mk player s].

(** The leaderboard file in the words of the specification: one line per
    entry, in the order of the list, with the name, a blank, the score in
    decimal and a line feed. *)
Definition leaderboard_text (l : list ScoreEntry.t) : string :=
  fold_right
    (fun e rest =>
       (ScoreEntry.name e ++ " " ++ string_of_int (ScoreEntry.score e)
        ++ newline ++ rest)%string)
    EmptyString l.

(** ** The movement interval *)

(** The rational number a finite binary32 value stands for. *)
Definition float_value (f : F32.t) : Q :=
  match f with
  | S754_finite s m e => ((if s then -1 else 1) * Zpos m # 1) * Qpower (2 # 1) e
  | _ => 0%Q
  end.

(** The movement interval of the specification, in exact arithmetic:
    max(0.05, 0.15 - floor(score / 30) * 0.02). *)
Definition ideal_speed (score : Z) : Q :=
  Qmax (5 # 100) ((15 # 100) - inject_Z (score / 30) * (2 # 100)).

(** The interval computed for the score step [k = score / 30]. *)
Definition speed_step (k : Z) : F32.t :=
  F32.max (F32.literal 5 100)
    (F32.sub (F32.literal 15 100) (F32.mul (F32.of_int k) (F32.literal 2 100))).

(** ** An implementation of [std::sort] *)

Lemma insert_entry_perm (e : ScoreEntry.t) (l : list ScoreEntry.t) :
  Permutation (e :: l) (insert_entry e l).
Proof.
  induction l as [| h t IH]; simpl; [apply Permutation_refl |].
  destruct (ScoreEntry.lt e h); [apply Permutation_refl |].
  eapply perm_trans; [apply perm_swap | apply perm_skip, IH].
Qed.

Lemma insertion_sort_perm (l : list ScoreEntry.t) :
  Permutation l (insertion_sort l).
Proof.
  induction l as [| h t IH]; simpl; [constructor |].
  eapply perm_trans; [apply perm_skip, IH | apply insert_entry_perm].
Qed.

Lemma insert_entry_sorted (e : ScoreEntry.t) (l : list ScoreEntry.t) :
  StronglySorted score_ge l -> StronglySorted score_ge (insert_entry e l).
Proof.
  induction l as [| h t IH]; intros Hs; simpl.
  - repeat constructor.
  - inversion Hs as [| ? ? Ht Hh]; subst.
    unfold ScoreEntry.lt. destruct (ScoreEntry.score h <? ScoreEntry.score e) eqn:E.
    + apply Z.ltb_lt in E. constructor; [exact Hs |].
      constructor; [unfold score_ge; lia |].
      eapply Forall_impl; [| exact Hh]. unfold score_ge. intros a Ha. lia.
    + apply Z.ltb_ge in E. constructor; [apply IH; exact Ht |].
      eapply Permutation_Forall; [apply insert_entry_perm |].
      constructor; [exact E | exact Hh].
Qed.

Lemma insertion_sort_sorted (l : list ScoreEntry.t) :
  StronglySorted score_ge (insertion_sort l).
Proof.
  induction l as [| h t IH]; simpl; [constructor |].
  apply insert_entry_sorted, IH.
Qed.

Definition insertion_sorter : StdSort :=
  Build_StdSort insertion_sort insertion_sort_perm insertion_sort_sorted.

(** ** Executions *)

(** A state at the end of a pass of the main loop, some passes after the
    constructor. *)
Definition reachable {sorter : StdSort} (g : Game.t) : Prop :=
  exists env g0 inputs,
    Game.construct env = Some g0 /\ Game.run inputs g0 = Some g.

(** A state in which the main loop calls [update]: the state PLAYING after
    the input handling of a pass. *)
Definition playing_state {sorter : StdSort} (g : Game.t) : Prop :=
  exists gk inp,
    reachable gk /\ Game.handleInput inp gk = Some g
    /\ Game.currentState g = PLAYING.


(** ** Sample games and files *)

(** An environment without files, in which every file can be created. *)
Definition no_files : FileSystem := mkFS (fun _ => None) (fun _ => true).

(** A file system holding the given files, all writable. *)
Fixpoint with_files (l : list (string * string)) : string -> option string :=
  match l with
  | [] => fun _ => None
  | (path, text) :: l' =>
      fun p => if String.eqb p path then Some text else with_files l' p
  end.

(** A game in progress: the snake as [initializeSnake] leaves it, food two
    cells ahead, one obstacle, player "ann". *)
Definition sample_game : Game.t :=
  Game.mk PLAYING
    [mkPosition 15 10; mkPosition 15 11; mkPosition 15 12] (mkPosition 15 8)
    [mkPosition 3 4] UP UP 0 0 0 F32.zero (F32.literal 15 100) F32.zero
    "ann" [] 0 true true no_files (fun n => N.of_nat (7 * n + 3)) 1.

(** The sample game on a board that obstacles cover completely. *)
Definition full_board : Game.t := Game.set_obstacles Game.grid_cells sample_game.

(** The sample game with an obstacle right ahead of the snake, on the cell
    that is also recorded as the food. *)
Definition blocked_game : Game.t :=
  Game.set_obstacles [mkPosition 15 9]
    (Game.set_food (mkPosition 15 9) (Game.set_score 40 sample_game)).

(** The sample game with the snake at the upper wall. *)
Definition wall_game : Game.t :=
  Game.set_snake [mkPosition 15 0; mkPosition 15 1; mkPosition 15 2] sample_game.

(** The sample game with the given score. *)
Definition game_with_score (s : Z) : Game.t := Game.set_score s sample_game.

(** The sample game over with [s] points and the given leaderboard in
    memory. *)
Definition game_over_with (s : Z) (lb : list (string * Z)) : Game.t :=
  Game.set_leaderboard (map Game.entry_of lb) (Game.set_score s sample_game).

(** The environment of a first run: no files yet, player "ann". *)
Definition first_run : Game.t :=
  Game.mk MENU [] (mkPosition 0 0) [] UP UP 0 0 0 F32.zero F32.zero F32.zero
    "ann" [] 0 true true no_files (fun n => N.of_nat (7 * n + 3)) 0.

(** The game a first run constructs, and its first session as the main loop
    hands it to [update] after Enter was pressed in the menu. *)
Definition first_menu : Game.t :=
  match Game.construct (sorter := insertion_sorter) first_run with
  | Some g => g
  | None => first_run
  end.

Definition first_game : Game.t :=
  match Game.handleInput (sorter := insertion_sorter)
          (short_input [KEY_ENTER]) first_menu with
  | Some g => g
  | None => first_run
  end.

(** A game whose obstacles file holds the given text. *)
Definition with_obstacles_file (text : string) : Game.t :=
  Game.set_files (mkFS (with_files [("obstacles.txt"%string, text)]) (fun _ => true))
    sample_game.

(** An obstacles file with a line that is no pair of integers between two
    well-formed lines. *)
Definition obstacles_with_junk : string :=
  ("1 1" ++ newline ++ "foo" ++ newline ++ "2 2" ++ newline)%string.

(** A game of player "x" with the given text in the per-player store. *)
Definition with_user_scores (text : string) : Game.t :=
  Game.mk MENU [] (mkPosition 0 0) [] UP UP 0 7 7 F32.zero (F32.literal 15 100)
    F32.zero "x" [] 0 true true
    (mkFS (with_files [("user_scores.txt"%string, text)]) (fun _ => true))
    (fun _ => 0%N) 0.

(** A game of player "ann" whose leaderboard store holds the given lines. *)
Definition with_scores (lines : list (string * Z)) : Game.t :=
  Game.set_files
    (mkFS (with_files [("scores.txt"%string, Game.score_lines lines)]) (fun _ => true))
    sample_game.

(** Eleven players, out of order. *)
Definition eleven_players : list (string * Z) :=
  [("kim", 10); ("bob", 70); ("eve", 20); ("dan", 90); ("ann", 30); ("joe", 110);
   ("cat", 40); ("fay", 100); ("gus", 60); ("hal", 50); ("ida", 80)]%string.


(** ** The actions of a pass of the main loop

    What one pass of [run] does to the game, cut into the single actions of
    [handleInput], [update] and [updateAnimations], each with the state in
    which the code takes it. *)
Inductive action {sorter : StdSort} : Game.t -> Game.t -> Prop :=
  | act_menu_down (g : Game.t) :
      Game.currentState g = MENU ->
      action g (Game.set_selectedMenuItem
                  (Z.rem (wrap_int (Game.selectedMenuItem g + 1)) 4) g)
  | act_menu_up (g : Game.t) :
      Game.currentState g = MENU ->
      action g (Game.set_selectedMenuItem
                  (Z.rem (wrap_int (wrap_int (Game.selectedMenuItem g - 1) + 4)) 4) g)
  | act_start (g g' : Game.t) :
      Game.currentState g = MENU \/ Game.currentState g = GAME_OVER ->
      Game.reset g = Some g' ->
      action g (Game.changeState PLAYING g')
  | act_show (s : GameState) (g : Game.t) :
      s = MENU \/ s = LEADERBOARD \/ s = SETTINGS ->
      action g (Game.changeState s g)
  | act_exit (g : Game.t) :
      Game.currentState g = MENU ->
      action g (Game.set_gameRunning false g)
  | act_pause (g : Game.t) :
      Game.currentState g = PLAYING ->
      action g (Game.changeState PAUSED g)
  | act_resume (g : Game.t) :
      Game.currentState g = PAUSED ->
      action g (Game.changeState PLAYING g)
  | act_turn (d : Direction) (g : Game.t) :
      Game.currentState g = PLAYING ->
      Game.currentDirection g <> opposite d ->
      action g (Game.set_nextDirection d g)
  | act_toggle (g : Game.t) :
      Game.currentState g = SETTINGS ->
      action g (Game.set_showGrid (negb (Game.showGrid g)) g)
  | act_saveSettings (g : Game.t) :
      Game.currentState g = SETTINGS ->
      action g (Game.saveSettings g)
  | act_timer (v : F32.t) (g : Game.t) :
      Game.currentState g = PLAYING ->
      action g (Game.set_moveTimer v g)
  | act_animate (v : F32.t) (g : Game.t) :
      action g (Game.set_animationTimer v g)
  | act_collide (g : Game.t) (front : Position) (body : list Position) :
      Game.currentState g = PLAYING ->
      Game.snake g = front :: body ->
      hits (Game.advance (Game.nextDirection g) front) (front :: body)
           (Game.obstacles g) ->
      action g (Game.changeState GAME_OVER
                  (Game.savePersonalBest (Game.saveToLeaderboard (moved g front))))
  | act_eat (g : Game.t) (front : Position) (body : list Position) (g' : Game.t) :
      Game.currentState g = PLAYING ->
      Game.snake g = front :: body ->
      ~ hits (Game.advance (Game.nextDirection g) front) (front :: body)
             (Game.obstacles g) ->
      Game.advance (Game.nextDirection g) front = Game.food g ->
      Game.generateFood
        (Game.set_score (wrap_int (Game.score g + 10)) (moved g front)) = Some g' ->
      action g g'
  | act_move (g : Game.t) (front : Position) (body : list Position) :
      Game.currentState g = PLAYING ->
      Game.snake g = front :: body ->
      ~ hits (Game.advance (Game.nextDirection g) front) (front :: body)
             (Game.obstacles g) ->
      Game.advance (Game.nextDirection g) front <> Game.food g ->
      action g (Game.set_snake (removelast (Game.snake (moved g front)))
                  (moved g front)).

Inductive actions {sorter : StdSort} : Game.t -> Game.t -> Prop :=
  | actions_none (g : Game.t) : actions g g
  | actions_next (g1 g2 g3 : Game.t) :
      action g1 g2 -> actions g2 g3 -> actions g1 g3.

(** ** What holds in every state of a run *)

(** The marked item is one of the four of the menu. *)
Definition menu_ok (g : Game.t) : Prop := 0 <= Game.selectedMenuItem g <= 3.

(** The player's best is not above the overall best, and once the game is
    over the score of the session is not above the player's best. *)
Definition bests_ok (g : Game.t) : Prop :=
  0 <= Game.personalBestScore g <= Game.overallHighestScore g
  /\ (Game.currentState g = GAME_OVER -> Game.score g <= Game.personalBestScore g).

(** The buffered direction is not the reverse of the current one. *)
Definition no_reverse (g : Game.t) : Prop :=
  Game.nextDirection g <> opposite (Game.currentDirection g).

(** What a run never changes after the constructor: the obstacles, the
    player, the [rand()] sequence, which files can be written, and every
    file but the three stores of the game. *)
Definition same_setup (g0 g : Game.t) : Prop :=
  Game.obstacles g = Game.obstacles g0
  /\ Game.playerName g = Game.playerName g0
  /\ Game.moveInterval g = Game.moveInterval g0
  /\ Game.rand_values g = Game.rand_values g0
  /\ (forall path, writable (Game.files g) path = writable (Game.files g0) path)
  /\ (forall path,
        path <> "scores.txt"%string -> path <> "user_scores.txt"%string ->
        path <> "settings.txt"%string ->
        contents (Game.files g) path = contents (Game.files g0) path).

(** Two cells that share a side. *)
Definition adjacent (p q : Position) : Prop :=
  Z.abs (x p - x q) + Z.abs (y p - y q) = 1.

(** Every segment lies next to the one behind it. *)
Fixpoint contiguous (l : list Position) : Prop :=
  match l with
  | a :: l' =>
      match l' with
      | b :: _ => adjacent a b /\ contiguous l'
      | [] => True
      end
  | [] => True
  end.

(** The head lies one step in the current direction from the segment
    behind it. *)
Definition heading (g : Game.t) : Prop :=
  match Game.snake g with
  | a :: b :: _ => a = Game.advance (Game.currentDirection g) b
  | _ => True
  end.

(** The food lies on a free cell, unless the board has none. *)
Definition food_ok (g : Game.t) : Prop :=
  free_cell g (Game.food g) \/ forall p, ~ free_cell g p.

(** What holds of the board while a session runs. *)
Definition board_ok (g : Game.t) : Prop :=
  session_ok g /\ contiguous (Game.snake g) /\ heading g /\ food_ok g.

Definition board_inv (g : Game.t) : Prop := in_session g -> board_ok g.

(** No cell occurs twice in the list. *)
Fixpoint distinct (l : list Position) : bool :=
  match l with
  | [] => true
  | a :: l' => negb (existsb (fun q => Position_eqb q a) l') && distinct l'
  end.

(** ** More sample games *)

(** The first session of a first run, as the pass that starts it leaves
    it. *)
Definition first_session : Game.t :=
  match Game.run (sorter := insertion_sorter) [short_input [KEY_ENTER]] first_menu with
  | Some g => g
  | None => first_run
  end.

(** The passes of a first run in which the player starts a game and lets
    the snake run straight into the upper wall. *)
Definition into_the_wall : list Input :=
  short_input [KEY_ENTER] :: repeat (long_input []) 11.

Definition first_game_over : Game.t :=
  match Game.run (sorter := insertion_sorter) into_the_wall first_menu with
  | Some g => g
  | None => first_run
  end.

(** A later run of player "ann", whose best so far is 10 points, in which
    [rand()] puts the food of the session right ahead of the snake twice. *)
Definition second_run : Game.t :=
  Game.mk MENU [] (mkPosition 0 0) [] UP UP 0 0 0 F32.zero F32.zero F32.zero
    "ann" [] 0 true true
    (mkFS (with_files [("user_scores.txt"%string, ("ann 10" ++ newline)%string);
                       ("scores.txt"%string, ("ann 10" ++ newline)%string)])
          (fun _ => true))
    (fun n => match n with 1%nat => 309%N | 2%nat => 308%N | _ => 0%N end) 0.

Definition second_menu : Game.t :=
  match Game.construct (sorter := insertion_sorter) second_run with
  | Some g => g
  | None => second_run
  end.

(** The game over of that run: the snake has eaten twice and run into the
    upper wall. *)
Definition second_game_over : Game.t :=
  match Game.run (sorter := insertion_sorter) into_the_wall second_menu with
  | Some g => g
  | None => second_run
  end.

(** ** Names and scores that a store gives back as written *)

Fixpoint no_space (s : string) : bool :=
  match s with
  | EmptyString => true
  | String c s' => negb (isspace c) && no_space s'
  end.

(** A name that [operator>>] reads back whole: not empty, no white space. *)
Definition is_word (s : string) : bool :=
  match s with
  | EmptyString => false
  | String _ _ => no_space s
  end.

(** A line of a store that is read back as it was written. *)
Definition storable (p : string * Z) : Prop :=
  is_word (fst p) = true /\ in_int_range (snd p) = true.

(** The stream does not go on with a digit. *)
Definition no_digit_ahead (s : string) : Prop :=
  match s with
  | String c _ => isdigit c = false
  | EmptyString => True
  end.

(** The score on the last line that a store holds for [n]. *)
Fixpoint last_score (n : string) (pairs : list (string * Z)) : option Z :=
  match pairs with
  | [] => None
  | (k, v) :: rest =>
      match last_score n rest with
      | Some v' => Some v'
      | None => if String.eqb n k then Some v else None
      end
  end.

(** An entry that scores.txt gives back as written, for a player whose name
    is [player]: its name is a word, or the player's own (whatever was
    typed), and its score an [int]. *)
Definition entry_ok (player : string) (e : ScoreEntry.t) : Prop :=
  (is_word (ScoreEntry.name e) = true \/ ScoreEntry.name e = player)
  /\ in_int_range (ScoreEntry.score e) = true.

(** What holds of the leaderboard in memory. *)
Definition leaderboard_ok (g : Game.t) : Prop :=
  unique_names (Game.leaderboard g)
  /\ StronglySorted score_ge (Game.leaderboard g)
  /\ Forall (entry_ok (Game.playerName g)) (Game.leaderboard g).

(** The player's best in memory is the best that user_scores.txt records
    for the player, as long as the file can be written and the name is a
    word. *)
Definition best_stored (g : Game.t) : Prop :=
  writable (Game.files g) "user_scores.txt" = true ->
  is_word (Game.playerName g) = true ->
  Game.personalBestScore g
  = best_of (scores_of (Game.playerName g)
               (stored_pairs (Game.files g) "user_scores.txt")).

(** The environment of a run that follows the run ended in [g]: the files
    as the destructor leaves them, everything else as in [env]. *)
Definition next_run (g env : Game.t) : Game.t :=
  Game.set_files (Game.files (Game.destructor g)) env.

(** The game that player "ann" finds in the run after the one that ended
    in [second_game_over]. *)
Definition third_menu : Game.t :=
  match Game.construct (sorter := insertion_sorter)
          (next_run second_game_over second_run) with
  | Some g => g
  | None => second_run
  end.

(** A first run in which the player goes to the settings and switches the
    grid off, and the game the next run constructs. *)
Definition to_settings : list Input :=
  [short_input [KEY_DOWN]; short_input [KEY_DOWN]; short_input [KEY_ENTER];
   short_input [KEY_ENTER]].

Definition grid_off : Game.t :=
  match Game.run (sorter := insertion_sorter) to_settings first_menu with
  | Some g => g
  | None => first_run
  end.

Definition grid_off_next : Game.t :=
  match Game.construct (sorter := insertion_sorter) (next_run grid_off first_run) with
  | Some g => g
  | None => first_run
  end.

(** The text goes on with a character that begins neither white space nor
    a number. *)
Definition no_number_ahead (s : string) : Prop :=
  match s with
  | String c _ =>
      isspace c = false /\ isdigit c = false /\ c <> "-"%char /\ c <> "+"%char
  | EmptyString => False
  end.

(** ** Pausing and leaving *)

(** A pass in which none of the keys that end a pause is pressed. *)
Definition idle_in_pause (inp : Input) : Prop :=
  IsKeyPressed inp KEY_P || IsKeyPressed inp KEY_SPACE = false
  /\ IsKeyPressed inp KEY_Q || IsKeyPressed inp KEY_ESCAPE = false.

(** The first session of a first run, paused. *)
Definition paused_session : Game.t :=
  match Game.run (sorter := insertion_sorter) [short_input [KEY_P]] first_session with
  | Some g => g
  | None => first_run
  end.

(** A first run in which the player chooses Exit in the menu. *)
Definition to_exit : list Input :=
  [short_input [KEY_UP]; short_input [KEY_ENTER]; short_input [KEY_ENTER]].

(** ** What a screen shows *)

(** The texts that a list of drawing calls puts on the screen, in order. *)
Definition texts (calls : list DrawCall) : list string :=
  flat_map (fun c => match c with
                     | DrawTextEx text _ _ _ _ _ => [text]
                     | _ => []
                     end) calls.

(** The vertical positions of the filled rectangles among the calls. *)
Definition bars (calls : list DrawCall) : list Z :=
  flat_map (fun c => match c with
                     | DrawRectangle _ posY _ _ _ => [posY]
                     | _ => []
                     end) calls.

(** The first ten entries of a leaderboard with their ranks from 0. *)
Definition ranked (l : list ScoreEntry.t) : list (nat * ScoreEntry.t) :=
  combine (seq 0 10) l.

(** The rows of the leaderboard screen: the rank from 1, the name and the
    score of each of the first ten entries. *)
Definition leaderboard_view (l : list ScoreEntry.t) : list string :=
  flat_map (fun p => [Draw.to_string (Z.of_nat (fst p) + 1);
                      ScoreEntry.name (snd p);
                      Draw.to_string (ScoreEntry.score (snd p))])
           (ranked l).

(** The leaderboard that [loadLeaderboard] builds from a store of eleven
    players, for the player "ann". *)
Definition eleven_loaded : Game.t :=
  Game.loadLeaderboard (sorter := insertion_sorter) (with_scores eleven_players).

(** ** The records of the game *)

(** What the game keeps of earlier sessions: the texts of scores.txt and
    user_scores.txt and the two best scores in memory. *)
Definition records (g : Game.t) : option string * option string * Z * Z :=
  (open_read (Game.files g) "scores.txt",
   open_read (Game.files g) "user_scores.txt",
   Game.personalBestScore g, Game.overallHighestScore g).
(** * Properties *)

(** ** Integers and positions *)

Lemma wrap_int_small (z : Z) : INT_MIN <= z <= INT_MAX -> wrap_int z = z.
Proof.
  unfold INT_MIN, INT_MAX, wrap_int. intros H.
  rewrite Z.mod_small by lia. lia.
Qed.

Lemma Position_eqb_eq (a b : Position) : Position_eqb a b = true <-> a = b.
Proof.
  destruct a as [ax ay], b as [bx b_y]. unfold Position_eqb. simpl.
  rewrite andb_true_iff, !Z.eqb_eq. split.
  - intros [-> ->]. reflexivity.
  - intros H. inversion H. auto.
Qed.

Lemma Position_eqb_refl (a : Position) : Position_eqb a a = true.
Proof. apply Position_eqb_eq. reflexivity. Qed.

Lemma Position_eqb_neq (a b : Position) : Position_eqb a b = false <-> a <> b.
Proof.
  rewrite <- Position_eqb_eq. destruct (Position_eqb a b); split; congruence.
Qed.

(** Membership as the loops of the source test it. *)
Lemma existsb_Position (p : Position) (l : list Position) :
  existsb (fun q => Position_eqb q p) l = true <-> In p l.
Proof.
  rewrite existsb_exists. split.
  - intros [q [Hin Heq]]. apply Position_eqb_eq in Heq. subst. exact Hin.
  - intros Hin. exists p. split; [exact Hin | apply Position_eqb_refl].
Qed.

Lemma existsb_Position_false (p : Position) (l : list Position) :
  existsb (fun q => Position_eqb q p) l = false <-> ~ In p l.
Proof.
  rewrite <- existsb_Position.
  destruct (existsb (fun q => Position_eqb q p) l); split; congruence.
Qed.

Lemma in_upto (n k : Z) : In k (Game.upto n) <-> 0 <= k < n.
Proof.
  unfold Game.upto. rewrite in_map_iff. split.
  - intros [i [<- Hi]]. apply in_seq in Hi. lia.
  - intros H. exists (Z.to_nat k). split; [lia | apply in_seq; lia].
Qed.

Lemma in_grid_cells (p : Position) : In p Game.grid_cells <-> on_board p.
Proof.
  unfold Game.grid_cells, on_board. rewrite in_flat_map. split.
  - intros [cx [Hx Hp]]. apply in_map_iff in Hp. destruct Hp as [cy [<- Hy]].
    apply in_upto in Hx. apply in_upto in Hy. simpl.
    unfold Game.GRID_WIDTH, Game.GRID_HEIGHT in *. lia.
  - intros [Hx Hy]. exists (x p). split.
    + apply in_upto. unfold Game.GRID_WIDTH. lia.
    + apply in_map_iff. exists (y p). split.
      * destruct p; reflexivity.
      * apply in_upto. unfold Game.GRID_HEIGHT. lia.
Qed.

Lemma grid_cells_length : List.length Game.grid_cells = 600%nat.
Proof. reflexivity. Qed.

(** ** C1: checkCollision *)

Lemma checkCollision_front (g : Game.t) (head : Position) (body : list Position) :
  Game.snake g = head :: body ->
  exists b, Game.checkCollision g = Some b
            /\ (b = true <-> hits head body (Game.obstacles g)).
Proof.
  intros Hs. unfold Game.checkCollision, hits. rewrite Hs.
  eexists. split; [reflexivity |].
  unfold Game.GRID_WIDTH, Game.GRID_HEIGHT.
  rewrite !orb_true_iff.
  rewrite Z.ltb_lt, Z.ltb_lt, !Z.leb_le, !existsb_Position.
  intuition lia.
Qed.

(** C1. With the head at the front of the snake, [checkCollision] answers
    true exactly when the head is off the 30 x 20 board, or is also a later
    segment of the body, or is an obstacle; in every other case it answers
    false. *)
Theorem checkCollision_spec (g : Game.t) (head : Position) (body : list Position) :
  Game.snake g = head :: body ->
  (Game.checkCollision g = Some true <-> hits head body (Game.obstacles g))
  /\ (Game.checkCollision g = Some false <-> ~ hits head body (Game.obstacles g)).
Proof.
  intros Hs. destruct (checkCollision_front g head body Hs) as [b [Hb Hiff]].
  rewrite Hb. split; split.
  - intros H. apply Hiff. congruence.
  - intros H. f_equal. apply Hiff. exact H.
  - intros H Hhit. apply Hiff in Hhit. congruence.
  - intros H. f_equal. destruct b; [| reflexivity].
    exfalso. apply H, Hiff. reflexivity.
Qed.

Lemma checkCollision_spec_witness :
  Game.snake sample_game = mkPosition 15 10 :: [mkPosition 15 11; mkPosition 15 12]
  /\ Game.checkCollision sample_game = Some false.
Proof.
  split; [reflexivity |].
  apply (checkCollision_spec sample_game (mkPosition 15 10)
           [mkPosition 15 11; mkPosition 15 12] eq_refl).
  unfold hits. simpl. intuition (try lia; try discriminate).
Defined.

(** ** Fields that the bookkeeping methods leave alone *)

Section Bookkeeping.
Context {sorter : StdSort}.

Lemma same_board_refl g : same_board g g.
Proof. unfold same_board. repeat split. Qed.

Lemma same_board_trans g1 g2 g3 :
  same_board g1 g2 -> same_board g2 g3 -> same_board g1 g3.
Proof. unfold same_board. intuition congruence. Qed.

Lemma saveToLeaderboard_board g : same_board g (Game.saveToLeaderboard g).
Proof.
  unfold Game.saveToLeaderboard.
  destruct (0 <? Game.score g); [| apply same_board_refl].
  destruct (Game.update_entry _ _ _) as [updated playerExists].
  repeat split.
Qed.

Lemma saveToLeaderboard_state g :
  Game.currentState (Game.saveToLeaderboard g) = Game.currentState g.
Proof.
  unfold Game.saveToLeaderboard.
  destruct (0 <? Game.score g); [| reflexivity].
  destruct (Game.update_entry _ _ _) as [updated playerExists]. reflexivity.
Qed.

Lemma savePersonalBest_board g : same_board g (Game.savePersonalBest g).
Proof.
  unfold Game.savePersonalBest.
  destruct (Game.score g <=? Game.personalBestScore g); [apply same_board_refl |].
  cbv zeta.
  match goal with |- context [if ?c then _ else _] => destruct c end;
    repeat split.
Qed.

Lemma loadLeaderboard_board g : same_board g (Game.loadLeaderboard g).
Proof.
  unfold Game.loadLeaderboard.
  destruct (open_read _ _); repeat split.
Qed.

Lemma changeState_board s g : same_board g (Game.changeState s g).
Proof.
  unfold Game.changeState.
  destruct s; try (repeat split; fail).
  eapply same_board_trans; [| apply loadLeaderboard_board]. repeat split.
Qed.

Lemma loadLeaderboard_state g :
  Game.currentState (Game.loadLeaderboard g) = Game.currentState g.
Proof. unfold Game.loadLeaderboard. destruct (open_read _ _); reflexivity. Qed.

Lemma changeState_state s g : Game.currentState (Game.changeState s g) = s.
Proof.
  unfold Game.changeState. destruct s; try reflexivity.
  rewrite loadLeaderboard_state. reflexivity.
Qed.

End Bookkeeping.

(** ** C9: generateFood *)

Lemma isEmpty_free (g : Game.t) (p : Position) :
  Game.isEmpty g p = true <-> ~ In p (Game.snake g) /\ ~ In p (Game.obstacles g).
Proof.
  unfold Game.isEmpty.
  rewrite andb_true_iff, !negb_true_iff, !existsb_Position_false. tauto.
Qed.

Lemma in_emptyPositions (g : Game.t) (p : Position) :
  In p (Game.emptyPositions g) <-> free_cell g p.
Proof.
  unfold Game.emptyPositions, free_cell.
  rewrite filter_In, in_grid_cells, isEmpty_free. tauto.
Qed.

Lemma emptyPositions_nil (g : Game.t) :
  Game.emptyPositions g = [] <-> (forall p, ~ free_cell g p).
Proof.
  split.
  - intros H p Hp. apply in_emptyPositions in Hp. rewrite H in Hp. exact Hp.
  - intros H. destruct (Game.emptyPositions g) as [| p l] eqn:E; [reflexivity |].
    exfalso. apply (H p). apply in_emptyPositions. rewrite E. left. reflexivity.
Qed.

(** The index [rand() % emptyPositions.size()] lies inside the vector. *)
Lemma rand_index_in_range (r : N) (n : nat) :
  n <> 0%nat -> (N.to_nat (r mod N.of_nat n) < n)%nat.
Proof.
  intros Hn.
  assert (H : (r mod N.of_nat n < N.of_nat n)%N) by (apply N.mod_lt; lia).
  lia.
Qed.

(** What [generateFood] does, case by case. *)
Lemma generateFood_cases (g : Game.t) :
  (Game.emptyPositions g = [] /\ Game.generateFood g = Some g)
  \/ (exists pos,
        In pos (Game.emptyPositions g)
        /\ Game.generateFood g = Some (Game.set_food pos (snd (Game.rand g)))).
Proof.
  unfold Game.generateFood.
  destruct (Game.emptyPositions g) as [| c cs] eqn:E; [left; split; reflexivity |].
  right. cbv zeta.
  destruct (Game.rand g) as [r g1] eqn:Er.
  set (i := N.to_nat (r mod N.of_nat (List.length (c :: cs)))).
  assert (Hi : (i < List.length (c :: cs))%nat).
  { apply rand_index_in_range. simpl. discriminate. }
  destruct (nth_error (c :: cs) i) as [pos |] eqn:En.
  - exists pos. split; [eapply nth_error_In; exact En | reflexivity].
  - apply nth_error_None in En. lia.
Qed.

Lemma generateFood_total (g : Game.t) : exists g', Game.generateFood g = Some g'.
Proof.
  destruct (generateFood_cases g) as [[_ H] | [pos [_ H]]]; eauto.
Qed.

(** Everything but the food and the count of [rand()] calls is kept. *)
Lemma generateFood_keeps (g g' : Game.t) :
  Game.generateFood g = Some g' ->
  Game.snake g' = Game.snake g /\ Game.obstacles g' = Game.obstacles g
  /\ Game.score g' = Game.score g /\ Game.currentState g' = Game.currentState g
  /\ Game.currentDirection g' = Game.currentDirection g
  /\ Game.nextDirection g' = Game.nextDirection g.
Proof.
  intros H.
  destruct (generateFood_cases g) as [[_ H'] | [pos [_ H']]];
    rewrite H' in H; injection H as <-; repeat split.
Qed.

(** C9. [generateFood] always returns, never indexing outside the list of
    candidates.  On a board without a free cell the whole state, the food
    included, stays as it was and [rand()] is not called; when a free cell
    exists, the new food is a cell of the board that is neither a segment of
    the snake nor an obstacle. *)
Theorem generateFood_safe (g : Game.t) :
  exists g', Game.generateFood g = Some g'
    /\ ((forall p, ~ free_cell g p) -> g' = g)
    /\ ((exists p, free_cell g p) ->
          free_cell g (Game.food g')
          /\ ~ In (Game.food g') (Game.snake g')
          /\ ~ In (Game.food g') (Game.obstacles g')).
Proof.
  destruct (generateFood_cases g) as [[E H] | [pos [Hin H]]].
  - exists g. split; [exact H |]. split; [reflexivity |].
    intros [p Hp]. destruct (proj1 (emptyPositions_nil g) E p Hp).
  - eexists. split; [exact H |]. split.
    + intros Hfull. apply in_emptyPositions in Hin. destruct (Hfull pos Hin).
    + intros _. apply in_emptyPositions in Hin. simpl.
      split; [exact Hin |]. destruct Hin as [_ [Hs Ho]]. split; assumption.
Qed.

(** On a board covered with obstacles [generateFood] changes nothing; in the
    sample game the value 10 of [rand()] selects the eleventh free cell. *)
Example generateFood_examples :
  Game.generateFood full_board = Some full_board
  /\ exists g', Game.generateFood sample_game = Some g'
       /\ Game.food g' = mkPosition 0 10 /\ Game.rand_calls g' = 2%nat.
Proof.
  split; [vm_compute; reflexivity |].
  eexists. split; [vm_compute; reflexivity |]. split; reflexivity.
Qed.

(** ** The logical tick *)

Lemma removelast_length {A : Type} (a : A) (l : list A) :
  List.length (removelast (a :: l)) = List.length l.
Proof.
  revert a. induction l as [| b l IH]; intros a; [reflexivity |].
  change (removelast (a :: b :: l)) with (a :: removelast (b :: l)).
  change (S (List.length (removelast (b :: l))) = S (List.length l)).
  f_equal. apply IH.
Qed.

Section Tick.
Context {sorter : StdSort}.

Lemma tick_unfold (g : Game.t) (front : Position) (body : list Position) :
  Game.snake g = front :: body ->
  exists collided,
    Game.checkCollision (moved g front) = Some collided
    /\ (collided = true <->
        hits (Game.advance (Game.nextDirection g) front) (front :: body)
             (Game.obstacles g))
    /\ Game.tick g =
       if collided then
         Some (Game.changeState GAME_OVER
                 (Game.savePersonalBest (Game.saveToLeaderboard (moved g front))))
       else if Position_eqb (Game.advance (Game.nextDirection g) front) (Game.food g)
       then Game.generateFood
              (Game.set_score (wrap_int (Game.score g + 10)) (moved g front))
       else Some (Game.set_snake
                    (removelast (Game.snake (moved g front))) (moved g front)).
Proof.
  intros Hs.
  destruct (checkCollision_front (moved g front)
              (Game.advance (Game.nextDirection g) front) (front :: body))
    as [b [Hb Hiff]].
  { unfold moved. simpl. rewrite Hs. reflexivity. }
  exists b. split; [exact Hb |]. split; [exact Hiff |].
  assert (Hm : Game.set_snake
                 (Game.advance (Game.nextDirection g) front :: front :: body)
                 (Game.set_currentDirection (Game.nextDirection g)
                    (Game.set_moveTimer F32.zero g)) = moved g front).
  { unfold moved. rewrite Hs. reflexivity. }
  unfold Game.tick, Game.moveSnake. simpl Game.snake. rewrite Hs.
  simpl Game.currentDirection. rewrite Hm, Hb.
  destruct b; [reflexivity |].
  replace (Game.snake (moved g front))
    with (Game.advance (Game.nextDirection g) front :: front :: body)
    by (unfold moved; simpl; rewrite Hs; reflexivity).
  reflexivity.
Qed.

Lemma update_due (deltaTime : F32.t) (g : Game.t) :
  tick_due deltaTime g ->
  Game.update deltaTime g =
  Game.tick (Game.set_moveTimer (F32.add (Game.moveTimer g) deltaTime) g).
Proof.
  unfold tick_due, Game.update. intros H.
  change (Game.calculateSpeed (Game.set_moveTimer _ g)) with (Game.calculateSpeed g).
  simpl Game.moveTimer. rewrite H. reflexivity.
Qed.

Lemma update_not_due (deltaTime : F32.t) (g : Game.t) :
  F32.leb (Game.calculateSpeed g) (F32.add (Game.moveTimer g) deltaTime) = false ->
  Game.update deltaTime g =
  Some (Game.set_moveTimer (F32.add (Game.moveTimer g) deltaTime) g).
Proof.
  unfold Game.update. intros H.
  change (Game.calculateSpeed (Game.set_moveTimer _ g)) with (Game.calculateSpeed g).
  simpl Game.moveTimer. rewrite H. reflexivity.
Qed.

(** A collision ends the game with the new head left on the snake. *)
Lemma tick_collision (g : Game.t) (front : Position) (body : list Position) :
  Game.snake g = front :: body ->
  hits (Game.advance (Game.nextDirection g) front) (front :: body) (Game.obstacles g) ->
  exists g', Game.tick g = Some g'
    /\ Game.snake g' = Game.advance (Game.nextDirection g) front :: front :: body
    /\ Game.score g' = Game.score g
    /\ Game.food g' = Game.food g
    /\ Game.currentDirection g' = Game.nextDirection g
    /\ Game.currentState g' = GAME_OVER.
Proof.
  intros Hs Hhit.
  destruct (tick_unfold g front body Hs) as [b [_ [Hiff Ht]]].
  apply Hiff in Hhit. subst b.
  eexists. split; [exact Ht |].
  set (g2 := moved g front).
  assert (Hb : same_board g2
                 (Game.changeState GAME_OVER
                    (Game.savePersonalBest (Game.saveToLeaderboard g2)))).
  { eapply same_board_trans; [apply saveToLeaderboard_board |].
    eapply same_board_trans; [apply savePersonalBest_board |].
    apply changeState_board. }
  destruct Hb as [H1 [H2 [H3 [H4 [H5 _]]]]].
  rewrite H1, H2, H4, H5, changeState_state.
  unfold g2, moved. simpl. rewrite Hs. repeat split.
Qed.

(** No collision and the new head on the food: the snake keeps its tail, the
    score goes up by ten (in [int] arithmetic) and [generateFood] runs. *)
Lemma tick_eats (g : Game.t) (front : Position) (body : list Position) :
  Game.snake g = front :: body ->
  ~ hits (Game.advance (Game.nextDirection g) front) (front :: body) (Game.obstacles g) ->
  Game.advance (Game.nextDirection g) front = Game.food g ->
  exists g', Game.tick g = Some g'
    /\ Game.generateFood
         (Game.set_score (wrap_int (Game.score g + 10)) (moved g front)) = Some g'
    /\ Game.snake g' = Game.advance (Game.nextDirection g) front :: front :: body
    /\ Game.score g' = wrap_int (Game.score g + 10)
    /\ Game.currentState g' = Game.currentState g.
Proof.
  intros Hs Hfree Hfood.
  destruct (tick_unfold g front body Hs) as [b [_ [Hiff Ht]]].
  destruct b; [exfalso; apply Hfree, Hiff; reflexivity |].
  rewrite Hfood, Position_eqb_refl in Ht.
  destruct (generateFood_total
              (Game.set_score (wrap_int (Game.score g + 10)) (moved g front)))
    as [g' Hg].
  exists g'. rewrite Ht. split; [exact Hg |]. split; [exact Hg |].
  apply generateFood_keeps in Hg. destruct Hg as [H1 [_ [H3 [H4 _]]]].
  rewrite H1, H3, H4. unfold moved. simpl. rewrite Hs, Hfood. repeat split.
Qed.

(** No collision and the new head off the food: the tail is dropped. *)
Lemma tick_moves (g : Game.t) (front : Position) (body : list Position) :
  Game.snake g = front :: body ->
  ~ hits (Game.advance (Game.nextDirection g) front) (front :: body) (Game.obstacles g) ->
  Game.advance (Game.nextDirection g) front <> Game.food g ->
  exists g', Game.tick g = Some g'
    /\ Game.snake g' =
       Game.advance (Game.nextDirection g) front :: removelast (front :: body)
    /\ Game.score g' = Game.score g
    /\ Game.food g' = Game.food g
    /\ Game.currentState g' = Game.currentState g.
Proof.
  intros Hs Hfree Hfood.
  destruct (tick_unfold g front body Hs) as [b [_ [Hiff Ht]]].
  destruct b; [exfalso; apply Hfree, Hiff; reflexivity |].
  apply Position_eqb_neq in Hfood. rewrite Hfood in Ht.
  eexists. split; [exact Ht |].
  unfold moved. simpl. rewrite Hs. repeat split.
Qed.

End Tick.

(** ** The invariant of a running session *)

Lemma removelast_In {A : Type} (a : A) (l : list A) :
  In a (removelast l) -> In a l.
Proof.
  induction l as [| b l IH]; [intros [] |].
  destruct l as [| c l]; [intros [] |].
  change (removelast (b :: c :: l)) with (b :: removelast (c :: l)).
  intros [-> | H]; [left; reflexivity | right; apply IH; exact H].
Qed.

Lemma removelast_NoDup {A : Type} (l : list A) : NoDup l -> NoDup (removelast l).
Proof.
  induction l as [| b l IH]; intros H; [constructor |].
  destruct l as [| c l]; [constructor |].
  change (removelast (b :: c :: l)) with (b :: removelast (c :: l)).
  inversion H as [| ? ? Hb Hl]; subst. constructor.
  - intros Hin. apply Hb. apply removelast_In. exact Hin.
  - apply IH. exact Hl.
Qed.

Lemma removelast_Forall {A : Type} (P : A -> Prop) (l : list A) :
  Forall P l -> Forall P (removelast l).
Proof.
  rewrite !Forall_forall. intros H a Ha. apply H, removelast_In, Ha.
Qed.

Lemma session_ok_same (g g' : Game.t) :
  Game.snake g' = Game.snake g -> Game.score g' = Game.score g ->
  session_ok g -> session_ok g'.
Proof. unfold session_ok. intros -> ->. tauto. Qed.

(** A snake of distinct board cells has at most 600 segments, so the score of
    a running session is far from the limits of [int]. *)
Lemma session_ok_bounds (g : Game.t) :
  session_ok g ->
  (List.length (Game.snake g) <= 600)%nat /\ 0 <= Game.score g <= 5970.
Proof.
  intros [Hnd [Hon [Hlen Hsc]]].
  assert (H : (List.length (Game.snake g) <= 600)%nat).
  { rewrite <- grid_cells_length. apply NoDup_incl_length; [exact Hnd |].
    intros p Hp. apply in_grid_cells.
    rewrite Forall_forall in Hon. apply Hon, Hp. }
  split; [exact H | lia].
Qed.

Lemma not_hits_on_board (p : Position) (body obstacles : list Position) :
  ~ hits p body obstacles -> on_board p /\ ~ In p body.
Proof. unfold hits, on_board. intros H. split; [lia | tauto]. Qed.

Lemma hits_dec (p : Position) (body obstacles : list Position) :
  hits p body obstacles \/ ~ hits p body obstacles.
Proof.
  unfold hits.
  destruct (existsb (fun q => Position_eqb q p) body) eqn:Eb.
  { apply existsb_Position in Eb. tauto. }
  destruct (existsb (fun q => Position_eqb q p) obstacles) eqn:Eo.
  { apply existsb_Position in Eo. tauto. }
  apply existsb_Position_false in Eb, Eo.
  destruct (Z_lt_dec (x p) 0); [tauto |].
  destruct (Z_ge_dec (x p) 30); [tauto |].
  destruct (Z_lt_dec (y p) 0); [tauto |].
  destruct (Z_ge_dec (y p) 20); [tauto |].
  right. tauto.
Qed.

Lemma Position_eq_dec (p q : Position) : p = q \/ p <> q.
Proof.
  destruct (Position_eqb p q) eqn:E.
  - left. apply Position_eqb_eq. exact E.
  - right. apply Position_eqb_neq. exact E.
Qed.

Section Session.
Context {sorter : StdSort}.

Lemma initializeSnake_snake (g : Game.t) :
  Game.snake (Game.initializeSnake g)
  = [mkPosition 15 10; mkPosition 15 11; mkPosition 15 12].
Proof. reflexivity. Qed.

Lemma reset_session (g : Game.t) :
  exists g', Game.reset g = Some g'
    /\ Game.snake g' = [mkPosition 15 10; mkPosition 15 11; mkPosition 15 12]
    /\ Game.score g' = 0
    /\ Game.currentState g' = Game.currentState g
    /\ session_ok g'.
Proof.
  unfold Game.reset.
  destruct (generateFood_total (Game.initializeSnake g)) as [g1 Hg].
  rewrite Hg. eexists. split; [reflexivity |].
  apply generateFood_keeps in Hg. destruct Hg as [H1 [_ [_ [H4 _]]]].
  rewrite initializeSnake_snake in H1.
  unfold session_ok. simpl. rewrite H1, H4.
  split; [reflexivity |]. split; [reflexivity |]. split; [reflexivity |].
  split.
  - repeat constructor; simpl; intuition discriminate.
  - split; [| split; [simpl; lia | reflexivity]].
    repeat (apply Forall_cons; [unfold on_board; simpl; lia |]).
    apply Forall_nil.
Qed.

(** A tick keeps a running session in order, or ends it. *)
Lemma tick_session (g : Game.t) :
  session_ok g ->
  exists g', Game.tick g = Some g'
    /\ (Game.currentState g' = GAME_OVER
        \/ (Game.currentState g' = Game.currentState g /\ session_ok g')).
Proof.
  intros Hok. pose proof (session_ok_bounds g Hok) as [Hlen Hscore].
  destruct Hok as [Hnd [Hon [H3 Hsc]]].
  destruct (Game.snake g) as [| front body] eqn:Hs; [simpl in H3; lia |].
  set (newHead := Game.advance (Game.nextDirection g) front).
  destruct (hits_dec newHead (front :: body) (Game.obstacles g)) as [Hhit | Hfree].
  - destruct (tick_collision g front body Hs Hhit) as [g' [Ht [_ [_ [_ [_ Hst]]]]]].
    exists g'. split; [exact Ht | left; exact Hst].
  - destruct (not_hits_on_board _ _ _ Hfree) as [Hboard Hnew].
    destruct (Position_eq_dec newHead (Game.food g)) as [Hfood | Hfood].
    + destruct (tick_eats g front body Hs Hfree Hfood)
        as [g' [Ht [_ [Hsn [Hscore' Hst]]]]].
      exists g'. split; [exact Ht |]. right. split; [exact Hst |].
      unfold session_ok. rewrite Hsn, Hscore'. fold newHead.
      rewrite wrap_int_small by (unfold INT_MIN, INT_MAX; lia).
      split; [constructor; assumption |].
      split; [constructor; assumption |].
      simpl List.length in *. split; lia.
    + destruct (tick_moves g front body Hs Hfree Hfood)
        as [g' [Ht [Hsn [Hscore' [_ Hst]]]]].
      exists g'. split; [exact Ht |]. right. split; [exact Hst |].
      unfold session_ok. rewrite Hsn, Hscore'. fold newHead.
      split.
      { constructor; [| apply removelast_NoDup; exact Hnd].
        intros Hin. apply Hnew. apply removelast_In. exact Hin. }
      split; [constructor; [exact Hboard | apply removelast_Forall; exact Hon] |].
      cbn [List.length]. rewrite removelast_length. cbn [List.length] in *.
      split; lia.
Qed.

Lemma update_session (deltaTime : F32.t) (g : Game.t) :
  session_ok g ->
  exists g', Game.update deltaTime g = Some g'
    /\ (Game.currentState g' = GAME_OVER
        \/ (Game.currentState g' = Game.currentState g /\ session_ok g')).
Proof.
  intros Hok.
  destruct (F32.leb (Game.calculateSpeed g)
              (F32.add (Game.moveTimer g) deltaTime)) eqn:E.
  - rewrite (update_due deltaTime g E).
    apply (tick_session (Game.set_moveTimer _ g)).
    exact Hok.
  - rewrite (update_not_due deltaTime g E). eexists. split; [reflexivity |].
    right. split; [reflexivity | exact Hok].
Qed.

End Session.

(** ** The invariant along the main loop *)

Lemma game_inv_same (g g' : Game.t) :
  Game.snake g' = Game.snake g -> Game.score g' = Game.score g ->
  (in_session g' -> in_session g) ->
  game_inv g -> game_inv g'.
Proof.
  unfold game_inv. intros Hs Hc Hin Hg Hin'.
  apply (session_ok_same g g' Hs Hc). apply Hg, Hin, Hin'.
Qed.

Lemma game_inv_outside (g : Game.t) : ~ in_session g -> game_inv g.
Proof. unfold game_inv. tauto. Qed.

Lemma game_inv_ok (g : Game.t) : session_ok g -> game_inv g.
Proof. unfold game_inv. tauto. Qed.

Section MainLoop.
Context {sorter : StdSort}.

Lemma changeState_snake s g : Game.snake (Game.changeState s g) = Game.snake g.
Proof. apply (changeState_board s g). Qed.

Lemma changeState_score s g : Game.score (Game.changeState s g) = Game.score g.
Proof. apply (changeState_board s g). Qed.

Lemma changeState_ok s g : session_ok g -> session_ok (Game.changeState s g).
Proof.
  apply session_ok_same; [apply changeState_snake | apply changeState_score].
Qed.

(** Leaving the session for another state. *)
Lemma changeState_leaves s g :
  s <> PLAYING -> s <> PAUSED -> game_inv (Game.changeState s g).
Proof.
  intros H1 H2. apply game_inv_outside. unfold in_session.
  rewrite changeState_state. tauto.
Qed.

Lemma changeState_inv s g :
  (s = PLAYING \/ s = PAUSED -> session_ok g) -> game_inv (Game.changeState s g).
Proof.
  intros H Hin. unfold in_session in Hin. rewrite changeState_state in Hin.
  apply changeState_ok, H, Hin.
Qed.

Lemma handleGameInput_inv (inp : Input) (g : Game.t) :
  Game.currentState g = PLAYING -> game_inv g ->
  game_inv (Game.handleGameInput inp g).
Proof.
  intros Hst Hg.
  assert (Hok : session_ok g) by (apply Hg; left; exact Hst).
  unfold Game.handleGameInput.
  destruct (IsKeyPressed inp KEY_P || IsKeyPressed inp KEY_SPACE).
  { apply changeState_inv. intros _. exact Hok. }
  destruct (IsKeyPressed inp KEY_Q || IsKeyPressed inp KEY_ESCAPE).
  { apply changeState_leaves; discriminate. }
  apply game_inv_ok.
  repeat match goal with
         | |- context [if ?c then _ else _] => destruct c
         end; exact Hok.
Qed.

Lemma handleMenuInput_inv (inp : Input) (g : Game.t) :
  Game.currentState g = MENU ->
  exists g', Game.handleMenuInput inp g = Some g' /\ game_inv g'.
Proof.
  intros Hst. unfold Game.handleMenuInput.
  set (g1 := if IsKeyPressed inp KEY_DOWN || IsKeyPressed inp KEY_S
             then _ else g).
  set (g2 := if IsKeyPressed inp KEY_UP || IsKeyPressed inp KEY_W
             then _ else g1).
  assert (H2 : Game.currentState g2 = MENU).
  { unfold g2, g1.
    destruct (IsKeyPressed inp KEY_DOWN || IsKeyPressed inp KEY_S);
      destruct (IsKeyPressed inp KEY_UP || IsKeyPressed inp KEY_W);
      exact Hst. }
  assert (Hout : game_inv g2).
  { apply game_inv_outside. unfold in_session. rewrite H2.
    intros [H | H]; discriminate. }
  destruct (IsKeyPressed inp KEY_ENTER || IsKeyPressed inp KEY_SPACE);
    [| exists g2; split; [reflexivity | exact Hout]].
  destruct (Game.selectedMenuItem g2) as [| [[p | p |] | [p | p |] |] | p];
    try (exists g2; split; [reflexivity | exact Hout]).
  - destruct (reset_session g2) as [g3 [Hr [_ [_ [_ Hok]]]]]. rewrite Hr.
    eexists. split; [reflexivity |]. apply changeState_inv. intros _. exact Hok.
  - eexists. split; [reflexivity |].
    apply game_inv_outside. unfold in_session. simpl. rewrite H2.
    intros [H | H]; discriminate.
  - eexists. split; [reflexivity |]. apply changeState_leaves; discriminate.
  - eexists. split; [reflexivity |]. apply changeState_leaves; discriminate.
Qed.

Lemma handleInput_inv (inp : Input) (g : Game.t) :
  game_inv g ->
  exists g', Game.handleInput inp g = Some g' /\ game_inv g'.
Proof.
  intros Hg. unfold Game.handleInput.
  destruct (Game.currentState g) eqn:Hst.
  - apply handleMenuInput_inv. exact Hst.
  - eexists. split; [reflexivity |]. apply handleGameInput_inv; assumption.
  - (* PAUSED *)
    assert (Hok : session_ok g) by (apply Hg; right; exact Hst).
    eexists. split; [reflexivity |].
    destruct (IsKeyPressed inp KEY_Q || IsKeyPressed inp KEY_ESCAPE).
    { apply changeState_leaves; discriminate. }
    destruct (IsKeyPressed inp KEY_P || IsKeyPressed inp KEY_SPACE).
    { apply changeState_inv. intros _. exact Hok. }
    exact Hg.
  - (* GAME_OVER *)
    assert (Hr : exists g1,
               (if IsKeyPressed inp KEY_R
                then match Game.reset g with
                     | Some g' => Some (Game.changeState PLAYING g')
                     | None => None
                     end
                else Some g) = Some g1 /\ game_inv g1).
    { destruct (IsKeyPressed inp KEY_R).
      - destruct (reset_session g) as [g' [Hr [_ [_ [_ Hok]]]]]. rewrite Hr.
        eexists. split; [reflexivity |]. apply changeState_inv. intros _. exact Hok.
      - exists g. split; [reflexivity | exact Hg]. }
    destruct Hr as [g1 [Hr Hg1]]. rewrite Hr.
    eexists. split; [reflexivity |].
    destruct (IsKeyPressed inp KEY_L).
    { apply changeState_leaves; discriminate. }
    destruct (IsKeyPressed inp KEY_Q || IsKeyPressed inp KEY_ESCAPE).
    { apply changeState_leaves; discriminate. }
    exact Hg1.
  - (* LEADERBOARD *)
    eexists. split; [reflexivity |]. unfold Game.handleLeaderboardInput.
    destruct (_ || _); [apply changeState_leaves; discriminate | exact Hg].
  - (* SETTINGS *)
    eexists. split; [reflexivity |]. unfold Game.handleSettingsInput.
    destruct (IsKeyPressed inp KEY_ESCAPE || IsKeyPressed inp KEY_Q).
    { apply changeState_leaves; discriminate. }
    apply game_inv_outside. unfold in_session.
    destruct (IsKeyPressed inp KEY_ENTER || IsKeyPressed inp KEY_SPACE);
      simpl; rewrite Hst; intros [H | H]; discriminate.
Qed.

(** In the state PLAYING [update] returns and keeps the invariant. *)
Lemma update_inv (deltaTime : F32.t) (g : Game.t) :
  Game.currentState g = PLAYING -> game_inv g ->
  exists g', Game.update deltaTime g = Some g' /\ game_inv g'.
Proof.
  intros Hst Hg.
  assert (Hok : session_ok g) by (apply Hg; left; exact Hst).
  destruct (update_session deltaTime g Hok) as [g' [Hu [Hover | [_ Hok']]]];
    exists g'; (split; [exact Hu |]).
  - apply game_inv_outside. unfold in_session. rewrite Hover.
    intros [H | H]; discriminate.
  - apply game_inv_ok. exact Hok'.
Qed.

(** Every pass of the main loop returns and keeps the invariant: the loop
    never reaches an empty snake or an index outside a vector. *)
Lemma frame_inv (inp : Input) (g : Game.t) :
  game_inv g -> exists g', Game.frame inp g = Some g' /\ game_inv g'.
Proof.
  intros Hg. unfold Game.frame.
  destruct (handleInput_inv inp g Hg) as [g1 [H1 Hg1]]. rewrite H1.
  assert (H2 : exists g2,
             (if GameState_eqb (Game.currentState g1) PLAYING
              then Game.update (GetFrameTime inp) g1 else Some g1) = Some g2
             /\ game_inv g2).
  { destruct (Game.currentState g1) eqn:Hst; simpl;
      try (exists g1; split; [reflexivity | exact Hg1]).
    apply update_inv; assumption. }
  destruct H2 as [g2 [H2 Hg2]]. rewrite H2.
  eexists. split; [reflexivity |].
  apply (game_inv_same g2); try reflexivity; [| exact Hg2]. tauto.
Qed.

Lemma run_inv (inputs : list Input) (g : Game.t) :
  game_inv g -> exists g', Game.run inputs g = Some g' /\ game_inv g'.
Proof.
  revert g. induction inputs as [| inp inputs IH]; intros g Hg.
  - exists g. split; [reflexivity | exact Hg].
  - simpl. destruct (negb (WindowShouldClose inp) && Game.gameRunning g).
    + destruct (frame_inv inp g Hg) as [g' [Hf Hg']]. rewrite Hf.
      apply IH. exact Hg'.
    + exists g. split; [reflexivity | exact Hg].
Qed.

(** The constructor returns a game in the state MENU. *)
Lemma construct_menu (env : Game.t) :
  exists g, Game.construct env = Some g /\ Game.currentState g = MENU.
Proof.
  unfold Game.construct.
  match goal with |- context [Game.reset ?a] =>
    destruct (reset_session a) as [g [Hr [_ [_ [Hst _]]]]]
  end.
  exists g. split; [exact Hr |]. rewrite Hst.
  unfold Game.loadObstacles. destruct (open_read _ _); simpl;
    rewrite loadLeaderboard_state; unfold Game.loadHighestScores;
    simpl; destruct (open_read _ _); simpl;
    unfold Game.loadSettings; simpl; destruct (open_read _ _); reflexivity.
Qed.

Lemma construct_inv (env g : Game.t) : Game.construct env = Some g -> game_inv g.
Proof.
  intros H. destruct (construct_menu env) as [g' [H' Hst]].
  rewrite H in H'. injection H' as <-.
  apply game_inv_outside. unfold in_session. rewrite Hst.
  intros [E | E]; discriminate.
Qed.

End MainLoop.


(** ** C10 and C2: what a tick does to the snake and the score *)

(** C10. When the timer is due and the new head runs into a wall, the body or
    an obstacle, [update] returns with the colliding head left at the front of
    the snake (one segment more than before, the tail still there, the head
    possibly off the board), with the score and the food as they were even if
    the head is on the food cell, and with the state GAME_OVER. *)
Theorem update_collision (sorter : StdSort) (deltaTime : F32.t) (g : Game.t)
    (front : Position) (body : list Position) :
  Game.snake g = front :: body ->
  tick_due deltaTime g ->
  hits (Game.advance (Game.nextDirection g) front) (front :: body) (Game.obstacles g) ->
  exists g', Game.update deltaTime g = Some g'
    /\ Game.snake g' = Game.advance (Game.nextDirection g) front :: front :: body
    /\ List.length (Game.snake g') = S (List.length (Game.snake g))
    /\ Game.score g' = Game.score g
    /\ Game.food g' = Game.food g
    /\ Game.currentState g' = GAME_OVER.
Proof.
  intros Hs Hdue Hhit.
  rewrite (update_due deltaTime g Hdue).
  destruct (tick_collision
              (Game.set_moveTimer (F32.add (Game.moveTimer g) deltaTime) g)
              front body Hs Hhit) as [g' [Ht [Hsn [Hsc [Hfd [_ Hst]]]]]].
  exists g'. split; [exact Ht |]. simpl in Hsn, Hsc, Hfd.
  rewrite Hsn, Hs. repeat split; assumption.
Qed.

Lemma update_collision_witness :
  Game.advance (Game.nextDirection blocked_game) (mkPosition 15 10)
    = Game.food blocked_game
  /\ exists g', Game.update (sorter := insertion_sorter) long_frame blocked_game = Some g'
       /\ Game.snake g' = [mkPosition 15 9; mkPosition 15 10; mkPosition 15 11;
                           mkPosition 15 12]
       /\ List.length (Game.snake g') = 4%nat
       /\ Game.score g' = 40
       /\ Game.food g' = mkPosition 15 9
       /\ Game.currentState g' = GAME_OVER.
Proof.
  split; [reflexivity |].
  apply (update_collision insertion_sorter long_frame blocked_game
           (mkPosition 15 10) [mkPosition 15 11; mkPosition 15 12]).
  - reflexivity.
  - reflexivity.
  - unfold hits. do 5 right. left. reflexivity.
Defined.

(** At the upper wall the colliding head that stays on the snake lies off
    the board. *)
Example update_collision_off_board :
  exists g', Game.update (sorter := insertion_sorter) long_frame wall_game = Some g'
    /\ Game.snake g' = [mkPosition 15 (-1); mkPosition 15 0; mkPosition 15 1;
                        mkPosition 15 2]
    /\ Game.currentState g' = GAME_OVER.
Proof.
  rewrite (update_due long_frame wall_game eq_refl).
  destruct (tick_collision (sorter := insertion_sorter)
              (Game.set_moveTimer (F32.add (Game.moveTimer wall_game) long_frame)
                 wall_game)
              (mkPosition 15 0) [mkPosition 15 1; mkPosition 15 2])
    as [g' [Ht [Hs [_ [_ [_ Hst]]]]]].
  - reflexivity.
  - unfold hits. right; right; left. reflexivity.
  - exists g'. repeat split; assumption.
Qed.

Section Growth.
Context {sorter : StdSort}.




End Growth.




Lemma first_menu_reachable : reachable (sorter := insertion_sorter) first_menu.
Proof.
  exists first_run, first_menu, []. split; vm_compute; reflexivity.
Qed.



(** ** C3: direction buffering *)

Ltac key_off inp k H :=
  let E := fresh "E" in
  assert (E : IsKeyPressed inp k = false)
    by (destruct (IsKeyPressed inp k) eqn:E; [| reflexivity];
        apply H in E; simpl in E; intuition discriminate);
  rewrite E.

Section Buffering.
Context {sorter : StdSort}.

(** A frame that commands [d] writes [d] into the buffer unless [d] is the
    reverse of the current direction, and changes nothing else. *)
Lemma handleGameInput_turn (inp : Input) (d : Direction) (g : Game.t) :
  pressing d inp ->
  Game.handleGameInput inp g =
  if Direction_eqb (Game.currentDirection g) (opposite d) then g
  else Game.set_nextDirection d g.
Proof.
  intros [[k [Hk Hon]] Hoff]. unfold Game.handleGameInput.
  destruct d; simpl in Hk;
    key_off inp KEY_P Hoff; key_off inp KEY_SPACE Hoff;
    key_off inp KEY_Q Hoff; key_off inp KEY_ESCAPE Hoff; cbv [orb].
  - key_off inp KEY_S Hoff. key_off inp KEY_DOWN Hoff.
    key_off inp KEY_A Hoff. key_off inp KEY_LEFT Hoff.
    key_off inp KEY_D Hoff. key_off inp KEY_RIGHT Hoff.
    assert (Hd : (if IsKeyPressed inp KEY_W then true else IsKeyPressed inp KEY_UP) = true).
    { destruct Hk as [<- | [<- | []]]; rewrite Hon; [| destruct (IsKeyPressed inp KEY_W)]; reflexivity. }
    rewrite Hd. simpl. destruct (Game.currentDirection g); reflexivity.
  - key_off inp KEY_W Hoff. key_off inp KEY_UP Hoff.
    key_off inp KEY_A Hoff. key_off inp KEY_LEFT Hoff.
    key_off inp KEY_D Hoff. key_off inp KEY_RIGHT Hoff.
    assert (Hd : (if IsKeyPressed inp KEY_S then true else IsKeyPressed inp KEY_DOWN) = true).
    { destruct Hk as [<- | [<- | []]]; rewrite Hon; [| destruct (IsKeyPressed inp KEY_S)]; reflexivity. }
    rewrite Hd. simpl. destruct (Game.currentDirection g); reflexivity.
  - key_off inp KEY_W Hoff. key_off inp KEY_UP Hoff.
    key_off inp KEY_S Hoff. key_off inp KEY_DOWN Hoff.
    key_off inp KEY_D Hoff. key_off inp KEY_RIGHT Hoff.
    assert (Hd : (if IsKeyPressed inp KEY_A then true else IsKeyPressed inp KEY_LEFT) = true).
    { destruct Hk as [<- | [<- | []]]; rewrite Hon; [| destruct (IsKeyPressed inp KEY_A)]; reflexivity. }
    rewrite Hd. simpl. destruct (Game.currentDirection g); reflexivity.
  - key_off inp KEY_W Hoff. key_off inp KEY_UP Hoff.
    key_off inp KEY_S Hoff. key_off inp KEY_DOWN Hoff.
    key_off inp KEY_A Hoff. key_off inp KEY_LEFT Hoff.
    assert (Hd : (if IsKeyPressed inp KEY_D then true else IsKeyPressed inp KEY_RIGHT) = true).
    { destruct Hk as [<- | [<- | []]]; rewrite Hon; [| destruct (IsKeyPressed inp KEY_D)]; reflexivity. }
    rewrite Hd. simpl. destruct (Game.currentDirection g); reflexivity.
Qed.

(** A tick on a snake with a head commits the buffered direction. *)
Lemma tick_commits (g : Game.t) :
  Game.snake g <> [] ->
  exists g', Game.tick g = Some g'
    /\ Game.currentDirection g' = Game.nextDirection g
    /\ Game.nextDirection g' = Game.nextDirection g.
Proof.
  intros Hne. destruct (Game.snake g) as [| front body] eqn:Hs; [congruence |].
  destruct (tick_unfold g front body Hs) as [b [_ [_ Ht]]].
  destruct b.
  - eexists. split; [exact Ht |].
    set (g2 := moved g front).
    assert (Hb : same_board g2
                   (Game.changeState GAME_OVER
                      (Game.savePersonalBest (Game.saveToLeaderboard g2)))).
    { eapply same_board_trans; [apply saveToLeaderboard_board |].
      eapply same_board_trans; [apply savePersonalBest_board |].
      apply changeState_board. }
    destruct Hb as [_ [_ [_ [_ [H5 [H6 _]]]]]]. rewrite H5, H6. split; reflexivity.
  - destruct (Position_eqb _ _).
    + match type of Ht with _ = Game.generateFood ?a =>
        destruct (generateFood_total a) as [g' Hg] end.
      exists g'. split; [congruence |].
      apply generateFood_keeps in Hg. destruct Hg as [_ [_ [_ [_ [H5 H6]]]]].
      rewrite H5, H6. split; reflexivity.
    + eexists. split; [exact Ht |]. split; reflexivity.
Qed.

End Buffering.

(** C3 (amended).  In a frame that commands direction [d] and nothing else,
    the input handling leaves the current direction alone and writes [d] into
    the buffer unless [d] is the reverse of the current direction, in which
    case the buffer keeps what it held.  [update] changes the current
    direction only when it ticks, and then to the buffered direction.  So
    after a tick the current direction is [d] when [d] was not the reverse;
    when it was, it is whatever had been buffered before, which is the old
    current direction if nothing else was buffered since the last tick. *)
Theorem direction_buffering (sorter : StdSort) (g : Game.t) (inp : Input)
    (d : Direction) (deltaTime : F32.t) :
  Game.snake g <> [] -> pressing d inp ->
  Game.currentDirection (Game.handleGameInput inp g) = Game.currentDirection g
  /\ (d <> opposite (Game.currentDirection g) ->
      Game.nextDirection (Game.handleGameInput inp g) = d)
  /\ (d = opposite (Game.currentDirection g) ->
      Game.nextDirection (Game.handleGameInput inp g) = Game.nextDirection g)
  /\ exists g', Game.update deltaTime (Game.handleGameInput inp g) = Some g'
       /\ (~ tick_due deltaTime (Game.handleGameInput inp g) ->
           Game.currentDirection g' = Game.currentDirection g
           /\ Game.nextDirection g' = Game.nextDirection (Game.handleGameInput inp g))
       /\ (tick_due deltaTime (Game.handleGameInput inp g) ->
           Game.nextDirection g' = Game.currentDirection g'
           /\ (d <> opposite (Game.currentDirection g) -> Game.currentDirection g' = d)
           /\ (d = opposite (Game.currentDirection g) ->
               Game.currentDirection g' = Game.nextDirection g
               /\ (Game.nextDirection g = Game.currentDirection g ->
                   Game.currentDirection g' = Game.currentDirection g))).
Proof.
  intros Hne Hpress. rewrite (handleGameInput_turn inp d g Hpress).
  assert (Hopp : Direction_eqb (Game.currentDirection g) (opposite d) = true
                 <-> d = opposite (Game.currentDirection g)).
  { destruct (Game.currentDirection g), d; simpl; split; congruence. }
  set (g1 := if Direction_eqb (Game.currentDirection g) (opposite d)
             then g else Game.set_nextDirection d g).
  assert (Hcur : Game.currentDirection g1 = Game.currentDirection g).
  { unfold g1. destruct (Direction_eqb _ _); reflexivity. }
  assert (Hsn : Game.snake g1 = Game.snake g).
  { unfold g1. destruct (Direction_eqb _ _); reflexivity. }
  assert (Hnext1 : d <> opposite (Game.currentDirection g) -> Game.nextDirection g1 = d).
  { unfold g1. destruct (Direction_eqb _ _); [| reflexivity].
    intros H. destruct H. apply Hopp. reflexivity. }
  assert (Hnext2 : d = opposite (Game.currentDirection g) ->
                   Game.nextDirection g1 = Game.nextDirection g).
  { unfold g1. intros H. apply Hopp in H. rewrite H. reflexivity. }
  split; [exact Hcur |]. split; [exact Hnext1 |]. split; [exact Hnext2 |].
  destruct (F32.leb (Game.calculateSpeed g1)
              (F32.add (Game.moveTimer g1) deltaTime)) eqn:E.
  - rewrite (update_due deltaTime g1 E).
    destruct (tick_commits
                (Game.set_moveTimer (F32.add (Game.moveTimer g1) deltaTime) g1))
      as [g' [Ht [Hc Hn]]].
    { simpl. rewrite Hsn. exact Hne. }
    simpl in Hc, Hn.
    exists g'. split; [exact Ht |]. split.
    + intros Hnot. destruct (Hnot E).
    + intros _. split; [congruence |]. split.
      * intros H. rewrite Hc. apply Hnext1, H.
      * intros H. rewrite Hc, (Hnext2 H). split; [reflexivity | tauto].
  - rewrite (update_not_due deltaTime g1 E). eexists. split; [reflexivity |].
    split.
    + intros _. split; [exact Hcur | reflexivity].
    + unfold tick_due. rewrite E. discriminate.
Qed.

Lemma direction_buffering_witness :
  Game.currentDirection first_game = UP
  /\ exists g', Game.update (sorter := insertion_sorter) long_frame
                  (Game.handleGameInput (sorter := insertion_sorter)
                     (long_input [KEY_A]) first_game) = Some g'
       /\ Game.currentDirection g' = LEFT.
Proof.
  split; [reflexivity |].
  destruct (direction_buffering insertion_sorter first_game (long_input [KEY_A])
              LEFT long_frame) as [_ [_ [_ [g' [Hu [_ Hdue]]]]]].
  - vm_compute. discriminate.
  - split.
    + exists KEY_A. split; [left; reflexivity | reflexivity].
    + intros k Hk. destruct k; try discriminate Hk; simpl; tauto.
  - exists g'. split; [exact Hu |].
    apply Hdue; [reflexivity | vm_compute; discriminate].
Defined.

(** In a reachable game a reversal commanded after a turn that is still
    waiting in the buffer is discarded, and the tick of the same frame then
    commits the waiting turn: the current direction changes from UP to LEFT
    although the frame commanded DOWN, the reverse of UP. *)
Lemma reversal_after_buffered_turn :
  exists g2 g3,
    Game.run (sorter := insertion_sorter)
      [short_input [KEY_ENTER]; short_input [KEY_A]] first_menu = Some g2
    /\ Game.currentState g2 = PLAYING
    /\ Game.currentDirection g2 = UP
    /\ DOWN = opposite (Game.currentDirection g2)
    /\ Game.frame (sorter := insertion_sorter) (long_input [KEY_S]) g2 = Some g3
    /\ Game.nextDirection (Game.handleGameInput (sorter := insertion_sorter)
                             (long_input [KEY_S]) g2) = Game.nextDirection g2
    /\ Game.snake g3 = [mkPosition 14 10; mkPosition 15 10; mkPosition 15 11]
    /\ Game.currentDirection g3 = LEFT
    /\ Direction_eqb (Game.currentDirection g3) (Game.currentDirection g2) = false.
Proof.
  eexists. eexists.
  split; [vm_compute; reflexivity |].
  split; [reflexivity |]. split; [reflexivity |]. split; [reflexivity |].
  split; [vm_compute; reflexivity |].
  repeat split.
Qed.

(** ** Formatted extraction *)

Lemma skipws_length (s : string) : (String.length (skipws s) <= String.length s)%nat.
Proof.
  induction s as [| c s IH]; simpl; [lia |].
  destruct (isspace c); simpl; lia.
Qed.

Lemma read_word_length (s : string) :
  (String.length (snd (read_word s)) <= String.length s)%nat.
Proof.
  induction s as [| c s IH]; simpl; [lia |].
  destruct (isspace c); simpl; [lia |].
  destruct (read_word s) as [w rest]. simpl in *. lia.
Qed.

Lemma read_digits_length (acc : Z) (s : string) :
  (String.length (snd (read_digits acc s)) <= String.length s)%nat.
Proof.
  revert acc. induction s as [| c s IH]; intros acc;
    cbn [read_digits String.length snd]; [lia |].
  destruct (isdigit c); cbn [snd String.length]; [| lia].
  specialize (IH (10 * acc + digit_value c)). lia.
Qed.

Lemma extract_string_shrinks (s : string) (w rest : string) :
  extract_string s = Some (w, rest) ->
  (String.length rest < String.length s)%nat.
Proof.
  unfold extract_string. pose proof (skipws_length s) as Hs.
  destruct (skipws s) as [| c s'] eqn:E; [discriminate |].
  assert (Hc : isspace c = false).
  { clear Hs. induction s as [| c0 s0 IH]; simpl in E; [discriminate |].
    destruct (isspace c0) eqn:E0; [apply IH; exact E | congruence]. }
  simpl. rewrite Hc. pose proof (read_word_length s') as Hw.
  destruct (read_word s') as [w' rest']. intros H. injection H as <- <-.
  simpl in *. lia.
Qed.

Lemma parse_digits_shrinks (negative : bool) (s : string) (v : Z) (rest : string) :
  parse_digits negative s = Some (v, rest) ->
  (String.length rest < String.length s)%nat.
Proof.
  destruct s as [| c s1]; [discriminate |]. unfold parse_digits.
  destruct (isdigit c) eqn:Ed; [| discriminate].
  cbn [read_digits]. rewrite Ed.
  pose proof (read_digits_length (10 * 0 + digit_value c) s1) as Hl.
  destruct (read_digits _ s1) as [v' r']. intros H. injection H as _ <-.
  cbn [snd String.length] in *. lia.
Qed.

Lemma parse_integer_shrinks (s : string) (v : Z) (rest : string) :
  parse_integer s = Some (v, rest) ->
  (String.length rest < String.length s)%nat.
Proof.
  destruct s as [| c s']; [discriminate |].
  assert (Hcases : parse_integer (String c s') = parse_digits true s'
                   \/ parse_integer (String c s') = parse_digits false s'
                   \/ parse_integer (String c s') = parse_digits false (String c s')).
  { destruct c as [[] [] [] [] [] [] [] []]; simpl; tauto. }
  destruct Hcases as [-> | [-> | ->]]; intros H;
    apply parse_digits_shrinks in H; cbn [String.length] in *; lia.
Qed.

Lemma extract_int_shrinks (s : string) (v : Z) (rest : string) :
  extract_int s = Some (v, rest) ->
  (String.length rest < String.length s)%nat.
Proof.
  unfold extract_int. pose proof (skipws_length s) as Hs.
  destruct (parse_integer (skipws s)) as [[v' r'] |] eqn:E; [| discriminate].
  apply parse_integer_shrinks in E.
  destruct (in_int_range v'); [| discriminate].
  intros H. injection H as <- <-. lia.
Qed.

Section ReadPairs.
Context {A : Type} (first : string -> option (A * string)).
Hypothesis first_shrinks :
  forall s a rest, first s = Some (a, rest) ->
                   (String.length rest < String.length s)%nat.

(** With more fuel than characters the loop always runs to its end. *)
Lemma read_pairs_fuel_enough (fuel : nat) (s : string) :
  (String.length s < fuel)%nat ->
  exists l, read_pairs_fuel first fuel s = Some l.
Proof.
  revert s. induction fuel as [| fuel IH]; intros s Hlen; [lia |].
  simpl. destruct (first s) as [[a s1] |] eqn:E1; [| eauto].
  destruct (extract_int s1) as [[b s2] |] eqn:E2; [| eauto].
  apply first_shrinks in E1. apply extract_int_shrinks in E2.
  destruct (IH s2) as [l Hl]; [lia |]. rewrite Hl. eauto.
Qed.

Lemma read_pairs_fuel_more (fuel fuel' : nat) (s : string) (l : list (A * Z)) :
  read_pairs_fuel first fuel s = Some l -> (fuel <= fuel')%nat ->
  read_pairs_fuel first fuel' s = Some l.
Proof.
  revert fuel' s l. induction fuel as [| fuel IH]; intros fuel' s l H Hle;
    [discriminate |].
  destruct fuel' as [| fuel']; [lia |]. simpl in *.
  destruct (first s) as [[a s1] |]; [| exact H].
  destruct (extract_int s1) as [[b s2] |]; [| exact H].
  destruct (read_pairs_fuel first fuel s2) as [l' |] eqn:E; [| discriminate].
  rewrite (IH fuel' s2 l' E) by lia. exact H.
Qed.

(** The loop, round by round: it ends at the first extraction that fails,
    whatever follows in the stream. *)
Lemma read_pairs_step (s : string) :
  read_pairs first s =
  match first s with
  | None => []
  | Some (a, s1) =>
      match extract_int s1 with
      | None => []
      | Some (b, s2) => (a, b) :: read_pairs first s2
      end
  end.
Proof.
  unfold read_pairs.
  destruct (read_pairs_fuel_enough (S (String.length s)) s) as [l Hl]; [lia |].
  rewrite Hl. simpl in Hl.
  destruct (first s) as [[a s1] |] eqn:E1; [| congruence].
  destruct (extract_int s1) as [[b s2] |] eqn:E2; [| congruence].
  apply first_shrinks in E1. apply extract_int_shrinks in E2.
  destruct (read_pairs_fuel_enough (S (String.length s2)) s2) as [l2 Hl2]; [lia |].
  rewrite Hl2.
  rewrite (read_pairs_fuel_more _ (String.length s) s2 l2 Hl2) in Hl by lia.
  congruence.
Qed.

End ReadPairs.

Lemma read_int_pairs_step (s : string) :
  read_int_pairs s =
  match extract_int s with
  | None => []
  | Some (a, s1) =>
      match extract_int s1 with
      | None => []
      | Some (b, s2) => (a, b) :: read_int_pairs s2
      end
  end.
Proof. apply read_pairs_step. exact extract_int_shrinks. Qed.

Lemma read_name_score_pairs_step (s : string) :
  read_name_score_pairs s =
  match extract_string s with
  | None => []
  | Some (a, s1) =>
      match extract_int s1 with
      | None => []
      | Some (b, s2) => (a, b) :: read_name_score_pairs s2
      end
  end.
Proof. apply read_pairs_step. exact extract_string_shrinks. Qed.

Example extract_int_prefix :
  extract_int (" -12abc")%string = Some (-12, "abc"%string)
  /\ extract_int "abc"%string = None
  /\ extract_int "-"%string = None
  /\ extract_int "2147483647"%string = Some (2147483647, ""%string)
  /\ extract_int "2147483648"%string = None.
Proof. repeat split. Qed.

Example read_int_pairs_lines :
  read_int_pairs ("3 4" ++ newline ++ "5 6")%string = [(3, 4); (5, 6)]
  /\ read_int_pairs ("3 4" ++ newline ++ "5")%string = [(3, 4)].
Proof. split; reflexivity. Qed.

(** ** C4: loadObstacles *)

Lemma firstn_incl {A : Type} (n : nat) (l : list A) (a : A) :
  In a (firstn n l) -> In a l.
Proof.
  intros H. rewrite <- (firstn_skipn n l). apply in_or_app. left. exact H.
Qed.

Lemma in_grid_on_board (px py : Z) :
  Game.in_grid px py = true <-> on_board (mkPosition px py).
Proof.
  unfold Game.in_grid, on_board, Game.GRID_WIDTH, Game.GRID_HEIGHT. simpl.
  rewrite !andb_true_iff, !Z.leb_le, !Z.ltb_lt. tauto.
Qed.

Lemma loadObstacles_loop_spec (pairs : list (Z * Z)) (acc : list Position) :
  (List.length acc <= 100)%nat ->
  Game.loadObstacles_loop pairs acc =
  acc ++ firstn (100 - List.length acc)
           (map (fun p => mkPosition (fst p) (snd p))
                (filter (fun p => Game.in_grid (fst p) (snd p)) pairs)).
Proof.
  revert acc. induction pairs as [| [px py] pairs IH]; intros acc Hlen.
  - simpl. rewrite firstn_nil, app_nil_r. reflexivity.
  - cbn [Game.loadObstacles_loop]. unfold Game.MAX_OBSTACLES.
    destruct (Z.of_nat (List.length acc) <? 100) eqn:E.
    + apply Z.ltb_lt in E. cbn [filter fst snd].
      destruct (Game.in_grid px py).
      * rewrite IH by (rewrite length_app; simpl; lia).
        rewrite length_app. cbn [List.length map].
        replace (100 - List.length acc)%nat
          with (S (100 - (List.length acc + 1)))%nat by lia.
        cbn [firstn]. rewrite <- app_assoc. reflexivity.
      * apply IH. exact Hlen.
    + apply Z.ltb_ge in E.
      replace (100 - List.length acc)%nat with 0%nat by lia.
      rewrite firstn_O, app_nil_r. reflexivity.
Qed.

(** C4 (amended).  [loadObstacles] keeps, of the pairs of integers read from
    the file, those on the 30 x 20 board, up to the first hundred after which
    it stops; pairs off the board are skipped; a file that cannot be opened
    gives no obstacles.  The pairs read end at the first token that is not an
    [int]: nothing behind a malformed entry is read. *)
Theorem loadObstacles_spec (filename : string) (g : Game.t) :
  Game.obstacles (Game.loadObstacles filename g)
    = match open_read (Game.files g) filename with
      | Some text => kept_obstacles (read_int_pairs text)
      | None => []
      end
  /\ Forall on_board (Game.obstacles (Game.loadObstacles filename g))
  /\ (List.length (Game.obstacles (Game.loadObstacles filename g)) <= 100)%nat
  /\ (forall text : string,
        read_int_pairs text =
        match extract_int text with
        | None => []
        | Some (px, rest) =>
            match extract_int rest with
            | None => []
            | Some (py, rest') => (px, py) :: read_int_pairs rest'
            end
        end).
Proof.
  assert (H : Game.obstacles (Game.loadObstacles filename g)
              = match open_read (Game.files g) filename with
                | Some text => kept_obstacles (read_int_pairs text)
                | None => []
                end).
  { unfold Game.loadObstacles. destruct (open_read _ _) as [text |]; [| reflexivity].
    simpl. rewrite loadObstacles_loop_spec by (simpl; lia). reflexivity. }
  split; [exact H |]. rewrite H.
  split; [| split; [| exact read_int_pairs_step]].
  - destruct (open_read _ _) as [text |]; [| constructor].
    unfold kept_obstacles. apply Forall_forall. intros p Hp.
    apply firstn_incl in Hp. apply in_map_iff in Hp. destruct Hp as [[px py] [<- Hin]].
    apply filter_In in Hin. destruct Hin as [_ Hin].
    apply in_grid_on_board. exact Hin.
  - destruct (open_read _ _) as [text |]; [| simpl; lia].
    unfold kept_obstacles. apply firstn_le_length.
Qed.

(** A malformed line ends the loading: the well-formed pair behind it, which
    on its own would be kept, is not loaded. *)
Lemma loadObstacles_stops_at_junk :
  Game.obstacles (Game.loadObstacles "obstacles.txt" (with_obstacles_file obstacles_with_junk))
    = [mkPosition 1 1]
  /\ read_int_pairs ("2 2" ++ newline)%string = [(2, 2)]
  /\ Game.obstacles (Game.loadObstacles "obstacles.txt"
                       (with_obstacles_file ("1 1" ++ newline ++ "2 2" ++ newline)%string))
    = [mkPosition 1 1; mkPosition 2 2].
Proof. repeat split. Qed.

(** ** Writing a store and reading it back *)

Lemma read_digits_stop (acc : Z) (rest : string) :
  no_digit_ahead rest -> read_digits acc rest = (acc, rest).
Proof.
  destruct rest as [| c rest]; simpl; [reflexivity |].
  intros ->. reflexivity.
Qed.

Lemma read_digits_uint_acc (d : Decimal.uint) (acc : positive) (rest : string) :
  no_digit_ahead rest ->
  read_digits (Zpos acc) (NilEmpty.string_of_uint d ++ rest)
  = (Zpos (Pos.of_uint_acc d acc), rest).
Proof.
  intros Hrest. revert acc.
  induction d as [| d IH | d IH | d IH | d IH | d IH | d IH | d IH | d IH | d IH
                 | d IH]; intros acc;
    [apply read_digits_stop; exact Hrest | ..];
    cbn [NilEmpty.string_of_uint append read_digits Pos.of_uint_acc];
    match goal with
    | |- context [isdigit ?c] =>
        change (isdigit c) with true; cbv iota;
        rewrite <- IH; f_equal;
        let v := eval vm_compute in (digit_value c) in
        change (digit_value c) with v; lia
    end.
Qed.

Lemma read_digits_uint (d : Decimal.uint) (rest : string) :
  no_digit_ahead rest ->
  read_digits 0 (NilEmpty.string_of_uint d ++ rest)
  = (Z.of_N (Pos.of_uint d), rest).
Proof.
  intros Hrest.
  induction d as [| d IH | d IH | d IH | d IH | d IH | d IH | d IH | d IH | d IH
                 | d IH];
    [apply read_digits_stop; exact Hrest | exact IH | ..];
    cbn [NilEmpty.string_of_uint append read_digits Pos.of_uint];
    match goal with
    | |- context [isdigit ?c] => change (isdigit c) with true; cbv iota
    end;
    apply read_digits_uint_acc; exact Hrest.
Qed.

Lemma string_of_uint_head (d : Decimal.uint) :
  d <> Decimal.Nil ->
  exists c s, NilEmpty.string_of_uint d = String c s /\ isdigit c = true
              /\ c <> "-"%char /\ c <> "+"%char.
Proof.
  intros Hd. destruct d; [contradiction | ..];
    (eexists; eexists; split; [reflexivity |]; split; [reflexivity |];
     split; discriminate).
Qed.

Lemma parse_digits_uint (negative : bool) (d : Decimal.uint) (rest : string) :
  d <> Decimal.Nil -> no_digit_ahead rest ->
  parse_digits negative (NilEmpty.string_of_uint d ++ rest)
  = Some (if negative then - Z.of_N (Pos.of_uint d) else Z.of_N (Pos.of_uint d),
          rest).
Proof.
  intros Hd Hrest. pose proof (read_digits_uint d rest Hrest) as Hread.
  destruct (string_of_uint_head d Hd) as [c [s [E [Hc _]]]].
  rewrite E in *. unfold parse_digits. cbn [append].
  rewrite Hc. cbn [append] in Hread. rewrite Hread. reflexivity.
Qed.

(** The text that [<<] writes for an [int] is read back by [>>] as the same
    value, up to the first character that is no digit. *)
Lemma parse_integer_string_of_int (v : Z) (rest : string) :
  no_digit_ahead rest ->
  parse_integer (string_of_int v ++ rest) = Some (v, rest).
Proof.
  intros Hrest. unfold string_of_int.
  destruct v as [| p | p]; cbn [Z.to_int NilZero.string_of_int].
  - cbn. rewrite read_digits_stop by exact Hrest. reflexivity.
  - pose proof (Stdlib.Numbers.DecimalPos.Unsigned.to_uint_nonnil p) as Hnil.
    assert (E : NilZero.string_of_uint (Pos.to_uint p)
                = NilEmpty.string_of_uint (Pos.to_uint p)).
    { destruct (Pos.to_uint p); [contradiction | reflexivity ..]. }
    rewrite E.
    pose proof (parse_digits_uint false _ rest Hnil Hrest) as Hp.
    rewrite Stdlib.Numbers.DecimalPos.Unsigned.of_to in Hp.
    destruct (string_of_uint_head _ Hnil) as [c [s [Es [_ [Hm Hpl]]]]].
    rewrite Es in *. cbn [append] in *. unfold parse_integer.
    destruct (Ascii.eqb_spec c "-"%char) as [-> | _]; [contradiction |].
    destruct (Ascii.eqb_spec c "+"%char) as [-> | _]; [contradiction |].
    destruct c as [[] [] [] [] [] [] [] []]; try exact Hp; contradiction.
  - pose proof (Stdlib.Numbers.DecimalPos.Unsigned.to_uint_nonnil p) as Hnil.
    assert (E : NilZero.string_of_uint (Pos.to_uint p)
                = NilEmpty.string_of_uint (Pos.to_uint p)).
    { destruct (Pos.to_uint p); [contradiction | reflexivity ..]. }
    rewrite E.
    pose proof (parse_digits_uint true _ rest Hnil Hrest) as Hp.
    rewrite Stdlib.Numbers.DecimalPos.Unsigned.of_to in Hp.
    cbn [append]. unfold parse_integer. exact Hp.
Qed.

Lemma string_app_assoc (a b c : string) : ((a ++ b) ++ c = a ++ (b ++ c))%string.
Proof. induction a as [| ch a IH]; simpl; [reflexivity | rewrite IH; reflexivity]. Qed.

Lemma read_word_app (w rest : string) :
  no_space w = true ->
  match rest with String c _ => isspace c = true | EmptyString => True end ->
  read_word (w ++ rest) = (w, rest).
Proof.
  intros Hw Hrest. induction w as [| c w IH]; cbn [append].
  - destruct rest as [| c rest]; [reflexivity |]. simpl. rewrite Hrest. reflexivity.
  - simpl in Hw. apply andb_prop in Hw. destruct Hw as [Hc Hw].
    apply negb_true_iff in Hc. simpl. rewrite Hc, (IH Hw). reflexivity.
Qed.

Lemma extract_string_word (w rest : string) :
  is_word w = true ->
  match rest with String c _ => isspace c = true | EmptyString => True end ->
  extract_string (w ++ rest) = Some (w, rest).
Proof.
  intros Hw Hrest. destruct w as [| c w]; [discriminate |].
  unfold is_word in Hw. unfold extract_string.
  assert (Hc : isspace c = false).
  { simpl in Hw. apply andb_prop in Hw. apply negb_true_iff. apply Hw. }
  cbn [append skipws]. rewrite Hc.
  change (String c (w ++ rest)) with (String c w ++ rest)%string.
  rewrite (read_word_app (String c w) rest Hw Hrest). reflexivity.
Qed.

(** One line of a store, read back. *)
Lemma read_score_line (n : string) (v : Z) (rest : string) :
  storable (n, v) ->
  read_name_score_pairs (score_line n v ++ rest)
  = (n, v) :: read_name_score_pairs rest.
Proof.
  intros [Hn Hv]. simpl in Hn, Hv.
  rewrite read_name_score_pairs_step. unfold score_line.
  rewrite !string_app_assoc.
  rewrite (extract_string_word n _ Hn) by reflexivity.
  unfold extract_int. cbn [append skipws]. change (isspace " ") with true. cbv iota.
  assert (Hskip : skipws (string_of_int v ++ newline ++ rest)
                  = (string_of_int v ++ newline ++ rest)%string).
  { pose proof (parse_integer_string_of_int v (newline ++ rest) eq_refl) as Hp.
    destruct (string_of_int v ++ newline ++ rest)%string as [| c s] eqn:E;
      [reflexivity |].
    simpl. destruct (isspace c) eqn:Ec; [| reflexivity].
    exfalso. revert Hp Ec. clear.
    destruct c as [[] [] [] [] [] [] [] []]; simpl; try discriminate;
      unfold parse_integer, parse_digits; simpl; discriminate. }
  rewrite Hskip, (parse_integer_string_of_int v (newline ++ rest) eq_refl), Hv.
  f_equal.
  rewrite (read_name_score_pairs_step (newline ++ rest)).
  rewrite (read_name_score_pairs_step rest).
  reflexivity.
Qed.

Lemma score_lines_cons (p : string * Z) (l : list (string * Z)) :
  Game.score_lines (p :: l)
  = (score_line (fst p) (snd p) ++ Game.score_lines l)%string.
Proof. reflexivity. Qed.

Lemma read_nothing : read_name_score_pairs "" = [].
Proof. reflexivity. Qed.

(** A store whose names are words and whose scores are [int]s is read back
    line by line as it was written. *)
Lemma read_score_lines (l : list (string * Z)) :
  Forall storable l -> read_name_score_pairs (Game.score_lines l) = l.
Proof.
  induction 1 as [| [n v] l Hp Hl IH]; [reflexivity |].
  rewrite score_lines_cons. cbn [fst snd].
  rewrite (read_score_line n v _ Hp), IH. reflexivity.
Qed.

(** ** C7: loadHighestScores *)

Lemma best_of_upper (scores : list Z) (s : Z) : In s scores -> s <= best_of scores.
Proof.
  induction scores as [| h t IH]; simpl; [intros [] |].
  intros [-> | H]; [lia |]. specialize (IH H). lia.
Qed.

Lemma best_of_nonneg (scores : list Z) : 0 <= best_of scores.
Proof. induction scores as [| h t IH]; simpl; lia. Qed.

Lemma best_of_attained (scores : list Z) :
  best_of scores = 0 \/ In (best_of scores) scores.
Proof.
  induction scores as [| h t IH]; simpl; [left; reflexivity |].
  destruct (Z.max_spec h (best_of t)) as [[_ ->] | [_ ->]]; tauto.
Qed.

Lemma loadHighestScores_loop_spec (player : string) (pairs : list (string * Z))
    (best : Z * Z) :
  0 <= fst best -> 0 <= snd best ->
  Game.loadHighestScores_loop player pairs best
  = (Z.max (fst best) (best_of (map snd pairs)),
     Z.max (snd best) (best_of (scores_of player pairs))).
Proof.
  revert best. induction pairs as [| [n s] pairs IH]; intros [o p] Ho Hp;
    cbn [fst snd] in *.
  - simpl. f_equal; lia.
  - cbn [Game.loadHighestScores_loop fst snd]. rewrite IH; cbn [fst snd].
    + unfold scores_of. cbn [filter map fst snd best_of fold_right].
      fold (best_of (map snd pairs)).
      destruct (String.eqb n player); cbn [andb map snd fold_right].
      * fold (best_of (map snd (filter (fun p0 => String.eqb (fst p0) player) pairs))).
        destruct (o <? s) eqn:Eo; destruct (p <? s) eqn:Ep;
          rewrite ?Z.ltb_lt, ?Z.ltb_ge in *; f_equal; lia.
      * destruct (o <? s) eqn:Eo; rewrite ?Z.ltb_lt, ?Z.ltb_ge in *; f_equal; lia.
    + destruct (o <? s) eqn:Eo; rewrite ?Z.ltb_lt, ?Z.ltb_ge in *; lia.
    + destruct (String.eqb n player && (p <? s)) eqn:E; [| exact Hp].
      apply andb_true_iff in E. destruct E as [_ E]. apply Z.ltb_lt in E. lia.
Qed.

(** Counting from 0 upwards: the highest score recorded, but never below 0. *)
Lemma best_of_recorded_max (scores : list Z) :
  best_of scores = match recorded_max scores with
                   | Some m => Z.max 0 m
                   | None => 0
                   end.
Proof.
  destruct scores as [| s rest]; [reflexivity |].
  unfold best_of, recorded_max. cbn [fold_right].
  induction rest as [| r rest IH]; cbn [fold_right]; lia.
Qed.

(** C7 (amended).  [loadHighestScores] sets the global high score to the
    highest score among all pairs read from user_scores.txt and the personal
    best to the highest score among the pairs of the active player, each
    counted from 0 upwards: the result is the maximum recorded when that is
    at least 0, and 0 when it is negative or nothing is recorded.  Both bound
    every recorded score from above, and each is a recorded score as soon as
    a score of at least 0 is recorded (for the player, in the case of the
    personal best).  A name recorded twice counts with its higher score, and
    a missing file gives 0 for both.  The pairs are read as a name and an
    [int] each, up to the first place where one of the two cannot be read. *)
Theorem loadHighestScores_spec (g : Game.t) :
  let pairs := stored_pairs (Game.files g) "user_scores.txt" in
  let g' := Game.loadHighestScores g in
  Game.overallHighestScore g' = best_of (map snd pairs)
  /\ Game.personalBestScore g' = best_of (scores_of (Game.playerName g) pairs)
  /\ (forall n s, In (n, s) pairs ->
        s <= Game.overallHighestScore g'
        /\ (n = Game.playerName g -> s <= Game.personalBestScore g'))
  /\ (Game.overallHighestScore g' = 0
      \/ exists n, In (n, Game.overallHighestScore g') pairs)
  /\ (Game.personalBestScore g' = 0
      \/ In (Game.playerName g, Game.personalBestScore g') pairs)
  /\ ((exists n s, In (n, s) pairs /\ 0 <= s) ->
      exists n, In (n, Game.overallHighestScore g') pairs)
  /\ ((exists s, In (Game.playerName g, s) pairs /\ 0 <= s) ->
      In (Game.playerName g, Game.personalBestScore g') pairs)
  /\ (open_read (Game.files g) "user_scores.txt" = None ->
      Game.overallHighestScore g' = 0 /\ Game.personalBestScore g' = 0)
  /\ Game.overallHighestScore g'
     = match recorded_max (map snd pairs) with
       | Some m => Z.max 0 m
       | None => 0
       end
  /\ Game.personalBestScore g'
     = match recorded_max (scores_of (Game.playerName g) pairs) with
       | Some m => Z.max 0 m
       | None => 0
       end
  /\ pairs = match open_read (Game.files g) "user_scores.txt" with
             | Some text => read_name_score_pairs text
             | None => []
             end
  /\ (forall text : string,
        read_name_score_pairs text =
        match extract_string text with
        | None => []
        | Some (name, rest) =>
            match extract_int rest with
            | None => []
            | Some (s, rest') => (name, s) :: read_name_score_pairs rest'
            end
        end)
  /\ (forall l : list (string * Z),
        Forall storable l -> read_name_score_pairs (Game.score_lines l) = l).
Proof.
  intros pairs g'.
  assert (H : Game.overallHighestScore g' = best_of (map snd pairs)
              /\ Game.personalBestScore g' = best_of (scores_of (Game.playerName g) pairs)).
  { unfold g', pairs, stored_pairs, Game.loadHighestScores. simpl.
    destruct (open_read (Game.files g) "user_scores.txt") as [text |];
      [| split; reflexivity].
    simpl. rewrite loadHighestScores_loop_spec by (simpl; lia). simpl.
    split; apply Z.max_r; apply best_of_nonneg. }
  destruct H as [Ho Hp]. rewrite Ho, Hp.
  assert (Hup : forall n s, In (n, s) pairs ->
                  s <= best_of (map snd pairs)
                  /\ (n = Game.playerName g ->
                      s <= best_of (scores_of (Game.playerName g) pairs))).
  { intros n s Hin. split.
    + apply best_of_upper. apply in_map_iff. exists (n, s). split; [reflexivity | exact Hin].
    + intros ->. apply best_of_upper. unfold scores_of. apply in_map_iff.
      exists (Game.playerName g, s). split; [reflexivity |].
      apply filter_In. split; [exact Hin | apply String.eqb_refl]. }
  assert (Hgot : best_of (map snd pairs) = 0
                 \/ exists n, In (n, best_of (map snd pairs)) pairs).
  { destruct (best_of_attained (map snd pairs)) as [H | H]; [left; exact H |].
    right. apply in_map_iff in H. destruct H as [[n s] [Hs Hin]].
    exists n. simpl in Hs. rewrite <- Hs. exact Hin. }
  assert (Hgot' : best_of (scores_of (Game.playerName g) pairs) = 0
                  \/ In (Game.playerName g,
                         best_of (scores_of (Game.playerName g) pairs)) pairs).
  { destruct (best_of_attained (scores_of (Game.playerName g) pairs)) as [H | H];
      [left; exact H |].
    right. unfold scores_of in H. apply in_map_iff in H.
    destruct H as [[n s] [Hs Hin]]. apply filter_In in Hin.
    destruct Hin as [Hin Hn]. simpl in Hs, Hn. apply String.eqb_eq in Hn.
    subst n. unfold scores_of. rewrite <- Hs. exact Hin. }
  split; [reflexivity |]. split; [reflexivity |]. split; [exact Hup |].
  split; [exact Hgot |]. split; [exact Hgot' |].
  split; [| split; [| split; [| split; [| split; [| split; [| split]]]]]].
  - intros [n [s [Hin Hs]]]. destruct Hgot as [H0 | H]; [| exact H].
    destruct (Hup n s Hin) as [Hle _]. rewrite H0 in *.
    assert (s = 0) by lia. subst s. exists n. exact Hin.
  - intros [s [Hin Hs]]. destruct Hgot' as [H0 | H]; [| exact H].
    destruct (Hup _ s Hin) as [_ Hle]. specialize (Hle eq_refl). rewrite H0 in *.
    assert (s = 0) by lia. subst s. exact Hin.
  - intros Hnone. unfold pairs, stored_pairs. rewrite Hnone. split; reflexivity.
  - apply best_of_recorded_max.
  - apply best_of_recorded_max.
  - reflexivity.
  - exact read_name_score_pairs_step.
  - exact read_score_lines.
Qed.

(** The example of the specification, through the theorem: from the lines
    "x 10", "x 20" and "y 35" the three pairs are read, and the player "x"
    gets the personal best 20 beside the global high score 35. *)
Lemma loadHighestScores_spec_witness :
  stored_pairs
    (Game.files (with_user_scores ("x 10" ++ newline ++ "x 20" ++ newline
                                   ++ "y 35" ++ newline)%string))
    "user_scores.txt"
  = [("x", 10); ("x", 20); ("y", 35)]%string
  /\ Game.playerName (with_user_scores ("x 10" ++ newline ++ "x 20" ++ newline
                                        ++ "y 35" ++ newline)%string)
     = "x"%string
  /\ Game.personalBestScore
       (Game.loadHighestScores
          (with_user_scores ("x 10" ++ newline ++ "x 20" ++ newline
                             ++ "y 35" ++ newline)%string))
     = 20
  /\ Game.overallHighestScore
       (Game.loadHighestScores
          (with_user_scores ("x 10" ++ newline ++ "x 20" ++ newline
                             ++ "y 35" ++ newline)%string))
     = 35.
Proof.
  pose proof (loadHighestScores_spec
                (with_user_scores ("x 10" ++ newline ++ "x 20" ++ newline
                                   ++ "y 35" ++ newline)%string)) as H.
  cbv zeta in H. destruct H as [Ho [Hp _]].
  split; [vm_compute; reflexivity |]. split; [reflexivity |].
  split; [rewrite Hp | rewrite Ho]; vm_compute; reflexivity.
Defined.

(** A store whose only line is "x -5": the maximum recorded for the player
    "x", and over all pairs, is -5, yet both best scores come out as 0, the
    value from which [loadHighestScores] counts. *)
Lemma loadHighestScores_negative_scores :
  stored_pairs (Game.files (with_user_scores ("x -5" ++ newline)%string))
    "user_scores.txt"
  = [("x"%string, -5)]
  /\ Game.playerName (with_user_scores ("x -5" ++ newline)%string) = "x"%string
  /\ recorded_max
       (scores_of "x"
          (stored_pairs (Game.files (with_user_scores ("x -5" ++ newline)%string))
             "user_scores.txt"))
     = Some (-5)
  /\ recorded_max
       (map snd
          (stored_pairs (Game.files (with_user_scores ("x -5" ++ newline)%string))
             "user_scores.txt"))
     = Some (-5)
  /\ Game.personalBestScore
       (Game.loadHighestScores (with_user_scores ("x -5" ++ newline)%string))
     = 0
  /\ Game.overallHighestScore
       (Game.loadHighestScores (with_user_scores ("x -5" ++ newline)%string))
     = 0.
Proof. repeat split; vm_compute; reflexivity. Qed.

(** The personal-best store with the name "x" recorded twice. *)
Example loadHighestScores_duplicates :
  let g' := Game.loadHighestScores
              (with_user_scores ("x 10" ++ newline ++ "x 20" ++ newline
                                 ++ "y 35" ++ newline)%string) in
  Game.personalBestScore g' = 20 /\ Game.overallHighestScore g' = 35.
Proof. split; reflexivity. Qed.

Example loadHighestScores_missing_file :
  let g' := Game.loadHighestScores (Game.set_files no_files (with_user_scores "")) in
  Game.personalBestScore g' = 0 /\ Game.overallHighestScore g' = 0.
Proof. split; reflexivity. Qed.

(** ** [std::map] *)

Lemma compare_refl (k : string) : String.compare k k = Eq.
Proof.
  destruct (String.compare k k) eqn:E; [reflexivity | |];
    pose proof (String.compare_antisym k k) as H; rewrite E in H; discriminate.
Qed.

Lemma compare_lt_trans (a b c : string) :
  String.compare a b = Lt -> String.compare b c = Lt -> String.compare a c = Lt.
Proof.
  intros H1 H2. apply Stdlib.Structures.OrderedTypeEx.String_as_OT.cmp_lt.
  eapply Stdlib.Structures.OrderedTypeEx.String_as_OT.lt_trans;
    apply Stdlib.Structures.OrderedTypeEx.String_as_OT.cmp_lt; eassumption.
Qed.

Lemma compare_gt_lt (a b : string) :
  String.compare a b = Gt -> String.compare b a = Lt.
Proof.
  intros H. rewrite String.compare_antisym, H. reflexivity.
Qed.

Lemma compare_neq (a b : string) :
  String.compare a b <> Eq -> String.eqb a b = false.
Proof.
  intros H. apply String.eqb_neq. intros ->. apply H, compare_refl.
Qed.

Lemma find_assign_same (k : string) (v : Z) (m : StdMap.t) :
  StdMap.find k (StdMap.assign k v m) = Some v.
Proof.
  induction m as [| [k' v'] m IH]; simpl.
  - rewrite String.eqb_refl. reflexivity.
  - destruct (String.compare k k') eqn:E; simpl.
    + rewrite String.eqb_refl. reflexivity.
    + rewrite String.eqb_refl. reflexivity.
    + rewrite compare_neq by congruence. exact IH.
Qed.

Lemma find_assign_other (k k' : string) (v : Z) (m : StdMap.t) :
  k' <> k -> StdMap.find k' (StdMap.assign k v m) = StdMap.find k' m.
Proof.
  intros Hne. apply String.eqb_neq in Hne.
  induction m as [| [k0 v0] m IH]; simpl.
  - rewrite Hne. reflexivity.
  - destruct (String.compare k k0) eqn:E; simpl.
    + apply String.compare_eq_iff in E. subst k0. rewrite Hne. reflexivity.
    + rewrite Hne. reflexivity.
    + rewrite IH. reflexivity.
Qed.

Lemma assign_keys (k : string) (v : Z) (m : StdMap.t) (p : string * Z) :
  In p (StdMap.assign k v m) -> p = (k, v) \/ In p m.
Proof.
  induction m as [| [k0 v0] m IH]; simpl.
  - intros [H | []]. left. symmetry. exact H.
  - destruct (String.compare k k0); simpl; intuition (auto; congruence).
Qed.

Lemma assign_ok (k : string) (v : Z) (m : StdMap.t) :
  map_ok m -> map_ok (StdMap.assign k v m).
Proof.
  unfold map_ok. induction m as [| [k0 v0] m IH]; intros Hm; simpl.
  - repeat constructor.
  - inversion Hm as [| ? ? Hm' Hall]; subst.
    destruct (String.compare k k0) eqn:E.
    + apply String.compare_eq_iff in E. subst k0. constructor; assumption.
    + constructor; [exact Hm |]. constructor; [exact E |].
      eapply Forall_impl; [| exact Hall]. intros [k1 v1] H1.
      unfold key_lt in *. simpl in *. eapply compare_lt_trans; eassumption.
    + constructor; [apply IH; exact Hm' |].
      apply Forall_forall. intros p Hp. apply assign_keys in Hp.
      destruct Hp as [-> | Hp].
      * unfold key_lt. simpl. apply compare_gt_lt. exact E.
      * rewrite Forall_forall in Hall. apply Hall. exact Hp.
Qed.

Lemma map_ok_find (m : StdMap.t) (k : string) (v : Z) :
  map_ok m -> (StdMap.find k m = Some v <-> In (k, v) m).
Proof.
  unfold map_ok. induction m as [| [k0 v0] m IH]; intros Hm; simpl.
  - split; [discriminate | tauto].
  - inversion Hm as [| ? ? Hm' Hall]; subst.
    destruct (String.eqb k k0) eqn:E.
    + apply String.eqb_eq in E. subst k0. split.
      * intros H. injection H as <-. left. reflexivity.
      * intros [H | H]; [congruence |].
        rewrite Forall_forall in Hall. apply Hall in H.
        unfold key_lt in H. simpl in H. rewrite compare_refl in H. discriminate.
    + apply String.eqb_neq in E. rewrite (IH Hm'). split; [tauto |].
      intros [H | H]; [congruence | exact H].
Qed.

Lemma map_ok_NoDup (m : StdMap.t) : map_ok m -> NoDup (map fst m).
Proof.
  unfold map_ok. induction m as [| [k0 v0] m IH]; intros Hm; simpl; [constructor |].
  inversion Hm as [| ? ? Hm' Hall]; subst. constructor; [| apply IH; exact Hm'].
  intros Hin. apply in_map_iff in Hin. destruct Hin as [[k1 v1] [Hk Hin]].
  simpl in Hk. subst k1. rewrite Forall_forall in Hall. apply Hall in Hin.
  unfold key_lt in Hin. simpl in Hin. rewrite compare_refl in Hin. discriminate.
Qed.

(** ** C5: loadLeaderboard *)

Lemma keep_best_merged (seen : list (string * Z)) (m : StdMap.t) (p : string * Z) :
  merged seen m -> merged (seen ++ [p]) (Game.keep_best m p).
Proof.
  destruct p as [n s]. intros [Hok [Hbest Hall]]. unfold Game.keep_best.
  cbn [fst snd].
  assert (Hin : forall n' s', In (n', s') (seen ++ [(n, s)])
                              <-> In (n', s') seen \/ (n', s') = (n, s)).
  { intros n' s'. rewrite in_app_iff. simpl. intuition congruence. }
  destruct (StdMap.find n m) as [old |] eqn:Ef.
  - destruct (old <? s) eqn:E.
    + apply Z.ltb_lt in E. split; [apply assign_ok; exact Hok |]. split.
      * intros n' v Hf. destruct (string_dec n' n) as [-> | Hne].
        -- rewrite find_assign_same in Hf. injection Hf as <-.
           split; [apply Hin; right; reflexivity |].
           intros s' Hs'. apply Hin in Hs'. destruct Hs' as [Hs' | Hs'].
           ++ destruct (Hbest n old Ef) as [_ Hmax]. specialize (Hmax s' Hs'). lia.
           ++ injection Hs' as ->. lia.
        -- rewrite find_assign_other in Hf by exact Hne.
           destruct (Hbest n' v Hf) as [H1 H2]. split; [apply Hin; left; exact H1 |].
           intros s' Hs'. apply Hin in Hs'. destruct Hs' as [Hs' | Hs'];
             [apply H2; exact Hs' | congruence].
      * intros n' s' Hs'. destruct (string_dec n' n) as [-> | Hne].
        -- exists s. apply find_assign_same.
        -- rewrite find_assign_other by exact Hne.
           apply Hin in Hs'. destruct Hs' as [Hs' | Hs']; [| congruence].
           apply (Hall n' s' Hs').
    + apply Z.ltb_ge in E. split; [exact Hok |]. split.
      * intros n' v Hf. destruct (Hbest n' v Hf) as [H1 H2].
        split; [apply Hin; left; exact H1 |].
        intros s' Hs'. apply Hin in Hs'. destruct Hs' as [Hs' | Hs'];
          [apply H2; exact Hs' |].
        injection Hs' as -> ->. rewrite Ef in Hf. injection Hf as <-. exact E.
      * intros n' s' Hs'. apply Hin in Hs'. destruct Hs' as [Hs' | Hs'].
        -- apply (Hall n' s' Hs').
        -- injection Hs' as -> ->. exists old. exact Ef.
  - split; [apply assign_ok; exact Hok |]. split.
    + intros n' v Hf. destruct (string_dec n' n) as [-> | Hne].
      * rewrite find_assign_same in Hf. injection Hf as <-.
        split; [apply Hin; right; reflexivity |].
        intros s' Hs'. apply Hin in Hs'. destruct Hs' as [Hs' | Hs'].
        -- destruct (Hall n s' Hs') as [v Hv]. congruence.
        -- injection Hs' as ->. lia.
      * rewrite find_assign_other in Hf by exact Hne.
        destruct (Hbest n' v Hf) as [H1 H2]. split; [apply Hin; left; exact H1 |].
        intros s' Hs'. apply Hin in Hs'. destruct Hs' as [Hs' | Hs'];
          [apply H2; exact Hs' | congruence].
    + intros n' s' Hs'. destruct (string_dec n' n) as [-> | Hne].
      * exists s. apply find_assign_same.
      * rewrite find_assign_other by exact Hne.
        apply Hin in Hs'. destruct Hs' as [Hs' | Hs']; [| congruence].
        apply (Hall n' s' Hs').
Qed.

Lemma fold_keep_best_merged (pairs seen : list (string * Z)) (m : StdMap.t) :
  merged seen m -> merged (seen ++ pairs) (fold_left Game.keep_best pairs m).
Proof.
  revert seen m. induction pairs as [| p pairs IH]; intros seen m Hm; simpl.
  - rewrite app_nil_r. exact Hm.
  - replace (seen ++ p :: pairs) with ((seen ++ [p]) ++ pairs)
      by (rewrite <- app_assoc; reflexivity).
    apply IH. apply keep_best_merged. exact Hm.
Qed.

Lemma merged_all (pairs : list (string * Z)) :
  merged pairs (fold_left Game.keep_best pairs StdMap.empty).
Proof.
  apply (fold_keep_best_merged pairs [] StdMap.empty).
  split; [constructor |]. split; [discriminate | intros n s []].
Qed.

Lemma entry_eta (e : ScoreEntry.t) :
  Game.entry_of (Game.pair_of e) = e.
Proof. destruct e. reflexivity. Qed.

Lemma std_sort_nil {sorter : StdSort} : std_sort [] = [].
Proof. apply Permutation_nil. apply std_sort_perm. Qed.

Lemma std_sort_In {sorter : StdSort} (l : list ScoreEntry.t) (e : ScoreEntry.t) :
  In e (std_sort l) <-> In e l.
Proof.
  split; apply Permutation_in;
    [apply Permutation_sym |]; apply std_sort_perm.
Qed.

Lemma std_sort_length {sorter : StdSort} (l : list ScoreEntry.t) :
  List.length (std_sort l) = List.length l.
Proof. symmetry. apply Permutation_length, std_sort_perm. Qed.

Lemma std_sort_unique {sorter : StdSort} (l : list ScoreEntry.t) :
  unique_names l -> unique_names (std_sort l).
Proof.
  unfold unique_names. apply Permutation_NoDup.
  apply Permutation_map, std_sort_perm.
Qed.

Section Leaderboard.
Context {sorter : StdSort}.

Lemma loadLeaderboard_leaderboard (g : Game.t) :
  Game.leaderboard (Game.loadLeaderboard g)
  = std_sort (map Game.entry_of
                (fold_left Game.keep_best
                   (stored_pairs (Game.files g) "scores.txt") StdMap.empty)).
Proof.
  unfold Game.loadLeaderboard, stored_pairs.
  destruct (open_read _ _); simpl; [reflexivity |].
  symmetry. apply std_sort_nil.
Qed.

Lemma loadLeaderboard_entries (g : Game.t) :
  unique_names (Game.leaderboard (Game.loadLeaderboard g))
  /\ (forall e, In e (Game.leaderboard (Game.loadLeaderboard g))
                <-> best_recorded (stored_pairs (Game.files g) "scores.txt")
                      (ScoreEntry.name e) (ScoreEntry.score e))
  /\ StronglySorted score_ge (Game.leaderboard (Game.loadLeaderboard g))
  /\ List.length (Game.leaderboard (Game.loadLeaderboard g))
     = List.length (distinct_names (stored_pairs (Game.files g) "scores.txt")).
Proof.
  rewrite loadLeaderboard_leaderboard.
  set (pairs := stored_pairs (Game.files g) "scores.txt").
  set (m := fold_left Game.keep_best pairs StdMap.empty).
  destruct (merged_all pairs) as [Hok [Hbest Hall]]. fold m in Hok, Hbest, Hall.
  assert (Hnames : map ScoreEntry.name (map Game.entry_of m) = map fst m).
  { rewrite map_map. apply map_ext. intros [n v]. reflexivity. }
  assert (Huniq : unique_names (std_sort (map Game.entry_of m))).
  { apply std_sort_unique. unfold unique_names. rewrite Hnames.
    apply map_ok_NoDup. exact Hok. }
  assert (Hin : forall e, In e (std_sort (map Game.entry_of m))
                          <-> best_recorded pairs (ScoreEntry.name e) (ScoreEntry.score e)).
  { intros e. rewrite std_sort_In, in_map_iff. split.
    - intros [[n v] [<- Hp]]. simpl. apply Hbest. apply map_ok_find; assumption.
    - intros [Hp Hmax]. destruct (Hall _ _ Hp) as [v Hv].
      destruct (Hbest _ _ Hv) as [Hp' Hmax'].
      assert (v = ScoreEntry.score e).
      { specialize (Hmax _ Hp'). specialize (Hmax' _ Hp). lia. }
      subst v. exists (Game.pair_of e). split; [apply entry_eta |].
      apply map_ok_find; assumption. }
  split; [exact Huniq |]. split; [exact Hin |]. split; [apply std_sort_sorted |].
  rewrite <- (length_map ScoreEntry.name).
  apply Permutation_length. apply NoDup_Permutation.
  - exact Huniq.
  - apply NoDup_nodup.
  - intros n. unfold distinct_names. rewrite nodup_In, !in_map_iff. split.
    + intros [e [<- He]]. apply Hin in He. destruct He as [Hp _].
      exists (ScoreEntry.name e, ScoreEntry.score e). split; [reflexivity | exact Hp].
    + intros [[n' s] [<- Hp]]. simpl. destruct (Hall _ _ Hp) as [v Hv].
      exists (ScoreEntry.mk n' v). split; [reflexivity |].
      apply Hin. simpl. apply Hbest. exact Hv.
Qed.

End Leaderboard.

(** C5 (amended).  Entering the state LEADERBOARD rebuilds the leaderboard
    from scores.txt, whatever it held before (an empty one when the file is
    missing): it holds exactly one entry per name of the file, carrying the
    highest score recorded for that name, in descending order of score.  It
    is not cut to ten entries: it has as many as the file has distinct
    names. *)
Theorem leaderboard_reload (sorter : StdSort) (g : Game.t) :
  let pairs := stored_pairs (Game.files g) "scores.txt" in
  let g' := Game.changeState LEADERBOARD g in
  Game.currentState g' = LEADERBOARD
  /\ Game.leaderboard g' = Game.leaderboard (Game.loadLeaderboard g)
  /\ (forall before : list ScoreEntry.t,
        Game.leaderboard (Game.changeState LEADERBOARD (Game.set_leaderboard before g))
        = Game.leaderboard g')
  /\ (open_read (Game.files g) "scores.txt" = None -> Game.leaderboard g' = [])
  /\ unique_names (Game.leaderboard g')
  /\ (forall e, In e (Game.leaderboard g')
                <-> best_recorded pairs (ScoreEntry.name e) (ScoreEntry.score e))
  /\ StronglySorted score_ge (Game.leaderboard g')
  /\ List.length (Game.leaderboard g') = List.length (distinct_names pairs).
Proof.
  intros pairs g'.
  assert (Hl : Game.leaderboard g' = Game.leaderboard (Game.loadLeaderboard g)).
  { unfold g', Game.changeState. rewrite !loadLeaderboard_leaderboard. reflexivity. }
  split; [apply changeState_state |]. split; [exact Hl |].
  split.
  { intros before. unfold g', Game.changeState.
    rewrite !loadLeaderboard_leaderboard. reflexivity. }
  split.
  { intros Hnone. rewrite Hl. unfold Game.loadLeaderboard. rewrite Hnone.
    reflexivity. }
  rewrite Hl. apply loadLeaderboard_entries.
Qed.

(** A store with eleven names gives a leaderboard of eleven entries. *)
Lemma leaderboard_reload_eleven :
  List.length (distinct_names eleven_players) = 11%nat
  /\ List.length
       (Game.leaderboard
          (Game.changeState (sorter := insertion_sorter) LEADERBOARD
             (with_scores eleven_players))) = 11%nat
  /\ (Game.MAX_LEADERBOARD_ENTRIES
      <? Z.of_nat (List.length
                     (Game.leaderboard
                        (Game.loadLeaderboard (sorter := insertion_sorter)
                           (with_scores eleven_players))))) = true.
Proof. repeat split. Qed.

Lemma write_file_same (fs : FileSystem) (path data : string) :
  writable fs path = true ->
  open_read (write_file fs path data) path = Some data.
Proof.
  intros Hw. unfold write_file, open_read. rewrite Hw. simpl.
  rewrite String.eqb_refl. reflexivity.
Qed.

Lemma in_int_range_max (a b : Z) :
  in_int_range a = true -> in_int_range b = true -> in_int_range (Z.max a b) = true.
Proof.
  unfold in_int_range. intros Ha Hb.
  apply andb_prop in Ha. apply andb_prop in Hb.
  apply andb_true_intro. rewrite !Z.leb_le in *. lia.
Qed.

(** ** C6: saveToLeaderboard *)

Lemma update_entry_spec (player : string) (s : Z) (l : list ScoreEntry.t) :
  unique_names l ->
  (if snd (Game.update_entry player s l)
   then fst (Game.update_entry player s l)
   else fst (Game.update_entry player s l) ++ [ScoreEntry.mk player s])
  = upsert_max player s l.
Proof.
  unfold unique_names, upsert_max.
  induction l as [| e l IH]; intros Hu; [reflexivity |].
  simpl in Hu. inversion Hu as [| ? ? Hnot Hu']; subst.
  cbn [Game.update_entry existsb map].
  destruct (String.eqb (ScoreEntry.name e) player) eqn:E.
  - cbn [fst snd orb]. f_equal.
    + destruct e as [n v]. cbn [ScoreEntry.name ScoreEntry.score].
      destruct (v <? s) eqn:Ev; rewrite ?Z.ltb_lt, ?Z.ltb_ge in Ev; f_equal; lia.
    + apply String.eqb_eq in E. symmetry. rewrite <- (map_id l) at 2.
      apply map_ext_in. intros e' He'.
      destruct (String.eqb (ScoreEntry.name e') player) eqn:E'; [| reflexivity].
      apply String.eqb_eq in E'. exfalso. apply Hnot. rewrite E, <- E'.
      apply in_map. exact He'.
  - specialize (IH Hu'). destruct (Game.update_entry player s l) as [l' found].
    cbn [fst snd orb] in *.
    destruct (existsb (fun e0 => String.eqb (ScoreEntry.name e0) player) l);
      destruct found; cbn [app]; rewrite <- IH; reflexivity.
Qed.

Lemma upsert_max_names (player : string) (s : Z) (l : list ScoreEntry.t) :
  map ScoreEntry.name (upsert_max player s l)
  = if existsb (fun e => String.eqb (ScoreEntry.name e) player) l
    then map ScoreEntry.name l
    else map ScoreEntry.name l ++ [player].
Proof.
  unfold upsert_max.
  destruct (existsb _ l).
  - rewrite map_map. apply map_ext. intros e.
    destruct (String.eqb (ScoreEntry.name e) player); reflexivity.
  - rewrite map_app. reflexivity.
Qed.

Lemma upsert_max_unique (player : string) (s : Z) (l : list ScoreEntry.t) :
  unique_names l -> unique_names (upsert_max player s l).
Proof.
  unfold unique_names. intros Hu. rewrite upsert_max_names.
  destruct (existsb _ l) eqn:E; [exact Hu |].
  apply NoDup_app; [exact Hu | repeat constructor; intros [] |].
  intros n Hin [<- | []]. apply in_map_iff in Hin.
  destruct Hin as [e [He Hin]].
  assert (Ht : existsb (fun e0 => String.eqb (ScoreEntry.name e0) player) l = true).
  { apply existsb_exists. exists e. split; [exact Hin | apply String.eqb_eq, He]. }
  congruence.
Qed.

(** The entries of the upserted list: the player's with the higher score,
    everyone else's as before. *)
Lemma upsert_max_In (player : string) (s : Z) (l : list ScoreEntry.t)
    (e : ScoreEntry.t) :
  In e (upsert_max player s l) <->
  (ScoreEntry.name e <> player /\ In e l)
  \/ (ScoreEntry.name e = player
      /\ ((exists old, In (ScoreEntry.mk player old) l
                       /\ ScoreEntry.score e = Z.max old s)
          \/ ((forall old, ~ In (ScoreEntry.mk player old) l)
              /\ ScoreEntry.score e = s))).
Proof.
  unfold upsert_max.
  destruct (existsb (fun e0 => String.eqb (ScoreEntry.name e0) player) l) eqn:E.
  - apply existsb_exists in E. destruct E as [e0 [He0 Hn0]].
    apply String.eqb_eq in Hn0. rewrite in_map_iff. split.
    + intros [e1 [<- He1]].
      destruct (String.eqb (ScoreEntry.name e1) player) eqn:E1.
      * apply String.eqb_eq in E1. right. split; [exact E1 |]. left.
        exists (ScoreEntry.score e1). split; [| reflexivity].
        rewrite <- E1. destruct e1; exact He1.
      * apply String.eqb_neq in E1. left. split; assumption.
    + intros [[Hne He] | [Hn [[old [Hold Hs]] | [Hnone _]]]].
      * exists e. apply String.eqb_neq in Hne. rewrite Hne. split; [reflexivity | exact He].
      * exists (ScoreEntry.mk player old). simpl. rewrite String.eqb_refl.
        split; [| exact Hold]. destruct e as [n v]. simpl in *. subst. reflexivity.
      * exfalso. apply (Hnone (ScoreEntry.score e0)). rewrite <- Hn0.
        destruct e0; exact He0.
  - assert (Hnone : forall e0, In e0 l -> ScoreEntry.name e0 <> player).
    { intros e0 He0 Hn. assert (Ht : existsb (fun e1 => String.eqb (ScoreEntry.name e1) player) l = true).
      { apply existsb_exists. exists e0. split; [exact He0 | apply String.eqb_eq, Hn]. }
      congruence. }
    rewrite in_app_iff. simpl. split.
    + intros [He | [<- | []]].
      * left. split; [apply Hnone; exact He | exact He].
      * right. split; [reflexivity |]. right. split; [| reflexivity].
        intros old Hold. apply (Hnone _ Hold). reflexivity.
    + intros [[Hne He] | [Hn [[old [Hold _]] | [_ Hs]]]].
      * left. exact He.
      * exfalso. apply (Hnone _ Hold). reflexivity.
      * right. left. destruct e as [n v]. simpl in *. subst. reflexivity.
Qed.

Lemma StronglySorted_firstn {A : Type} (R : A -> A -> Prop) (n : nat) (l : list A) :
  StronglySorted R l -> StronglySorted R (firstn n l).
Proof.
  revert n. induction l as [| a l IH]; intros n Hs.
  - rewrite firstn_nil. constructor.
  - destruct n as [| n]; [constructor |]. simpl.
    inversion Hs as [| ? ? Hl Ha]; subst. constructor; [apply IH; exact Hl |].
    apply Forall_forall. intros b Hb. apply firstn_incl in Hb.
    rewrite Forall_forall in Ha. apply Ha. exact Hb.
Qed.

Lemma NoDup_firstn {A : Type} (n : nat) (l : list A) :
  NoDup l -> NoDup (firstn n l).
Proof.
  revert n. induction l as [| a l IH]; intros n Hn.
  - rewrite firstn_nil. constructor.
  - destruct n as [| n]; [constructor |]. simpl.
    inversion Hn as [| ? ? Ha Hl]; subst. constructor; [| apply IH; exact Hl].
    intros Hin. apply Ha. apply firstn_incl in Hin. exact Hin.
Qed.

Lemma unique_names_same (l : list ScoreEntry.t) (e1 e2 : ScoreEntry.t) :
  unique_names l -> In e1 l -> In e2 l ->
  ScoreEntry.name e1 = ScoreEntry.name e2 -> e1 = e2.
Proof.
  unfold unique_names. induction l as [| e l IH]; intros Hu H1 H2 Hn; [destruct H1 |].
  simpl in Hu. inversion Hu as [| ? ? Hnot Hu']; subst.
  destruct H1 as [-> | H1], H2 as [-> | H2].
  - reflexivity.
  - exfalso. apply Hnot. rewrite Hn. apply in_map. exact H2.
  - exfalso. apply Hnot. rewrite <- Hn. apply in_map. exact H1.
  - apply IH; assumption.
Qed.

Section SaveToLeaderboard.
Context {sorter : StdSort}.

Lemma saveToLeaderboard_unfold (g : Game.t) :
  0 < Game.score g -> unique_names (Game.leaderboard g) ->
  Game.leaderboard (Game.saveToLeaderboard g)
    = firstn 10 (std_sort (upsert_max (Game.playerName g) (Game.score g)
                             (Game.leaderboard g)))
  /\ Game.files (Game.saveToLeaderboard g)
     = write_file (Game.files g) "scores.txt"
         (Game.score_lines
            (map Game.pair_of (Game.leaderboard (Game.saveToLeaderboard g)))).
Proof.
  intros Hs Hu. unfold Game.saveToLeaderboard.
  apply Z.ltb_lt in Hs. rewrite Hs.
  pose proof (update_entry_spec (Game.playerName g) (Game.score g)
                (Game.leaderboard g) Hu) as Hup.
  destruct (Game.update_entry _ _ _) as [updated playerExists].
  cbn [fst snd] in Hup. rewrite Hup.
  set (sorted := std_sort (upsert_max _ _ _)).
  assert (Hr : (if Game.MAX_LEADERBOARD_ENTRIES <? Z.of_nat (List.length sorted)
                then firstn (Z.to_nat Game.MAX_LEADERBOARD_ENTRIES) sorted
                else sorted) = firstn 10 sorted).
  { unfold Game.MAX_LEADERBOARD_ENTRIES.
    destruct (10 <? Z.of_nat (List.length sorted)) eqn:E; [reflexivity |].
    apply Z.ltb_ge in E. symmetry. apply firstn_all2. lia. }
  cbv zeta. fold sorted. rewrite Hr. split; reflexivity.
Qed.

End SaveToLeaderboard.

Lemma leaderboard_text_lines (l : list ScoreEntry.t) :
  Game.score_lines (map Game.pair_of l) = leaderboard_text l.
Proof.
  induction l as [| e l IH]; [reflexivity |].
  cbn [map leaderboard_text fold_right]. rewrite score_lines_cons.
  fold (leaderboard_text l). rewrite IH. unfold score_line, Game.pair_of.
  cbn [fst snd]. rewrite !string_app_assoc. reflexivity.
Qed.

(** The upsert keeps the entries fit for the file: names that are words and
    scores that are [int]s. *)
Lemma upsert_max_storable (player : string) (s : Z) (l : list ScoreEntry.t) :
  is_word player = true -> in_int_range s = true ->
  Forall storable (map Game.pair_of l) ->
  Forall storable (map Game.pair_of (upsert_max player s l)).
Proof.
  intros Hw Hs Hl. rewrite Forall_map in *. rewrite Forall_forall in *.
  intros e He. apply upsert_max_In in He.
  destruct He as [[_ He] | [Hn [[old [Hold Hsc]] | [_ Hsc]]]].
  - apply Hl, He.
  - split; simpl; [rewrite Hn; exact Hw |]. rewrite Hsc.
    apply in_int_range_max; [| exact Hs].
    apply (proj2 (Hl _ Hold)).
  - split; simpl; [rewrite Hn; exact Hw | rewrite Hsc; exact Hs].
Qed.

(** C6. For a score above 0 and a leaderboard with one entry per name,
    [saveToLeaderboard] leaves in memory the first ten entries of the sorted
    upsert: the player's entry with the higher of its old score and the new
    one (a new entry when there was none), every other entry as it was, in
    descending order of score; and scores.txt, when it can be opened, is
    rewritten to hold exactly these entries.  So a lower score leaves the
    player's entry at its old score and a higher one replaces it; the entry
    is certainly kept when the leaderboard had at most ten entries.

    The file is rewritten as a whole: whatever it held before, it then holds
    one line per entry of the new leaderboard, in its order, with the name,
    a blank, the score in decimal and a line feed, and no other file
    changes.  When the names are words and the scores [int]s, reading
    scores.txt back pair by pair gives the entries of the new leaderboard
    and nothing else.  A file that cannot be opened stays as it is. *)
Theorem saveToLeaderboard_spec (sorter : StdSort) (g : Game.t) :
  0 < Game.score g -> unique_names (Game.leaderboard g) ->
  let player := Game.playerName g in
  let s := Game.score g in
  let lb := Game.leaderboard g in
  let g' := Game.saveToLeaderboard g in
  let lb' := Game.leaderboard g' in
  lb' = firstn 10 (std_sort (upsert_max player s lb))
  /\ StronglySorted score_ge lb' /\ (List.length lb' <= 10)%nat
  /\ unique_names lb'
  /\ Game.files g'
     = write_file (Game.files g) "scores.txt" (Game.score_lines (map Game.pair_of lb'))
  /\ (writable (Game.files g) "scores.txt" = true ->
      open_read (Game.files g') "scores.txt"
      = Some (Game.score_lines (map Game.pair_of lb')))
  /\ (forall old, In (ScoreEntry.mk player old) lb ->
        (forall e, In e lb' -> ScoreEntry.name e = player ->
                   ScoreEntry.score e = Z.max old s)
        /\ ((List.length lb <= 10)%nat ->
            In (ScoreEntry.mk player (Z.max old s)) lb'))
  /\ (forall e, In e lb' -> ScoreEntry.name e <> player -> In e lb)
  /\ Game.score_lines (map Game.pair_of lb') = leaderboard_text lb'
  /\ (writable (Game.files g) "scores.txt" = true ->
      open_read (Game.files g') "scores.txt" = Some (leaderboard_text lb')
      /\ (forall path, path <> "scores.txt"%string ->
            open_read (Game.files g') path = open_read (Game.files g) path)
      /\ (is_word player = true -> in_int_range s = true ->
          Forall storable (map Game.pair_of lb) ->
          stored_pairs (Game.files g') "scores.txt" = map Game.pair_of lb'))
  /\ (writable (Game.files g) "scores.txt" = false ->
      Game.files g' = Game.files g).
Proof.
  intros Hs Hu player s lb g' lb'.
  destruct (saveToLeaderboard_unfold g Hs Hu) as [Hlb Hfiles].
  fold player s lb g' lb' in Hlb, Hfiles.
  assert (Hin : forall e, In e lb' -> In e (upsert_max player s lb)).
  { intros e He. rewrite Hlb in He. apply firstn_incl in He.
    apply (proj1 (std_sort_In _ _)) in He. exact He. }
  split; [exact Hlb |].
  split; [rewrite Hlb; apply StronglySorted_firstn, std_sort_sorted |].
  split; [rewrite Hlb; apply firstn_le_length |].
  split.
  { rewrite Hlb. unfold unique_names. rewrite <- firstn_map.
    apply NoDup_firstn. apply std_sort_unique, upsert_max_unique, Hu. }
  split; [exact Hfiles |].
  split.
  { intros Hw. rewrite Hfiles. unfold write_file, open_read. rewrite Hw. simpl.
    reflexivity. }
  split; [| split; [| split; [apply leaderboard_text_lines | split]]].
  - intros old Hold. split.
    + intros e He Hn. apply Hin in He. apply upsert_max_In in He.
      destruct He as [[Hne _] | [_ [[old' [Hold' Hsc]] | [Hnone _]]]].
      * destruct (Hne Hn).
      * assert (Heq : ScoreEntry.mk player old' = ScoreEntry.mk player old).
        { apply (unique_names_same lb); try assumption. reflexivity. }
        injection Heq as ->. exact Hsc.
      * destruct (Hnone old Hold).
    + intros Hlen. rewrite Hlb. rewrite firstn_all2.
      * apply (proj2 (std_sort_In _ _)). apply upsert_max_In. right. simpl.
        split; [reflexivity |]. left. exists old. split; [exact Hold | reflexivity].
      * rewrite std_sort_length.
        rewrite <- (length_map ScoreEntry.name), upsert_max_names.
        assert (Ht : existsb (fun e => String.eqb (ScoreEntry.name e) player) lb = true).
        { apply existsb_exists. exists (ScoreEntry.mk player old).
          split; [exact Hold | apply String.eqb_refl]. }
        rewrite Ht, length_map. exact Hlen.
  - intros e He Hne. apply Hin in He. apply upsert_max_In in He.
    destruct He as [[_ He] | [Hn _]]; [exact He | destruct (Hne Hn)].
  - intros Hw.
    assert (Hopen : open_read (Game.files g') "scores.txt"
                    = Some (Game.score_lines (map Game.pair_of lb'))).
    { rewrite Hfiles. apply write_file_same. exact Hw. }
    split; [rewrite Hopen, leaderboard_text_lines; reflexivity |].
    split.
    + intros path Hpath. rewrite Hfiles. unfold write_file, open_read.
      rewrite Hw. simpl. apply String.eqb_neq in Hpath. rewrite Hpath.
      reflexivity.
    + intros Hword Hrange Hall. unfold stored_pairs. rewrite Hopen.
      apply read_score_lines. rewrite Forall_map. apply Forall_forall.
      intros e He. apply Hin in He.
      pose proof (upsert_max_storable player s lb Hword Hrange Hall) as Hup.
      rewrite Forall_map, Forall_forall in Hup. apply Hup, He.
  - intros Hw. rewrite Hfiles. unfold write_file. rewrite Hw. reflexivity.
Qed.

(** The examples of the specification, through the theorem: with "bob" at 70
    and "ann" at 50, a game of "ann" that ends with 60 points leaves "bob 70"
    and "ann 60" in memory and as the two lines of scores.txt, which is read
    back as these two pairs; with "ann" at 50 and "bob" at 30, a game of
    "ann" that ends with 40 points leaves her entry at 50. *)
Lemma saveToLeaderboard_spec_witness :
  0 < Game.score (game_over_with 60 [("bob", 70); ("ann", 50)]%string)
  /\ unique_names (Game.leaderboard (game_over_with 60 [("bob", 70); ("ann", 50)]%string))
  /\ map Game.pair_of
       (Game.leaderboard
          (Game.saveToLeaderboard (sorter := insertion_sorter)
             (game_over_with 60 [("bob", 70); ("ann", 50)]%string)))
     = [("bob", 70); ("ann", 60)]%string
  /\ open_read
       (Game.files
          (Game.saveToLeaderboard (sorter := insertion_sorter)
             (game_over_with 60 [("bob", 70); ("ann", 50)]%string)))
       "scores.txt"
     = Some ("bob 70" ++ newline ++ "ann 60" ++ newline)%string
  /\ stored_pairs
       (Game.files
          (Game.saveToLeaderboard (sorter := insertion_sorter)
             (game_over_with 60 [("bob", 70); ("ann", 50)]%string)))
       "scores.txt"
     = [("bob", 70); ("ann", 60)]%string
  /\ 0 < Game.score (game_over_with 40 [("ann", 50); ("bob", 30)]%string)
  /\ In (ScoreEntry.mk "ann" 50)
        (Game.leaderboard
           (Game.saveToLeaderboard (sorter := insertion_sorter)
              (game_over_with 40 [("ann", 50); ("bob", 30)]%string))).
Proof.
  assert (Hu : unique_names
                 (Game.leaderboard (game_over_with 60 [("bob", 70); ("ann", 50)]%string))).
  { unfold unique_names. simpl. repeat constructor; simpl; intuition discriminate. }
  split; [reflexivity |]. split; [exact Hu |].
  pose proof (saveToLeaderboard_spec insertion_sorter
                (game_over_with 60 [("bob", 70); ("ann", 50)]%string)
                eq_refl Hu) as H.
  cbv zeta in H.
  destruct H as [Hlb [_ [_ [_ [_ [_ [_ [_ [_ [Hfile _]]]]]]]]]].
  destruct (Hfile eq_refl) as [Hopen [_ Hback]].
  split; [rewrite Hlb; vm_compute; reflexivity |].
  split; [rewrite Hopen, Hlb; vm_compute; reflexivity |].
  split.
  { rewrite Hback, Hlb; [vm_compute; reflexivity | reflexivity | reflexivity |].
    repeat constructor. }
  split; [reflexivity |].
  destruct (saveToLeaderboard_spec insertion_sorter
              (game_over_with 40 [("ann", 50); ("bob", 30)]%string))
    as [_ [_ [_ [_ [_ [_ [Hplayer _]]]]]]].
  - reflexivity.
  - unfold unique_names. simpl. repeat constructor; simpl; intuition discriminate.
  - destruct (Hplayer 50) as [_ Hkept].
    + left. reflexivity.
    + apply Hkept. simpl. lia.
Defined.

(** The examples of the specification: with "ann" at 50 and "bob" at 30 on
    the board, a game of "ann" that ends with 40 points leaves her at 50, and
    one that ends with 60 points puts her first with 60; with "bob" at 70
    she takes the second place.  The file is rewritten line by line. *)
Example saveToLeaderboard_examples :
  map Game.pair_of
      (Game.leaderboard
         (Game.saveToLeaderboard (sorter := insertion_sorter)
            (game_over_with 40 [("ann", 50); ("bob", 30)]%string)))
    = [("ann", 50); ("bob", 30)]%string
  /\ map Game.pair_of
       (Game.leaderboard
          (Game.saveToLeaderboard (sorter := insertion_sorter)
             (game_over_with 60 [("bob", 30); ("ann", 50)]%string)))
    = [("ann", 60); ("bob", 30)]%string
  /\ map Game.pair_of
       (Game.leaderboard
          (Game.saveToLeaderboard (sorter := insertion_sorter)
             (game_over_with 60 [("bob", 70); ("ann", 50)]%string)))
    = [("bob", 70); ("ann", 60)]%string
  /\ open_read
       (Game.files
          (Game.saveToLeaderboard (sorter := insertion_sorter)
             (game_over_with 60 [("bob", 70); ("ann", 50)]%string)))
       "scores.txt"
    = Some ("bob 70" ++ newline ++ "ann 60" ++ newline)%string
  /\ Game.saveToLeaderboard (sorter := insertion_sorter)
       (game_over_with 0 [("bob", 70)]%string)
    = game_over_with 0 [("bob", 70)]%string.
Proof. repeat split. Qed.

(** ** One entry per name, in every reachable state *)

Lemma some_eq {A : Type} (a b : A) : Some a = Some b -> a = b.
Proof. intros H. injection H as H. exact H. Qed.

Lemma generateFood_leaderboard (g g' : Game.t) :
  Game.generateFood g = Some g' -> Game.leaderboard g' = Game.leaderboard g.
Proof.
  intros H.
  destruct (generateFood_cases g) as [[_ H'] | [pos [_ H']]];
    rewrite H' in H; injection H as <-; reflexivity.
Qed.

Section UniqueNames.
Context {sorter : StdSort}.

Lemma saveToLeaderboard_unique (g : Game.t) :
  unique_names (Game.leaderboard g) ->
  unique_names (Game.leaderboard (Game.saveToLeaderboard g)).
Proof.
  intros Hu. destruct (Z.ltb_spec 0 (Game.score g)) as [Hs | Hs].
  - destruct (saveToLeaderboard_unfold g Hs Hu) as [-> _].
    unfold unique_names. rewrite <- firstn_map. apply NoDup_firstn.
    apply std_sort_unique, upsert_max_unique, Hu.
  - unfold Game.saveToLeaderboard.
    assert (E : (0 <? Game.score g) = false) by (apply Z.ltb_ge; exact Hs).
    rewrite E. exact Hu.
Qed.

Lemma savePersonalBest_leaderboard (g : Game.t) :
  Game.leaderboard (Game.savePersonalBest g) = Game.leaderboard g.
Proof.
  unfold Game.savePersonalBest.
  destruct (Game.score g <=? Game.personalBestScore g); [reflexivity |].
  cbv zeta.
  match goal with |- context [if ?c then _ else _] => destruct c end; reflexivity.
Qed.

Lemma changeState_unique (s : GameState) (g : Game.t) :
  unique_names (Game.leaderboard g) ->
  unique_names (Game.leaderboard (Game.changeState s g)).
Proof.
  intros Hu. unfold Game.changeState.
  destruct s; try exact Hu. apply loadLeaderboard_entries.
Qed.

Lemma reset_leaderboard (g g' : Game.t) :
  Game.reset g = Some g' -> Game.leaderboard g' = Game.leaderboard g.
Proof.
  unfold Game.reset.
  destruct (Game.generateFood (Game.initializeSnake g)) as [g1 |] eqn:E;
    [| discriminate].
  intros H. apply some_eq in H; subst g'. apply generateFood_leaderboard in E. exact E.
Qed.

Lemma tick_unique (g g' : Game.t) :
  unique_names (Game.leaderboard g) -> Game.tick g = Some g' ->
  unique_names (Game.leaderboard g').
Proof.
  intros Hu Ht. destruct (Game.snake g) as [| front body] eqn:Hs.
  { unfold Game.tick, Game.moveSnake in Ht. simpl in Ht. rewrite Hs in Ht.
    discriminate. }
  destruct (tick_unfold g front body Hs) as [b [_ [_ Ht']]].
  rewrite Ht in Ht'. destruct b.
  - assert (Hg : g' = Game.changeState GAME_OVER
                        (Game.savePersonalBest
                           (Game.saveToLeaderboard (moved g front))))
      by congruence.
    rewrite Hg. apply changeState_unique.
    rewrite savePersonalBest_leaderboard. apply saveToLeaderboard_unique. exact Hu.
  - destruct (Position_eqb _ _).
    + symmetry in Ht'. apply generateFood_leaderboard in Ht'.
      unfold unique_names. rewrite Ht'. exact Hu.
    + injection Ht' as ->. exact Hu.
Qed.

Lemma update_unique (deltaTime : F32.t) (g g' : Game.t) :
  unique_names (Game.leaderboard g) -> Game.update deltaTime g = Some g' ->
  unique_names (Game.leaderboard g').
Proof.
  intros Hu H. unfold Game.update in H.
  destruct (F32.leb _ _).
  - apply (tick_unique _ g') in H; [exact H | exact Hu].
  - apply some_eq in H; subst g'. exact Hu.
Qed.

Lemma handleInput_unique (inp : Input) (g g' : Game.t) :
  unique_names (Game.leaderboard g) -> Game.handleInput inp g = Some g' ->
  unique_names (Game.leaderboard g').
Proof.
  intros Hu H. unfold Game.handleInput in H.
  destruct (Game.currentState g).
  - (* MENU *)
    unfold Game.handleMenuInput in H.
    set (g1 := if IsKeyPressed inp KEY_DOWN || IsKeyPressed inp KEY_S
               then _ else g) in H.
    set (g2 := if IsKeyPressed inp KEY_UP || IsKeyPressed inp KEY_W
               then _ else g1) in H.
    assert (H2 : unique_names (Game.leaderboard g2)).
    { unfold g2, g1.
      destruct (IsKeyPressed inp KEY_DOWN || IsKeyPressed inp KEY_S);
        destruct (IsKeyPressed inp KEY_UP || IsKeyPressed inp KEY_W); exact Hu. }
    destruct (IsKeyPressed inp KEY_ENTER || IsKeyPressed inp KEY_SPACE);
      [| apply some_eq in H; subst g'; exact H2].
    destruct (Game.selectedMenuItem g2) as [| [[p | p |] | [p | p |] |] | p];
      try (apply some_eq in H; subst g'; exact H2);
      try (apply some_eq in H; subst g'; apply changeState_unique; exact H2).
    destruct (Game.reset g2) as [g3 |] eqn:Er; [| discriminate].
    apply some_eq in H; subst g'. apply changeState_unique.
    apply reset_leaderboard in Er. unfold unique_names. rewrite Er. exact H2.
  - (* PLAYING *)
    apply some_eq in H; subst g'. unfold Game.handleGameInput.
    repeat match goal with
           | |- context [if ?c then _ else _] => destruct c
           end;
      try exact Hu; apply changeState_unique; exact Hu.
  - (* PAUSED *)
    apply some_eq in H; subst g'.
    repeat match goal with
           | |- context [if ?c then _ else _] => destruct c
           end;
      try exact Hu; repeat apply changeState_unique; exact Hu.
  - (* GAME_OVER *)
    assert (H1 : forall g1,
               (if IsKeyPressed inp KEY_R
                then match Game.reset g with
                     | Some g0 => Some (Game.changeState PLAYING g0)
                     | None => None
                     end
                else Some g) = Some g1 -> unique_names (Game.leaderboard g1)).
    { intros g1. destruct (IsKeyPressed inp KEY_R).
      - destruct (Game.reset g) as [g0 |] eqn:Er; [| discriminate].
        intros E. apply some_eq in E. subst g1. apply changeState_unique.
        apply reset_leaderboard in Er. unfold unique_names. rewrite Er. exact Hu.
      - intros E. apply some_eq in E. subst g1. exact Hu. }
    destruct (if IsKeyPressed inp KEY_R then _ else Some g) as [g1 |];
      [| discriminate].
    specialize (H1 g1 eq_refl). apply some_eq in H; subst g'.
    repeat match goal with
           | |- context [if ?c then _ else _] => destruct c
           end;
      try exact H1; repeat apply changeState_unique; exact H1.
  - (* LEADERBOARD *)
    apply some_eq in H; subst g'. unfold Game.handleLeaderboardInput.
    destruct (_ || _); [apply changeState_unique |]; exact Hu.
  - (* SETTINGS *)
    apply some_eq in H; subst g'. unfold Game.handleSettingsInput.
    repeat match goal with
           | |- context [if ?c then _ else _] => destruct c
           end;
      try exact Hu; apply changeState_unique; exact Hu.
Qed.

Lemma frame_unique (inp : Input) (g g' : Game.t) :
  unique_names (Game.leaderboard g) -> Game.frame inp g = Some g' ->
  unique_names (Game.leaderboard g').
Proof.
  intros Hu H. unfold Game.frame in H.
  destruct (Game.handleInput inp g) as [g1 |] eqn:E1; [| discriminate].
  apply (handleInput_unique inp g g1 Hu) in E1.
  destruct (GameState_eqb (Game.currentState g1) PLAYING).
  - destruct (Game.update (GetFrameTime inp) g1) as [g2 |] eqn:E2; [| discriminate].
    apply (update_unique _ g1 g2 E1) in E2. apply some_eq in H; subst g'. exact E2.
  - apply some_eq in H; subst g'. exact E1.
Qed.

Lemma run_unique (inputs : list Input) (g g' : Game.t) :
  unique_names (Game.leaderboard g) -> Game.run inputs g = Some g' ->
  unique_names (Game.leaderboard g').
Proof.
  revert g. induction inputs as [| inp inputs IH]; intros g Hu H; simpl in H.
  - apply some_eq in H; subst g'. exact Hu.
  - destruct (negb (WindowShouldClose inp) && Game.gameRunning g).
    + destruct (Game.frame inp g) as [g1 |] eqn:E; [| discriminate].
      apply (IH g1); [| exact H]. apply (frame_unique inp g g1 Hu E).
    + apply some_eq in H; subst g'. exact Hu.
Qed.

Lemma construct_unique (env g : Game.t) :
  Game.construct env = Some g -> unique_names (Game.leaderboard g).
Proof.
  unfold Game.construct. intros H. apply reset_leaderboard in H.
  unfold unique_names. rewrite H.
  unfold Game.loadObstacles. destruct (open_read _ _); simpl;
    apply loadLeaderboard_entries.
Qed.

(** The leaderboard in memory never holds a name twice. *)
Lemma reachable_unique (g : Game.t) :
  reachable g -> unique_names (Game.leaderboard g).
Proof.
  intros [env [g0 [inputs [Hc Hr]]]].
  apply (run_unique inputs g0 g); [| exact Hr].
  apply (construct_unique env). exact Hc.
Qed.

End UniqueNames.

(** When the main loop calls [update], and so when [update] calls
    [saveToLeaderboard], the leaderboard holds one entry per name. *)
Lemma playing_state_unique {sorter : StdSort} (g : Game.t) :
  playing_state g -> unique_names (Game.leaderboard g).
Proof.
  intros [gk [inp [Hr [Hh _]]]].
  apply (handleInput_unique inp gk g); [| exact Hh].
  apply reachable_unique. exact Hr.
Qed.

(** ** binary32 rounding *)

Lemma digits2_pos_bounds (p : positive) :
  2 ^ (Zpos (digits2_pos p) - 1) <= Zpos p < 2 ^ Zpos (digits2_pos p).
Proof.
  induction p as [p IH | p IH |]; cbn [digits2_pos].
  - rewrite Pos2Z.inj_succ.
    replace (Z.succ (Zpos (digits2_pos p)) - 1) with (Z.succ (Zpos (digits2_pos p) - 1)) by lia.
    rewrite !Z.pow_succ_r by lia. lia.
  - rewrite Pos2Z.inj_succ.
    replace (Z.succ (Zpos (digits2_pos p)) - 1) with (Z.succ (Zpos (digits2_pos p) - 1)) by lia.
    rewrite !Z.pow_succ_r by lia. lia.
  - simpl. lia.
Qed.

Lemma digits2_pos_unique (p : positive) (d : Z) :
  2 ^ (d - 1) <= Zpos p < 2 ^ d -> Zpos (digits2_pos p) = d.
Proof.
  intros [Hlo Hhi]. pose proof (digits2_pos_bounds p) as [Blo Bhi].
  assert (Hd : 0 < d).
  { destruct (Z_lt_le_dec 0 d) as [H | H]; [exact H |].
    destruct (Z.eq_dec d 0) as [-> | Hne]; [simpl in Hhi; lia |].
    rewrite Z.pow_neg_r in Hhi by lia. lia. }
  destruct (Z_lt_le_dec (Zpos (digits2_pos p)) d) as [H1 | H1].
  - assert (2 ^ Zpos (digits2_pos p) <= 2 ^ (d - 1)) by (apply Z.pow_le_mono_r; lia). lia.
  - destruct (Z_lt_le_dec d (Zpos (digits2_pos p))) as [H2 | H2]; [| lia].
    assert (2 ^ d <= 2 ^ (Zpos (digits2_pos p) - 1)) by (apply Z.pow_le_mono_r; lia). lia.
Qed.

Lemma shr_1_m (mrs : shr_record) :
  0 <= shr_m mrs -> shr_m (shr_1 mrs) = shr_m mrs / 2.
Proof.
  destruct mrs as [m r s]. cbn [shr_m]. intros Hm. unfold shr_1.
  destruct m as [| p | p]; [reflexivity | | lia].
  destruct p as [p | p |]; cbn [shr_m].
  - apply Z.div_unique with (r := 1); lia.
  - apply Z.div_unique with (r := 0); lia.
  - reflexivity.
Qed.

Lemma iter_shr_1_m (n : positive) (mrs : shr_record) :
  0 <= shr_m mrs ->
  shr_m (SpecFloat.iter_pos shr_1 n mrs) = shr_m mrs / 2 ^ Zpos n.
Proof.
  revert mrs. induction n as [n IH | n IH |]; intros mrs Hm; cbn [SpecFloat.iter_pos].
  - assert (H1 : 0 <= shr_m (shr_1 mrs)).
    { rewrite shr_1_m by exact Hm. apply Z.div_pos; lia. }
    assert (H2 : 0 <= shr_m (SpecFloat.iter_pos shr_1 n (shr_1 mrs))).
    { rewrite IH by exact H1. apply Z.div_pos; [exact H1 | apply Z.pow_pos_nonneg; lia]. }
    rewrite IH by exact H2. rewrite IH by exact H1. rewrite shr_1_m by exact Hm.
    rewrite !Z.div_div by (try apply Z.pow_pos_nonneg; lia).
    f_equal. change 2 with (2 ^ 1) at 1.
    rewrite <- !Z.pow_add_r by lia. f_equal. lia.
  - assert (H2 : 0 <= shr_m (SpecFloat.iter_pos shr_1 n mrs)).
    { rewrite IH by exact Hm. apply Z.div_pos; [exact Hm | apply Z.pow_pos_nonneg; lia]. }
    rewrite IH by exact H2. rewrite IH by exact Hm.
    rewrite !Z.div_div by (try apply Z.pow_pos_nonneg; lia).
    f_equal. rewrite <- Z.pow_add_r by lia. f_equal. lia.
  - rewrite shr_1_m by exact Hm. reflexivity.
Qed.

Lemma shr_spec (mrs : shr_record) (e n : Z) :
  0 <= n -> 0 <= shr_m mrs ->
  shr_m (fst (shr mrs e n)) = shr_m mrs / 2 ^ n /\ snd (shr mrs e n) = e + n.
Proof.
  intros Hn Hm. unfold shr. destruct n as [| p | p]; cbn [fst snd].
  - rewrite Z.div_1_r. split; [reflexivity | lia].
  - split; [apply iter_shr_1_m; exact Hm | reflexivity].
  - lia.
Qed.

Lemma shr_record_of_loc_m (m : Z) (l : location) : shr_m (shr_record_of_loc m l) = m.
Proof. destruct l as [| []]; reflexivity. Qed.

Lemma round_nearest_even_bounds (m : Z) (l : location) :
  m <= round_nearest_even m l <= m + 1.
Proof.
  unfold round_nearest_even. destruct l as [| []]; try lia.
  destruct (Z.even m); lia.
Qed.

(** Rounding a positive number with at least 24 significant bits, in the
    normal range: the result is a normal number whose exponent is that of
    the leading bit, or one more after a carry. *)
Lemma binary_round_aux_normal (sx : bool) (M : positive) (E : Z) (l : location) :
  24 <= Zpos (digits2_pos M) ->
  -149 <= E + Zpos (digits2_pos M) - 24 ->
  exists m e,
    binary_round_aux 24 128 sx (Zpos M) E l
      = (if e <=? 104 then S754_finite sx m e else S754_infinity sx)
    /\ 2 ^ 23 <= Zpos m < 2 ^ 24
    /\ E + Zpos (digits2_pos M) - 24 <= e <= E + Zpos (digits2_pos M) - 23.
Proof.
  set (d := Zpos (digits2_pos M)). intros Hd HE.
  pose proof (digits2_pos_bounds M) as [Mlo Mhi]. fold d in Mlo, Mhi.
  unfold binary_round_aux, shr_fexp.
  change (Zdigits2 (Zpos M)) with d.
  assert (Hf1 : fexp 24 128 (d + E) - E = d - 24).
  { unfold fexp, emin. lia. }
  rewrite Hf1.
  destruct (shr_spec (shr_record_of_loc (Zpos M) l) E (d - 24)) as [Hm1 He1];
    [lia | rewrite shr_record_of_loc_m; lia |].
  rewrite shr_record_of_loc_m in Hm1.
  destruct (shr (shr_record_of_loc (Zpos M) l) E (d - 24)) as [mrs1 e1].
  cbn [fst snd] in Hm1, He1.
  assert (Hpow : 2 ^ d = 2 ^ 24 * 2 ^ (d - 24)).
  { rewrite <- Z.pow_add_r by lia. f_equal. lia. }
  assert (Hpow' : 2 ^ (d - 1) = 2 ^ 23 * 2 ^ (d - 24)).
  { rewrite <- Z.pow_add_r by lia. f_equal. lia. }
  assert (Hp : 0 < 2 ^ (d - 24)) by (apply Z.pow_pos_nonneg; lia).
  assert (Hm1b : 2 ^ 23 <= shr_m mrs1 < 2 ^ 24).
  { rewrite Hm1. split.
    - apply Z.div_le_lower_bound; lia.
    - apply Z.div_lt_upper_bound; lia. }
  pose proof (round_nearest_even_bounds (shr_m mrs1) (loc_of_shr_record mrs1)) as Hr.
  set (m2 := round_nearest_even (shr_m mrs1) (loc_of_shr_record mrs1)) in *.
  assert (Hm2 : 2 ^ 23 <= m2 <= 2 ^ 24) by lia.
  destruct m2 as [| q | q] eqn:Eq; [simpl in Hm2; lia | | lia].
  destruct (Z.eq_dec (Zpos q) (2 ^ 24)) as [Hcarry | Hno].
  - (* the mantissa was rounded up to 2^24 *)
    assert (Hq : Zpos q = 16777216) by (rewrite Hcarry; reflexivity).
    injection Hq as ->. cbn [Zdigits2 digits2_pos Pos.succ].
    assert (Hf2 : fexp 24 128 (25 + e1) - e1 = 1) by (unfold fexp, emin; lia).
    change (Zpos 25) with 25. rewrite Hf2. cbn [shr shr_record_of_loc SpecFloat.iter_pos shr_1 shr_m].
    exists 8388608%positive, (e1 + 1).
    split; [reflexivity |]. split; [simpl; lia | lia].
  - assert (Hdq : Zpos (digits2_pos q) = 24).
    { apply digits2_pos_unique. simpl (24 - 1). lia. }
    cbn [Zdigits2]. rewrite Hdq.
    assert (Hf2 : fexp 24 128 (24 + e1) - e1 = 0) by (unfold fexp, emin; lia).
    rewrite Hf2. cbn [shr shr_record_of_loc shr_m].
    exists q, e1. split; [reflexivity |]. split; lia.
Qed.

Lemma iter_xO (p s : positive) : Zpos (Pos.iter xO p s) = Zpos p * 2 ^ Zpos s.
Proof.
  induction s as [| s IH] using Pos.peano_ind.
  - simpl. lia.
  - rewrite Pos.iter_succ, Pos2Z.inj_xO, IH, Pos2Z.inj_succ, Z.pow_succ_r by lia. lia.
Qed.

Lemma binary_round_aux_sign (sx : bool) (mx ex : Z) (lx : location) :
  binary_round_aux 24 128 sx mx ex lx = S754_zero sx
  \/ binary_round_aux 24 128 sx mx ex lx = S754_infinity sx
  \/ binary_round_aux 24 128 sx mx ex lx = S754_nan
  \/ exists m e, binary_round_aux 24 128 sx mx ex lx = S754_finite sx m e.
Proof.
  unfold binary_round_aux.
  destruct (shr_fexp 24 128 mx ex lx) as [mrs1 e1].
  destruct (shr_fexp 24 128 _ e1 loc_Exact) as [mrs2 e2].
  destruct (shr_m mrs2) as [| m | m]; [tauto | | tauto].
  destruct (e2 <=? 128 - 24); [| tauto].
  right. right. right. exists m, e2. reflexivity.
Qed.

Lemma of_int_normal (k : positive) :
  Zpos k < 2 ^ 31 ->
  exists m e,
    F32.of_int (Zpos k) = S754_finite false m e
    /\ 2 ^ 23 <= Zpos m < 2 ^ 24
    /\ Zpos (digits2_pos k) - 24 <= e <= Zpos (digits2_pos k) - 23.
Proof.
  intros Hk. pose proof (digits2_pos_bounds k) as [Klo Khi].
  set (d := Zpos (digits2_pos k)) in *.
  assert (Hd : 1 <= d <= 31).
  { split; [unfold d; lia |].
    destruct (Z_lt_le_dec 31 d) as [H | H]; [| exact H].
    assert (2 ^ 31 <= 2 ^ (d - 1)) by (apply Z.pow_le_mono_r; lia). lia. }
  unfold F32.of_int, F32.prec, F32.emax, binary_normalize, binary_round. fold d.
  assert (Hf : fexp 24 128 (d + 0) = d - 24) by (unfold fexp, emin; lia).
  rewrite Hf. unfold shl_align.
  destruct (d - 24 - 0) as [| s | s] eqn:Es.
  - destruct (binary_round_aux_normal false k 0 loc_Exact) as [m [e [Hr [Hm He]]]];
      fold d; try lia.
    exists m, e. rewrite Hr. fold d in He.
    assert (Hle : (e <=? 104) = true) by (apply Z.leb_le; lia).
    rewrite Hle. repeat split; lia.
  - destruct (binary_round_aux_normal false k 0 loc_Exact) as [m [e [Hr [Hm He]]]];
      fold d; try lia.
    exists m, e. rewrite Hr. fold d in He.
    assert (Hle : (e <=? 104) = true) by (apply Z.leb_le; lia).
    rewrite Hle. repeat split; lia.
  - assert (Hs : Zpos s = 24 - d) by lia.
    assert (Hz : Zpos (Pos.iter xO k s) = Zpos k * 2 ^ (24 - d)).
    { rewrite iter_xO, Hs. reflexivity. }
    assert (Hp : 2 ^ 24 = 2 ^ d * 2 ^ (24 - d)).
    { rewrite <- Z.pow_add_r by lia. f_equal. lia. }
    assert (Hp' : 2 ^ 23 = 2 ^ (d - 1) * 2 ^ (24 - d)).
    { rewrite <- Z.pow_add_r by lia. f_equal. lia. }
    assert (Hpos : 0 < 2 ^ (24 - d)) by (apply Z.pow_pos_nonneg; lia).
    assert (Hdz : Zpos (digits2_pos (Pos.iter xO k s)) = 24).
    { apply digits2_pos_unique. rewrite Hz. simpl (24 - 1). rewrite Hp, Hp'. nia. }
    destruct (binary_round_aux_normal false (Pos.iter xO k s) (d - 24) loc_Exact)
      as [m [e [Hr [Hm He]]]]; rewrite ?Hdz; try lia.
    exists m, e. rewrite Hr. rewrite Hdz in He.
    assert (Hle : (e <=? 104) = true) by (apply Z.leb_le; lia).
    rewrite Hle. repeat split; lia.
Qed.

Lemma mul_step_normal (m : positive) (e : Z) :
  2 ^ 23 <= Zpos m < 2 ^ 24 -> -100 <= e <= 100 ->
  exists m' e',
    F32.mul (S754_finite false m e) (F32.literal 2 100) = S754_finite false m' e'
    /\ 2 ^ 23 <= Zpos m' < 2 ^ 24 /\ e - 6 <= e'.
Proof.
  intros Hm He.
  change (F32.literal 2 100) with (S754_finite false 10737418 (-29)).
  unfold F32.mul, F32.prec, F32.emax. cbn [SFmul xorb].
  pose proof (digits2_pos_bounds (m * 10737418)) as [Plo Phi].
  set (d := Zpos (digits2_pos (m * 10737418))) in *.
  assert (Hprod : 2 ^ 46 <= Zpos (m * 10737418) < 2 ^ 48).
  { rewrite Pos2Z.inj_mul. change (2 ^ 46) with (2 ^ 23 * 2 ^ 23).
    change (2 ^ 48) with (2 ^ 24 * 2 ^ 24). change (2 ^ 23) with 8388608 in *.
    change (2 ^ 24) with 16777216 in *. nia. }
  assert (Hd : 47 <= d <= 48).
  { split.
    - destruct (Z_lt_le_dec d 47) as [H | H]; [| exact H].
      assert (2 ^ d <= 2 ^ 46) by (apply Z.pow_le_mono_r; lia). lia.
    - destruct (Z_lt_le_dec 48 d) as [H | H]; [| exact H].
      assert (2 ^ 48 <= 2 ^ (d - 1)) by (apply Z.pow_le_mono_r; lia). lia. }
  destruct (binary_round_aux_normal false (m * 10737418) (e + -29) loc_Exact)
    as [m' [e' [Hr [Hm' He']]]]; fold d; try lia.
  fold d in He'. exists m', e'. rewrite Hr.
  assert (Hle : (e' <=? 104) = true) by (apply Z.leb_le; lia).
  rewrite Hle. repeat split; lia.
Qed.

Lemma shl_align_same (mx : positive) (ex : Z) : shl_align mx ex ex = (mx, ex).
Proof. unfold shl_align. rewrite Z.sub_diag. reflexivity. Qed.

Lemma shl_align_lower (mx : positive) (ex ez : Z) :
  ez < ex -> Zpos (fst (shl_align mx ex ez)) = Zpos mx * 2 ^ (ex - ez).
Proof.
  intros H. unfold shl_align.
  destruct (ez - ex) as [| s | s] eqn:Es; try lia.
  cbn [fst]. rewrite iter_xO. f_equal. f_equal. lia.
Qed.

Lemma sub_below (m : positive) (e : Z) :
  2 ^ 23 <= Zpos m -> -25 <= e ->
  F32.ltb (F32.literal 5 100)
    (F32.sub (F32.literal 15 100) (S754_finite false m e)) = false.
Proof.
  intros Hm He.
  change (F32.literal 15 100) with (S754_finite false 10066330 (-26)).
  change (F32.literal 5 100) with (S754_finite false 13421773 (-28)).
  unfold F32.ltb, F32.sub, F32.prec, F32.emax, SFsub. cbv zeta.
  assert (Hmin : Z.min (-26) e = -26) by lia. rewrite Hmin.
  rewrite shl_align_same. cbn [fst cond_Zopp].
  pose proof (shl_align_lower m e (-26)) as Hz.
  assert (Hs : 2 <= 2 ^ (e - -26)).
  { change 2 with (2 ^ 1) at 1. apply Z.pow_le_mono_r; lia. }
  change (2 ^ 23) with 8388608 in Hm.
  destruct (Zpos 10066330 - Zpos (fst (shl_align m e (-26)))) as [| q | q] eqn:Ed;
    try nia.
  cbn [binary_normalize]. unfold binary_round.
  match goal with
  | |- context [shl_align ?a ?b ?c] => destruct (shl_align a b c) as [mz ez]
  end.
  destruct (binary_round_aux_sign true (Zpos mz) ez loc_Exact)
    as [-> | [-> | [-> | [m' [e' ->]]]]]; reflexivity.
Qed.


(** ** C8: calculateSpeed and getDifficultyLevel *)

Lemma calculateSpeed_step (g : Game.t) :
  Game.calculateSpeed g = speed_step (Z.quot (Game.score g) 30).
Proof. reflexivity. Qed.

(** From step 16 on the product exceeds 0.15, the difference is negative and
    the maximum is the lower limit. *)
Lemma speed_step_far (k : Z) :
  16 <= k < 2 ^ 31 -> speed_step k = F32.literal 5 100.
Proof.
  intros [Hlo Hhi]. destruct k as [| k | k]; try lia.
  destruct (of_int_normal k Hhi) as [m [e [Hk [Hm He]]]].
  assert (Hd : 5 <= Zpos (digits2_pos k)).
  { pose proof (digits2_pos_bounds k) as [_ Khi].
    destruct (Z_lt_le_dec (Zpos (digits2_pos k)) 5) as [H | H]; [| exact H].
    assert (2 ^ Zpos (digits2_pos k) <= 2 ^ 4) by (apply Z.pow_le_mono_r; lia).
    change (2 ^ 4) with 16 in *. lia. }
  assert (Hd' : Zpos (digits2_pos k) <= 31).
  { pose proof (digits2_pos_bounds k) as [Klo _].
    destruct (Z_lt_le_dec 31 (Zpos (digits2_pos k))) as [H | H]; [| lia].
    assert (2 ^ 31 <= 2 ^ (Zpos (digits2_pos k) - 1)) by (apply Z.pow_le_mono_r; lia).
    lia. }
  destruct (mul_step_normal m e Hm) as [m' [e' [Hp [Hm' He']]]]; [lia |].
  unfold speed_step, F32.max. rewrite Hk, Hp.
  rewrite sub_below by lia. reflexivity.
Qed.

(** The lower limit is reached at step 6. *)
Lemma speed_step_low (k : Z) :
  6 <= k < 2 ^ 31 -> speed_step k = F32.literal 5 100.
Proof.
  intros [Hlo Hhi]. destruct (Z_lt_le_dec k 16) as [H | H].
  - assert (Hk : k = 6 \/ k = 7 \/ k = 8 \/ k = 9 \/ k = 10 \/ k = 11 \/ k = 12
                 \/ k = 13 \/ k = 14 \/ k = 15) by lia.
    repeat (destruct Hk as [-> | Hk]; [vm_compute; reflexivity |]).
    subst k. vm_compute. reflexivity.
  - apply speed_step_far. lia.
Qed.

Lemma small_step (k : Z) :
  0 <= k < 6 -> k = 0 \/ k = 1 \/ k = 2 \/ k = 3 \/ k = 4 \/ k = 5.
Proof. lia. Qed.

Lemma speed_step_monotone (k1 k2 : Z) :
  0 <= k1 <= k2 -> k2 < 2 ^ 31 ->
  F32.leb (speed_step k2) (speed_step k1) = true.
Proof.
  intros [H0 H12] Hhi.
  destruct (Z_lt_le_dec k2 6) as [H2 | H2].
  - destruct (small_step k1) as [-> | [-> | [-> | [-> | [-> | ->]]]]]; [lia | | | | | |];
      (destruct (small_step k2) as [-> | [-> | [-> | [-> | [-> | ->]]]]]; [lia | | | | | |]);
      try lia; vm_compute; reflexivity.
  - rewrite (speed_step_low k2) by lia.
    destruct (Z_lt_le_dec k1 6) as [H1 | H1].
    + destruct (small_step k1) as [-> | [-> | [-> | [-> | [-> | ->]]]]]; [lia | | | | | |];
        vm_compute; reflexivity.
    + rewrite (speed_step_low k1) by lia. vm_compute. reflexivity.
Qed.

Lemma speed_step_close (k : Z) :
  0 <= k < 2 ^ 31 ->
  (Qabs (float_value (speed_step k)
         - Qmax (5 # 100) ((15 # 100) - inject_Z k * (2 # 100)))
   <= 1 # (2 ^ 26))%Q.
Proof.
  intros [H0 Hhi]. destruct (Z_lt_le_dec k 6) as [H | H].
  - destruct (small_step k) as [-> | [-> | [-> | [-> | [-> | ->]]]]]; [lia | | | | | |];
      apply Qle_bool_iff; vm_compute; reflexivity.
  - rewrite (speed_step_low k) by lia.
    assert (Hmax : ((15 # 100) - inject_Z k * (2 # 100) <= 5 # 100)%Q).
    { assert (H6 : (inject_Z 6 <= inject_Z k)%Q) by (rewrite <- Zle_Qle; exact H).
      change (inject_Z 6) with (6 # 1)%Q in H6.
      generalize dependent (inject_Z k). intros q Hq. lra. }
    rewrite (Q.max_l _ _ Hmax). apply Qle_bool_iff. vm_compute. reflexivity.
Qed.

(** C8 (amended).  For a score between 0 and INT_MAX, [calculateSpeed] is
    the binary32 evaluation of max(0.05, 0.15 - floor(score / 30) * 0.02): it
    lies within 2^-26 of that number.  It is exactly the binary32 0.15 at
    score 0 and exactly the binary32 0.05 from score 180 on; at score 30 it
    is 8724153 * 2^-26 = 0.130000010..., the binary32 number next above the
    one nearest to 0.13.  It never increases with the score.
    [getDifficultyLevel] is floor(score / 50) + 1.  Both depend on the score
    alone. *)
Theorem speed_and_level (g : Game.t) :
  0 <= Game.score g <= INT_MAX ->
  (Qabs (float_value (Game.calculateSpeed g) - ideal_speed (Game.score g))
   <= 1 # (2 ^ 26))%Q
  /\ (Game.score g = 0 -> Game.calculateSpeed g = F32.literal 15 100)
  /\ (Game.score g = 30 ->
      Game.calculateSpeed g = S754_finite false 8724153 (-26))
  /\ (180 <= Game.score g -> Game.calculateSpeed g = F32.literal 5 100)
  /\ (forall g' : Game.t,
        Game.score g <= Game.score g' <= INT_MAX ->
        F32.leb (Game.calculateSpeed g') (Game.calculateSpeed g) = true)
  /\ Game.getDifficultyLevel g = Game.score g / 50 + 1
  /\ (forall g' : Game.t,
        Game.score g' = Game.score g ->
        Game.calculateSpeed g' = Game.calculateSpeed g
        /\ Game.getDifficultyLevel g' = Game.getDifficultyLevel g).
Proof.
  unfold INT_MAX. intros [H0 Hmax].
  assert (Hq : forall s, 0 <= s <= 2147483647 ->
                         Z.quot s 30 = s / 30 /\ 0 <= s / 30 < 2 ^ 31).
  { intros s Hs. rewrite Z.quot_div_nonneg by lia. split; [reflexivity |].
    split; [apply Z.div_pos; lia |].
    apply Z.div_lt_upper_bound; [lia |]. change (2 ^ 31) with 2147483648. lia. }
  destruct (Hq _ (conj H0 Hmax)) as [Hquot Hk].
  rewrite !calculateSpeed_step, Hquot.
  split; [apply speed_step_close; exact Hk |].
  split; [intros E; rewrite E; reflexivity |].
  split; [intros E; rewrite E; vm_compute; reflexivity |].
  split.
  { intros H180. apply speed_step_low. split; [| lia].
    apply Z.div_le_lower_bound; lia. }
  split.
  { intros g' [Hle Hmax']. rewrite calculateSpeed_step.
    destruct (Hq (Game.score g')) as [Hquot' Hk']; [lia |].
    rewrite Hquot'. apply speed_step_monotone; [| lia].
    split; [lia |]. apply Z.div_le_mono; lia. }
  split.
  { unfold Game.getDifficultyLevel. rewrite Z.quot_div_nonneg by lia.
    apply wrap_int_small. unfold INT_MIN, INT_MAX.
    assert (0 <= Game.score g / 50) by (apply Z.div_pos; lia).
    assert (Game.score g / 50 < 2147483647)
      by (apply Z.div_lt_upper_bound; lia).
    lia. }
  intros g' E. unfold Game.getDifficultyLevel.
  rewrite calculateSpeed_step, E, Hquot. split; reflexivity.
Qed.

Lemma speed_and_level_witness :
  0 <= Game.score (game_with_score 300) <= INT_MAX
  /\ Game.calculateSpeed (game_with_score 300) = F32.literal 5 100
  /\ Game.getDifficultyLevel (game_with_score 300) = 7.
Proof.
  split; [unfold INT_MAX; simpl; lia |].
  destruct (speed_and_level (game_with_score 300))
    as [_ [_ [_ [Hmin [_ [Hlevel _]]]]]].
  - unfold INT_MAX. simpl. lia.
  - split; [apply Hmin; simpl; lia | rewrite Hlevel; reflexivity].
Defined.

(** At score 30 the interval is not the binary32 number 0.13: it is the next
    one above it.  At score 150, where the exact formula reaches its lower
    limit 0.05, the computed interval is still three units in the last place
    above the lower limit. *)
Lemma calculateSpeed_30_is_not_0_13 :
  Game.calculateSpeed (game_with_score 30) = S754_finite false 8724153 (-26)
  /\ F32.literal 13 100 = S754_finite false 8724152 (-26)
  /\ SFeqb (Game.calculateSpeed (game_with_score 30)) (F32.literal 13 100) = false
  /\ Qeq_bool (float_value (Game.calculateSpeed (game_with_score 30))) (13 # 100)
     = false
  /\ Game.calculateSpeed (game_with_score 150) = S754_finite false 13421776 (-28)
  /\ F32.literal 5 100 = S754_finite false 13421773 (-28).
Proof. repeat split. Qed.

(** * Further properties of the game *)

(** ** What each method leaves of the state

    A method that reads or writes a file changes few members; the equations
    below give its result as the argument with those members replaced. *)

Section Shapes.
Context {sorter : StdSort}.

Lemma loadLeaderboard_shape (g : Game.t) :
  Game.loadLeaderboard g
  = Game.set_leaderboard (Game.leaderboard (Game.loadLeaderboard g)) g.
Proof.
  unfold Game.loadLeaderboard. destruct (open_read _ _); reflexivity.
Qed.

Lemma changeState_shape (s : GameState) (g : Game.t) :
  Game.changeState s g
  = Game.set_leaderboard (Game.leaderboard (Game.changeState s g))
      (Game.set_selectedMenuItem 0 (Game.set_currentState s g)).
Proof.
  unfold Game.changeState.
  destruct s; try (destruct g; reflexivity).
  apply loadLeaderboard_shape.
Qed.

Lemma saveToLeaderboard_shape (g : Game.t) :
  Game.saveToLeaderboard g
  = Game.set_files (Game.files (Game.saveToLeaderboard g))
      (Game.set_leaderboard (Game.leaderboard (Game.saveToLeaderboard g)) g).
Proof.
  unfold Game.saveToLeaderboard.
  destruct (0 <? Game.score g); [| destruct g; reflexivity].
  destruct (Game.update_entry _ _ _) as [updated playerExists].
  reflexivity.
Qed.

Lemma savePersonalBest_shape (g : Game.t) :
  Game.savePersonalBest g
  = Game.set_overallHighestScore (Game.overallHighestScore (Game.savePersonalBest g))
      (Game.set_personalBestScore (Game.personalBestScore (Game.savePersonalBest g))
         (Game.set_files (Game.files (Game.savePersonalBest g)) g)).
Proof.
  unfold Game.savePersonalBest.
  destruct (Game.score g <=? Game.personalBestScore g); [destruct g; reflexivity |].
  cbv zeta.
  match goal with |- context [if ?c then _ else _] => destruct c end; reflexivity.
Qed.

Lemma generateFood_shape (g g' : Game.t) :
  Game.generateFood g = Some g' ->
  g' = g
  \/ exists pos, In pos (Game.emptyPositions g)
       /\ g' = Game.set_food pos (Game.set_rand_calls (S (Game.rand_calls g)) g).
Proof.
  intros H.
  destruct (generateFood_cases g) as [[_ H'] | [pos [Hin H']]];
    rewrite H' in H; apply some_eq in H; subst g'.
  - left. reflexivity.
  - right. exists pos. split; [exact Hin | reflexivity].
Qed.

Lemma reset_shape (g g' : Game.t) :
  Game.reset g = Some g' ->
  exists g1, Game.generateFood (Game.initializeSnake g) = Some g1
    /\ g' = Game.set_animationTimer F32.zero
              (Game.set_moveTimer F32.zero (Game.set_score 0 g1)).
Proof.
  unfold Game.reset.
  destruct (Game.generateFood (Game.initializeSnake g)) as [g1 |]; [| discriminate].
  intros H. apply some_eq in H. exists g1. split; [reflexivity | symmetry; exact H].
Qed.

(** A member that the replaced members do not reach is the same before and
    after the call. *)
Lemma changeState_proj {A : Type} (f : Game.t -> A) (s : GameState) (g : Game.t) :
  (forall st sel lb g0,
      f (Game.set_leaderboard lb
           (Game.set_selectedMenuItem sel (Game.set_currentState st g0))) = f g0) ->
  f (Game.changeState s g) = f g.
Proof. intros H. rewrite changeState_shape. apply H. Qed.

Lemma saveToLeaderboard_proj {A : Type} (f : Game.t -> A) (g : Game.t) :
  (forall fs lb g0, f (Game.set_files fs (Game.set_leaderboard lb g0)) = f g0) ->
  f (Game.saveToLeaderboard g) = f g.
Proof. intros H. rewrite saveToLeaderboard_shape. apply H. Qed.

Lemma savePersonalBest_proj {A : Type} (f : Game.t -> A) (g : Game.t) :
  (forall hs pb fs g0,
      f (Game.set_overallHighestScore hs
           (Game.set_personalBestScore pb (Game.set_files fs g0))) = f g0) ->
  f (Game.savePersonalBest g) = f g.
Proof. intros H. rewrite savePersonalBest_shape. apply H. Qed.

Lemma changeState_selected (s : GameState) (g : Game.t) :
  Game.selectedMenuItem (Game.changeState s g) = 0.
Proof. rewrite changeState_shape. reflexivity. Qed.

End Shapes.

(** Takes the members read in the goal through the calls of [changeState],
    [saveToLeaderboard] and [savePersonalBest] that leave them alone. *)
Ltac member f :=
  lazymatch type of f with
  | Game.t -> Game.t => fail
  | Game.t -> _ => idtac
  end.

Ltac expose :=
  repeat first
    [ rewrite changeState_state
    | rewrite changeState_selected
    | match goal with
      | |- context [?f (Game.changeState ?s ?g)] =>
          member f;
          let E := fresh "E" in
          assert (E : f (Game.changeState s g) = f g)
            by (apply changeState_proj; intros; reflexivity);
          rewrite E; clear E
      | |- context [?f (Game.saveToLeaderboard ?g)] =>
          member f;
          let E := fresh "E" in
          assert (E : f (Game.saveToLeaderboard g) = f g)
            by (apply saveToLeaderboard_proj; intros; reflexivity);
          rewrite E; clear E
      | |- context [?f (Game.savePersonalBest ?g)] =>
          member f;
          let E := fresh "E" in
          assert (E : f (Game.savePersonalBest g) = f g)
            by (apply savePersonalBest_proj; intros; reflexivity);
          rewrite E; clear E
      end ].

(** ** A pass of the main loop is a sequence of actions *)

Section Actions.
Context {sorter : StdSort}.

Lemma actions_one (g g' : Game.t) : action g g' -> actions g g'.
Proof. intros H. eapply actions_next; [exact H | apply actions_none]. Qed.

Lemma actions_trans (g1 g2 g3 : Game.t) :
  actions g1 g2 -> actions g2 g3 -> actions g1 g3.
Proof.
  induction 1 as [| a b c Hab Hbc IH]; intros H; [exact H |].
  eapply actions_next; [exact Hab | apply IH; exact H].
Qed.

Lemma actions_then (g1 g2 g3 : Game.t) :
  actions g1 g2 -> action g2 g3 -> actions g1 g3.
Proof. intros H1 H2. eapply actions_trans; [exact H1 | apply actions_one, H2]. Qed.

Lemma handleMenuInput_actions (inp : Input) (g g' : Game.t) :
  Game.currentState g = MENU ->
  Game.handleMenuInput inp g = Some g' -> actions g g'.
Proof.
  intros Hst. unfold Game.handleMenuInput.
  set (g1 := if IsKeyPressed inp KEY_DOWN || IsKeyPressed inp KEY_S
             then _ else g).
  set (g2 := if IsKeyPressed inp KEY_UP || IsKeyPressed inp KEY_W
             then _ else g1).
  assert (H1 : actions g g1 /\ Game.currentState g1 = MENU).
  { unfold g1. destruct (IsKeyPressed inp KEY_DOWN || IsKeyPressed inp KEY_S).
    - split; [apply actions_one, act_menu_down; exact Hst | exact Hst].
    - split; [apply actions_none | exact Hst]. }
  destruct H1 as [H1 Hst1].
  assert (H2 : actions g g2 /\ Game.currentState g2 = MENU).
  { unfold g2. destruct (IsKeyPressed inp KEY_UP || IsKeyPressed inp KEY_W).
    - split; [| exact Hst1].
      eapply actions_then; [exact H1 | apply act_menu_up; exact Hst1].
    - split; [exact H1 | exact Hst1]. }
  destruct H2 as [H2 Hst2]. clearbody g2. clear H1 Hst1 g1.
  destruct (IsKeyPressed inp KEY_ENTER || IsKeyPressed inp KEY_SPACE);
    [| intros H; apply some_eq in H; subst g'; exact H2].
  destruct (Game.selectedMenuItem g2) as [| [[p | p |] | [p | p |] |] | p];
    try (intros H; apply some_eq in H; subst g'; exact H2).
  - destruct (Game.reset g2) as [g3 |] eqn:Er; [| discriminate].
    intros H. apply some_eq in H; subst g'.
    eapply actions_then; [exact H2 |].
    apply act_start; [left; exact Hst2 | exact Er].
  - intros H. apply some_eq in H; subst g'.
    eapply actions_then; [exact H2 | apply act_exit; exact Hst2].
  - intros H. apply some_eq in H; subst g'.
    eapply actions_then; [exact H2 | apply act_show; tauto].
  - intros H. apply some_eq in H; subst g'.
    eapply actions_then; [exact H2 | apply act_show; tauto].
Qed.

Lemma Direction_eqb_false (a b : Direction) :
  negb (Direction_eqb a b) = true -> a <> b.
Proof. destruct a, b; simpl; intros H E; discriminate. Qed.

Lemma turn_actions (c : bool) (d : Direction) (g0 g1 : Game.t) :
  actions g0 g1 /\ Game.currentState g1 = PLAYING ->
  actions g0 (if c && negb (Direction_eqb (Game.currentDirection g1) (opposite d))
              then Game.set_nextDirection d g1 else g1)
  /\ Game.currentState
       (if c && negb (Direction_eqb (Game.currentDirection g1) (opposite d))
        then Game.set_nextDirection d g1 else g1) = PLAYING.
Proof.
  intros [H01 H1].
  destruct (c && negb (Direction_eqb (Game.currentDirection g1) (opposite d)))
    eqn:E; [| split; assumption].
  apply andb_prop in E. destruct E as [_ E]. apply Direction_eqb_false in E.
  split; [| exact H1].
  eapply actions_then; [exact H01 | apply act_turn; assumption].
Qed.

Lemma handleGameInput_actions (inp : Input) (g : Game.t) :
  Game.currentState g = PLAYING -> actions g (Game.handleGameInput inp g).
Proof.
  intros Hst. unfold Game.handleGameInput.
  destruct (IsKeyPressed inp KEY_P || IsKeyPressed inp KEY_SPACE).
  { apply actions_one, act_pause, Hst. }
  destruct (IsKeyPressed inp KEY_Q || IsKeyPressed inp KEY_ESCAPE).
  { apply actions_one, act_show. tauto. }
  cbv zeta.
  match goal with
  | |- actions ?a ?b =>
      cut (actions a b /\ Game.currentState b = PLAYING); [tauto |]
  end.
  apply (turn_actions _ RIGHT). apply (turn_actions _ LEFT).
  apply (turn_actions _ DOWN). apply (turn_actions _ UP).
  split; [apply actions_none | exact Hst].
Qed.

Lemma handleInput_actions (inp : Input) (g g' : Game.t) :
  Game.handleInput inp g = Some g' -> actions g g'.
Proof.
  unfold Game.handleInput. destruct (Game.currentState g) eqn:Hst.
  - apply handleMenuInput_actions. exact Hst.
  - intros H. apply some_eq in H; subst g'. apply handleGameInput_actions, Hst.
  - (* PAUSED *)
    intros H. apply some_eq in H; subst g'.
    destruct (IsKeyPressed inp KEY_P || IsKeyPressed inp KEY_SPACE);
      destruct (IsKeyPressed inp KEY_Q || IsKeyPressed inp KEY_ESCAPE).
    + eapply actions_next; [apply act_resume; exact Hst |].
      apply actions_one, act_show. tauto.
    + apply actions_one, act_resume, Hst.
    + apply actions_one, act_show. tauto.
    + apply actions_none.
  - (* GAME_OVER *)
    assert (H1 : forall g1,
               (if IsKeyPressed inp KEY_R
                then match Game.reset g with
                     | Some g0 => Some (Game.changeState PLAYING g0)
                     | None => None
                     end
                else Some g) = Some g1 -> actions g g1).
    { intros g1. destruct (IsKeyPressed inp KEY_R).
      - destruct (Game.reset g) as [g0 |] eqn:Er; [| discriminate].
        intros E. apply some_eq in E. subst g1.
        apply actions_one, act_start; [right; exact Hst | exact Er].
      - intros E. apply some_eq in E. subst g1. apply actions_none. }
    destruct (if IsKeyPressed inp KEY_R then _ else Some g) as [g1 |];
      [| discriminate].
    specialize (H1 g1 eq_refl). intros H. apply some_eq in H; subst g'.
    destruct (IsKeyPressed inp KEY_Q || IsKeyPressed inp KEY_ESCAPE);
      destruct (IsKeyPressed inp KEY_L).
    + eapply actions_then; [| apply act_show; tauto].
      eapply actions_then; [exact H1 | apply act_show; tauto].
    + eapply actions_then; [exact H1 | apply act_show; tauto].
    + eapply actions_then; [exact H1 | apply act_show; tauto].
    + exact H1.
  - (* LEADERBOARD *)
    intros H. apply some_eq in H; subst g'. unfold Game.handleLeaderboardInput.
    destruct (_ || _); [apply actions_one, act_show; tauto | apply actions_none].
  - (* SETTINGS *)
    intros H. apply some_eq in H; subst g'. unfold Game.handleSettingsInput.
    destruct (IsKeyPressed inp KEY_ENTER || IsKeyPressed inp KEY_SPACE);
      destruct (IsKeyPressed inp KEY_ESCAPE || IsKeyPressed inp KEY_Q).
    + eapply actions_next; [apply act_toggle; exact Hst |].
      eapply actions_next; [apply act_saveSettings; exact Hst |].
      apply actions_one, act_show. tauto.
    + apply actions_one, act_toggle, Hst.
    + eapply actions_next; [apply act_saveSettings; exact Hst |].
      apply actions_one, act_show. tauto.
    + apply actions_none.
Qed.

Lemma tick_actions (g g' : Game.t) :
  Game.currentState g = PLAYING -> Game.tick g = Some g' -> actions g g'.
Proof.
  intros Hst Ht. destruct (Game.snake g) as [| front body] eqn:Hs.
  { unfold Game.tick, Game.moveSnake in Ht. simpl in Ht. rewrite Hs in Ht.
    discriminate. }
  destruct (tick_unfold g front body Hs) as [b [_ [Hiff Ht']]].
  rewrite Ht in Ht'. destruct b.
  - apply some_eq in Ht'. subst g'.
    apply actions_one, (act_collide g front body Hst Hs).
    apply Hiff. reflexivity.
  - assert (Hfree : ~ hits (Game.advance (Game.nextDirection g) front)
                      (front :: body) (Game.obstacles g)).
    { intros Hh. apply Hiff in Hh. discriminate. }
    destruct (Position_eqb _ _) eqn:Ef.
    + apply Position_eqb_eq in Ef.
      apply actions_one, (act_eat g front body g' Hst Hs Hfree Ef).
      symmetry. exact Ht'.
    + apply Position_eqb_neq in Ef. apply some_eq in Ht'. subst g'.
      apply actions_one, (act_move g front body Hst Hs Hfree Ef).
Qed.

Lemma update_actions (deltaTime : F32.t) (g g' : Game.t) :
  Game.currentState g = PLAYING -> Game.update deltaTime g = Some g' ->
  actions g g'.
Proof.
  intros Hst. unfold Game.update.
  destruct (F32.leb _ _).
  - intros Ht. eapply actions_next; [apply act_timer; exact Hst |].
    apply tick_actions; [exact Hst | exact Ht].
  - intros H. apply some_eq in H. subst g'. apply actions_one, act_timer, Hst.
Qed.

Lemma GameState_eqb_eq (a b : GameState) : GameState_eqb a b = true -> a = b.
Proof. destruct a, b; simpl; intros H; (reflexivity || discriminate). Qed.

Lemma frame_actions (inp : Input) (g g' : Game.t) :
  Game.frame inp g = Some g' -> actions g g'.
Proof.
  unfold Game.frame.
  destruct (Game.handleInput inp g) as [g1 |] eqn:E1; [| discriminate].
  apply handleInput_actions in E1.
  destruct (GameState_eqb (Game.currentState g1) PLAYING) eqn:Est.
  - apply GameState_eqb_eq in Est.
    destruct (Game.update (GetFrameTime inp) g1) as [g2 |] eqn:E2; [| discriminate].
    apply (update_actions _ _ _ Est) in E2.
    intros H. apply some_eq in H; subst g'.
    eapply actions_then; [| apply act_animate].
    eapply actions_trans; [exact E1 | exact E2].
  - intros H. apply some_eq in H; subst g'.
    eapply actions_then; [exact E1 | apply act_animate].
Qed.

Lemma run_actions (inputs : list Input) (g g' : Game.t) :
  Game.run inputs g = Some g' -> actions g g'.
Proof.
  revert g. induction inputs as [| inp inputs IH]; intros g H; simpl in H.
  - apply some_eq in H; subst g'. apply actions_none.
  - destruct (negb (WindowShouldClose inp) && Game.gameRunning g).
    + destruct (Game.frame inp g) as [g1 |] eqn:E; [| discriminate].
      eapply actions_trans; [apply (frame_actions inp g g1 E) | apply IH, H].
    + apply some_eq in H; subst g'. apply actions_none.
Qed.

(** A property that the constructor establishes and every action keeps
    holds in every reachable state. *)
Lemma actions_invariant (P : Game.t -> Prop) (g g' : Game.t) :
  (forall a b, action a b -> P a -> P b) -> actions g g' -> P g -> P g'.
Proof.
  intros Hstep H. induction H as [| a b c Hab Hbc IH]; intros Hp; [exact Hp |].
  apply IH. apply (Hstep a b Hab Hp).
Qed.

Lemma reachable_invariant (P : Game.t -> Prop) :
  (forall env g0, Game.construct env = Some g0 -> P g0) ->
  (forall a b, action a b -> P a -> P b) ->
  forall g, reachable g -> P g.
Proof.
  intros Hinit Hstep g [env [g0 [inputs [Hc Hr]]]].
  apply (actions_invariant P g0 g Hstep); [apply (run_actions inputs), Hr |].
  apply (Hinit env). exact Hc.
Qed.

End Actions.

(** ** Invariants of the run *)

Lemma generateFood_members (g g' : Game.t) :
  Game.generateFood g = Some g' ->
  exists fd rc, g' = Game.set_food fd (Game.set_rand_calls rc g).
Proof.
  intros H. destruct (generateFood_shape g g' H) as [-> | [pos [_ ->]]].
  - exists (Game.food g), (Game.rand_calls g). destruct g; reflexivity.
  - eexists. eexists. reflexivity.
Qed.

Lemma reset_members (g g' : Game.t) :
  Game.reset g = Some g' ->
  exists fd rc,
    g' = Game.set_animationTimer F32.zero
           (Game.set_moveTimer F32.zero
              (Game.set_score 0
                 (Game.set_food fd (Game.set_rand_calls rc (Game.initializeSnake g))))).
Proof.
  intros H. destruct (reset_shape g g' H) as [g1 [Hg ->]].
  destruct (generateFood_members _ _ Hg) as [fd [rc ->]].
  exists fd, rc. reflexivity.
Qed.

(** The cases of an action, with the results of [reset] and [generateFood]
    written out. *)
Ltac action_cases H :=
  let g := fresh "g" in
  let g' := fresh "g'" in
  let fd := fresh "fd" in
  let rc := fresh "rc" in
  let Hst := fresh "Hst" in
  let Hr := fresh "Hr" in
  destruct H as [g Hst | g Hst | g g' Hst Hr | ? g ? | g Hst | g Hst | g Hst
                | ? g Hst ? | g Hst | g Hst | ? g Hst | ? g
                | g ? ? Hst ? ? | g ? ? g' Hst ? ? ? Hr | g ? ? Hst ? ? ?];
  [ | | apply reset_members in Hr; destruct Hr as [fd [rc ->]]
    | | | | | | | | | |
    | apply generateFood_members in Hr; destruct Hr as [fd [rc ->]] | ].

Section Invariants.
Context {sorter : StdSort}.

Lemma wrap_int_id (z : Z) : -2147483648 <= z <= 2147483647 -> wrap_int z = z.
Proof. intros H. apply wrap_int_small. unfold INT_MIN, INT_MAX. exact H. Qed.

Lemma action_menu_ok (a b : Game.t) : action a b -> menu_ok a -> menu_ok b.
Proof.
  unfold menu_ok. intros H Ha.
  action_cases H; expose; unfold moved; simpl; try lia; try exact Ha.
  - rewrite wrap_int_id by lia.
    pose proof (Z.rem_bound_pos (Game.selectedMenuItem g + 1) 4). lia.
  - rewrite (wrap_int_id (Game.selectedMenuItem g - 1)) by lia.
    rewrite wrap_int_id by lia.
    pose proof (Z.rem_bound_pos (Game.selectedMenuItem g - 1 + 4) 4). lia.
Qed.

Lemma action_no_reverse (a b : Game.t) : action a b -> no_reverse a -> no_reverse b.
Proof.
  unfold no_reverse. intros H Ha.
  action_cases H; expose; unfold moved; simpl; try exact Ha;
    try (destruct (Game.nextDirection g); discriminate).
  destruct d, (Game.currentDirection g); simpl in *; congruence.
Qed.

Lemma savePersonalBest_bests (g : Game.t) :
  Game.personalBestScore (Game.savePersonalBest g)
    = Z.max (Game.personalBestScore g) (Game.score g)
  /\ Game.overallHighestScore (Game.savePersonalBest g)
     = (if Game.personalBestScore g <? Game.score g
        then Z.max (Game.overallHighestScore g) (Game.score g)
        else Game.overallHighestScore g)
  /\ Game.score (Game.savePersonalBest g) = Game.score g
  /\ Game.currentState (Game.savePersonalBest g) = Game.currentState g.
Proof.
  unfold Game.savePersonalBest.
  destruct (Z.leb_spec (Game.score g) (Game.personalBestScore g)) as [Hle | Hlt].
  - assert (E : (Game.personalBestScore g <? Game.score g) = false)
      by (apply Z.ltb_ge; exact Hle).
    rewrite E. repeat split. lia.
  - assert (E : (Game.personalBestScore g <? Game.score g) = true)
      by (apply Z.ltb_lt; exact Hlt).
    rewrite E. cbv zeta. simpl.
    destruct (Z.ltb_spec (Game.overallHighestScore g) (Game.score g));
      simpl; repeat split; lia.
Qed.

End Invariants.

Section Invariants2.
Context {sorter : StdSort}.

Lemma action_bests_ok (a b : Game.t) : action a b -> bests_ok a -> bests_ok b.
Proof.
  unfold bests_ok. intros H [Ha Hover].
  destruct H as [g Hst | g Hst | g g' Hst Hr | s g Hs | g Hst | g Hst | g Hst
                | d g Hst Hd | g Hst | g Hst | v g Hst | v g
                | g front body Hst Hsn Hhit | g front body g' Hst Hsn Hfree Hfood Hr
                | g front body Hst Hsn Hfree Hfood];
    try (split; [exact Ha | exact Hover]).
  - (* a new session *)
    apply reset_members in Hr. destruct Hr as [fd [rc ->]].
    expose. split; [exact Ha | discriminate].
  - (* another screen *)
    expose. split; [exact Ha |]. intros E. subst s. intuition discriminate.
  - expose. split; [exact Ha | discriminate].
  - expose. split; [exact Ha | discriminate].
  - (* a collision *)
    destruct (savePersonalBest_bests (Game.saveToLeaderboard (moved g front)))
      as [Hp [Ho [Hs _]]].
    expose. rewrite Hp, Ho. expose. unfold moved. simpl.
    destruct (Z.ltb_spec (Game.personalBestScore g) (Game.score g)); lia.
  - (* the snake eats *)
    apply generateFood_members in Hr. destruct Hr as [fd [rc ->]].
    split; [exact Ha |]. simpl. rewrite Hst. discriminate.
Qed.

Lemma write_file_writable (fs : FileSystem) (path data p : string) :
  writable (write_file fs path data) p = writable fs p.
Proof. unfold write_file. destruct (writable fs path); reflexivity. Qed.

Lemma write_file_other (fs : FileSystem) (path data p : string) :
  p <> path -> contents (write_file fs path data) p = contents fs p.
Proof.
  intros Hp. unfold write_file. destruct (writable fs path); [| reflexivity].
  simpl. destruct (String.eqb_spec p path); [contradiction | reflexivity].
Qed.

(** Each of the saving methods leaves the files alone or rewrites its one
    file. *)
Lemma saveToLeaderboard_files (g : Game.t) :
  Game.files (Game.saveToLeaderboard g) = Game.files g
  \/ exists data,
       Game.files (Game.saveToLeaderboard g)
       = write_file (Game.files g) "scores.txt" data.
Proof.
  unfold Game.saveToLeaderboard.
  destruct (0 <? Game.score g); [| left; reflexivity].
  destruct (Game.update_entry _ _ _) as [updated playerExists].
  right. eexists. reflexivity.
Qed.

Lemma savePersonalBest_files (g : Game.t) :
  Game.files (Game.savePersonalBest g) = Game.files g
  \/ exists data,
       Game.files (Game.savePersonalBest g)
       = write_file (Game.files g) "user_scores.txt" data.
Proof.
  unfold Game.savePersonalBest.
  destruct (Game.score g <=? Game.personalBestScore g); [left; reflexivity |].
  right. cbv zeta.
  match goal with |- context [if ?c then _ else _] => destruct c end;
    eexists; reflexivity.
Qed.

Lemma same_setup_refl (g : Game.t) : same_setup g g.
Proof. unfold same_setup. repeat split. Qed.

Lemma same_setup_trans (g1 g2 g3 : Game.t) :
  same_setup g1 g2 -> same_setup g2 g3 -> same_setup g1 g3.
Proof.
  unfold same_setup.
  intros [A1 [A2 [A3 [A4 [A5 A6]]]]] [B1 [B2 [B3 [B4 [B5 B6]]]]].
  split; [congruence |]. split; [congruence |]. split; [congruence |].
  split; [congruence |]. split.
  - intros path. rewrite B5. apply A5.
  - intros path H1 H2 H3. rewrite B6 by assumption. apply A6; assumption.
Qed.

Lemma action_same_setup (a b : Game.t) : action a b -> same_setup a b.
Proof.
  intros H.
  destruct H as [g Hst | g Hst | g g' Hst Hr | s g Hs | g Hst | g Hst | g Hst
                | d g Hst Hd | g Hst | g Hst | v g Hst | v g
                | g front body Hst Hsn Hhit | g front body g' Hst Hsn Hfree Hfood Hr
                | g front body Hst Hsn Hfree Hfood];
    try (unfold same_setup; expose; repeat split; fail).
  - (* a new session *)
    apply reset_members in Hr. destruct Hr as [fd [rc ->]].
    unfold same_setup. expose. repeat split.
  - (* saveSettings *)
    unfold same_setup, Game.saveSettings. simpl. repeat split.
    + intros path. apply write_file_writable.
    + intros path _ _ H3. apply write_file_other. exact H3.
  - (* a collision *)
    unfold same_setup. expose.
    assert (Hw : forall path,
               writable (Game.files (Game.savePersonalBest
                                       (Game.saveToLeaderboard (moved g front)))) path
               = writable (Game.files g) path).
    { intros path.
      destruct (savePersonalBest_files (Game.saveToLeaderboard (moved g front)))
        as [-> | [data2 ->]];
        destruct (saveToLeaderboard_files (moved g front)) as [-> | [data1 ->]];
        rewrite ?write_file_writable; reflexivity. }
    assert (Hc : forall path,
               path <> "scores.txt"%string -> path <> "user_scores.txt"%string ->
               contents (Game.files (Game.savePersonalBest
                                       (Game.saveToLeaderboard (moved g front)))) path
               = contents (Game.files g) path).
    { intros path H1 H2.
      destruct (savePersonalBest_files (Game.saveToLeaderboard (moved g front)))
        as [-> | [data2 ->]];
        destruct (saveToLeaderboard_files (moved g front)) as [-> | [data1 ->]];
        rewrite ?write_file_other by assumption; reflexivity. }
    repeat split; [exact Hw |]. intros path H1 H2 _. apply Hc; assumption.
  - (* the snake eats *)
    apply generateFood_members in Hr. destruct Hr as [fd [rc ->]].
    unfold same_setup. repeat split.
Qed.

Lemma actions_same_setup (g g' : Game.t) : actions g g' -> same_setup g g'.
Proof.
  induction 1 as [| a b c Hab Hbc IH]; [apply same_setup_refl |].
  eapply same_setup_trans; [apply action_same_setup; exact Hab | exact IH].
Qed.


End Invariants2.

Section BoardInv.
Context {sorter : StdSort}.

Lemma board_ok_same (g g' : Game.t) :
  Game.snake g' = Game.snake g -> Game.score g' = Game.score g ->
  Game.obstacles g' = Game.obstacles g -> Game.food g' = Game.food g ->
  Game.currentDirection g' = Game.currentDirection g ->
  board_ok g -> board_ok g'.
Proof.
  unfold board_ok, session_ok, heading, food_ok, free_cell.
  intros -> -> -> -> ->. tauto.
Qed.

Lemma advance_adjacent (d : Direction) (p : Position) :
  on_board p -> adjacent (Game.advance d p) p.
Proof.
  unfold on_board, adjacent. intros [Hx Hy].
  destruct d; simpl; rewrite wrap_int_id by lia; lia.
Qed.

Lemma contiguous_removelast (l : list Position) :
  contiguous l -> contiguous (removelast l).
Proof.
  induction l as [| a l IH]; [intros H; exact H |].
  destruct l as [| b l]; [intros _; exact I |].
  change (removelast (a :: b :: l)) with (a :: removelast (b :: l)).
  intros [Hab Hl]. specialize (IH Hl).
  destruct l as [| c l]; [exact I |].
  change (removelast (b :: c :: l)) with (b :: removelast (c :: l)) in *.
  split; [exact Hab | exact IH].
Qed.

Lemma generateFood_food_ok (g g' : Game.t) :
  Game.generateFood g = Some g' -> food_ok g'.
Proof.
  intros H. destruct (generateFood_cases g) as [[Hnil H'] | [pos [Hin H']]];
    rewrite H' in H; apply some_eq in H; subst g'.
  - right. apply emptyPositions_nil. exact Hnil.
  - left. apply in_emptyPositions in Hin. exact Hin.
Qed.

Lemma reset_board_ok (g g' : Game.t) : Game.reset g = Some g' -> board_ok g'.
Proof.
  intros Hr. destruct (reset_session g) as [g2 [Hr2 [Hsn [_ [_ Hok]]]]].
  rewrite Hr in Hr2. apply some_eq in Hr2. subst g2.
  split; [exact Hok |].
  destruct (reset_shape g g' Hr) as [g1 [Hg ->]].
  pose proof (generateFood_food_ok _ _ Hg) as Hfood.
  apply generateFood_keeps in Hg. destruct Hg as [H1 [_ [_ [_ [H5 _]]]]].
  unfold heading. simpl in *. rewrite H1, H5. simpl.
  split; [| split; [reflexivity | exact Hfood]].
  unfold adjacent. simpl. lia.
Qed.

Lemma changeState_board_ok (s : GameState) (g : Game.t) :
  board_ok g -> board_ok (Game.changeState s g).
Proof. apply board_ok_same; expose; reflexivity. Qed.

Lemma removelast_cons2 {A : Type} (a b : A) (l : list A) :
  removelast (a :: b :: l) = a :: removelast (b :: l).
Proof. reflexivity. Qed.

Lemma action_board_inv (a b : Game.t) : action a b -> board_inv a -> board_inv b.
Proof.
  unfold board_inv. intros H Ha.
  assert (Hout : forall g : Game.t,
             Game.currentState g <> PLAYING -> Game.currentState g <> PAUSED ->
             in_session g -> board_ok g).
  { unfold in_session. intros g H1 H2 [E | E]; contradiction. }
  destruct H as [g Hst | g Hst | g g' Hst Hr | s g Hs | g Hst | g Hst | g Hst
                | d g Hst Hd | g Hst | g Hst | v g Hst | v g
                | g front body Hst Hsn Hhit | g front body g' Hst Hsn Hfree Hfood Hr
                | g front body Hst Hsn Hfree Hfood].
  - apply Hout; simpl; rewrite Hst; discriminate.
  - apply Hout; simpl; rewrite Hst; discriminate.
  - intros _. apply changeState_board_ok. apply (reset_board_ok g). exact Hr.
  - apply Hout; rewrite changeState_state; intuition (subst; discriminate).
  - apply Hout; simpl; rewrite Hst; discriminate.
  - intros _. apply changeState_board_ok, Ha. left. exact Hst.
  - intros _. apply changeState_board_ok, Ha. right. exact Hst.
  - intros _. apply (board_ok_same g); try reflexivity. apply Ha. left. exact Hst.
  - apply Hout; simpl; rewrite Hst; discriminate.
  - apply Hout; simpl; rewrite Hst; discriminate.
  - intros _. apply (board_ok_same g); try reflexivity. apply Ha. left. exact Hst.
  - intros Hin. apply (board_ok_same g); try reflexivity. apply Ha. exact Hin.
  - apply Hout; rewrite changeState_state; discriminate.
  - (* the snake eats *)
    intros _. destruct (Ha (or_introl Hst)) as [Hok [Hcont [Hhead Hfd]]].
    pose proof (session_ok_bounds g Hok) as [Hlen Hscore].
    destruct Hok as [Hnd [Hon [H3 Hsc]]].
    pose proof (generateFood_food_ok _ _ Hr) as Hfood'.
    apply generateFood_keeps in Hr.
    destruct Hr as [H1 [_ [H3' [_ [H5 _]]]]].
    unfold moved in H1, H3', H5. simpl in H1, H3', H5.
    destruct (not_hits_on_board _ _ _ Hfree) as [Hboard Hnew].
    rewrite Hsn in *.
    unfold board_ok, session_ok, heading. rewrite H1, H3', H5.
    rewrite wrap_int_id by lia.
    split.
    { split; [constructor; assumption |].
      split; [constructor; assumption |].
      simpl List.length in *. split; lia. }
    split; [| split; [reflexivity | exact Hfood']].
    split; [| exact Hcont].
    apply advance_adjacent. inversion Hon; assumption.
  - (* the snake moves *)
    intros _. destruct (Ha (or_introl Hst)) as [Hok [Hcont [Hhead Hfd]]].
    destruct Hok as [Hnd [Hon [H3 Hsc]]].
    destruct (not_hits_on_board _ _ _ Hfree) as [Hboard Hnew].
    set (newHead := Game.advance (Game.nextDirection g) front) in *.
    destruct body as [| neck body]; [rewrite Hsn in H3; simpl in H3; lia |].
    apply (board_ok_same
             (Game.set_snake (newHead :: front :: removelast (neck :: body))
                (Game.set_currentDirection (Game.nextDirection g) g)));
      try (unfold moved; cbn [Game.snake Game.set_snake Game.set_currentDirection
                                Game.set_moveTimer Game.score Game.obstacles
                                Game.food Game.currentDirection];
           rewrite ?Hsn; reflexivity).
    rewrite Hsn in *.
    unfold board_ok, session_ok, heading, food_ok, free_cell.
    cbn [Game.snake Game.set_snake Game.set_currentDirection Game.score
         Game.obstacles Game.food Game.currentDirection].
    rewrite <- !removelast_cons2.
    split.
    { split.
      { constructor; [| apply (removelast_NoDup (front :: neck :: body)); exact Hnd].
        intros Hin. apply Hnew.
        apply (removelast_In _ (front :: neck :: body)). exact Hin. }
      split.
      { constructor; [exact Hboard |].
        apply (removelast_Forall _ (front :: neck :: body)). exact Hon. }
      cbn [List.length]. rewrite removelast_length. cbn [List.length] in *.
      split; lia. }
    split.
    { split; [apply advance_adjacent; inversion Hon; assumption |].
      apply (contiguous_removelast (front :: neck :: body)). exact Hcont. }
    split; [reflexivity |].
    destruct Hfd as [[Hfb [Hfs Hfo]] | Hfull].
    + left. split; [exact Hfb |]. split; [| exact Hfo].
      intros [E | Hin]; [apply Hfood; exact E |].
      apply Hfs. rewrite Hsn.
      apply (removelast_In _ (front :: neck :: body)). exact Hin.
    + exfalso. apply (Hfull newHead). unfold free_cell. rewrite Hsn.
      split; [exact Hboard |]. split; [exact Hnew |].
      intros Hin. apply Hfree. unfold hits. tauto.
Qed.

Lemma construct_board_inv (env g : Game.t) :
  Game.construct env = Some g -> board_inv g.
Proof.
  intros H. destruct (construct_menu env) as [g' [H' Hst]].
  rewrite H in H'. apply some_eq in H'. subst g'.
  unfold board_inv, in_session. rewrite Hst. intros [E | E]; discriminate.
Qed.

Lemma reachable_board_inv (g : Game.t) : reachable g -> board_inv g.
Proof.
  apply reachable_invariant; [apply construct_board_inv | apply action_board_inv].
Qed.

End BoardInv.

Section Construct.
Context {sorter : StdSort}.

(** The members of a constructed game. *)
Lemma construct_members (env g : Game.t) :
  Game.construct env = Some g ->
  Game.currentState g = MENU
  /\ Game.selectedMenuItem g = 0
  /\ Game.score g = 0
  /\ Game.currentDirection g = UP /\ Game.nextDirection g = UP
  /\ Game.gameRunning g = true
  /\ Game.playerName g = Game.playerName env
  /\ Game.files g = Game.files env
  /\ Game.rand_values g = Game.rand_values env
  /\ Game.snake g = [mkPosition 15 10; mkPosition 15 11; mkPosition 15 12]
  /\ Game.obstacles g
     = Game.obstacles (Game.loadObstacles "obstacles.txt" env)
  /\ Game.overallHighestScore g
     = Game.overallHighestScore (Game.loadHighestScores env)
  /\ Game.personalBestScore g
     = Game.personalBestScore (Game.loadHighestScores env)
  /\ Game.leaderboard g = Game.leaderboard (Game.loadLeaderboard env)
  /\ Game.showGrid g
     = Game.showGrid (Game.loadSettings (Game.set_showGrid true env))
  /\ Game.moveInterval g = F32.literal 15 100.
Proof.
  unfold Game.construct. intros H.
  apply reset_members in H. destruct H as [fd [rc ->]].
  simpl.
  unfold Game.loadObstacles, Game.loadLeaderboard, Game.loadHighestScores,
    Game.loadSettings. simpl.
  destruct (open_read (Game.files env) "settings.txt"); simpl;
    destruct (open_read (Game.files env) "user_scores.txt"); simpl;
    destruct (open_read (Game.files env) "scores.txt"); simpl;
    destruct (open_read (Game.files env) "obstacles.txt"); simpl;
    repeat split.
Qed.
End Construct.

Lemma best_of_incl (l1 l2 : list Z) : incl l1 l2 -> best_of l1 <= best_of l2.
Proof.
  intros Hincl. destruct (best_of_attained l1) as [-> | Hin].
  - apply best_of_nonneg.
  - apply best_of_upper, Hincl, Hin.
Qed.

Lemma scores_of_incl (player : string) (pairs : list (string * Z)) :
  incl (scores_of player pairs) (map snd pairs).
Proof.
  unfold scores_of. intros s Hs. apply in_map_iff in Hs.
  destruct Hs as [p [<- Hp]]. apply filter_In in Hp.
  apply in_map. apply Hp.
Qed.

(** What [loadHighestScores] leaves in the two members. *)
Lemma loadHighestScores_bests (g : Game.t) :
  Game.overallHighestScore (Game.loadHighestScores g)
    = best_of (map snd (stored_pairs (Game.files g) "user_scores.txt"))
  /\ Game.personalBestScore (Game.loadHighestScores g)
     = best_of (scores_of (Game.playerName g)
                  (stored_pairs (Game.files g) "user_scores.txt")).
Proof.
  unfold Game.loadHighestScores, stored_pairs. simpl.
  destruct (open_read (Game.files g) "user_scores.txt") as [text |];
    [| split; reflexivity].
  simpl. rewrite loadHighestScores_loop_spec by (simpl; lia). simpl.
  pose proof (best_of_nonneg (map snd (read_name_score_pairs text))).
  pose proof (best_of_nonneg (scores_of (Game.playerName g)
                                (read_name_score_pairs text))).
  split; lia.
Qed.

Lemma loadObstacles_obstacles (filename : string) (g : Game.t) :
  Game.obstacles (Game.loadObstacles filename g)
  = match open_read (Game.files g) filename with
    | Some text => kept_obstacles (read_int_pairs text)
    | None => []
    end.
Proof.
  unfold Game.loadObstacles. destruct (open_read _ _) as [text |]; [| reflexivity].
  simpl. rewrite loadObstacles_loop_spec by (simpl; lia). reflexivity.
Qed.

Lemma kept_obstacles_ok (pairs : list (Z * Z)) :
  Forall on_board (kept_obstacles pairs)
  /\ (List.length (kept_obstacles pairs) <= 100)%nat.
Proof.
  unfold kept_obstacles. split.
  - apply Forall_forall. intros p Hp. apply firstn_incl in Hp.
    apply in_map_iff in Hp. destruct Hp as [[px py] [<- Hq]].
    apply filter_In in Hq. apply in_grid_on_board. apply Hq.
  - apply firstn_le_length.
Qed.

Section ReachableInv.
Context {sorter : StdSort}.

Lemma reachable_menu_ok (g : Game.t) : reachable g -> menu_ok g.
Proof.
  apply reachable_invariant; [| apply action_menu_ok].
  intros env g0 Hc. apply construct_members in Hc.
  unfold menu_ok. destruct Hc as [_ [-> _]]. lia.
Qed.

Lemma reachable_no_reverse (g : Game.t) : reachable g -> no_reverse g.
Proof.
  apply reachable_invariant; [| apply action_no_reverse].
  intros env g0 Hc. apply construct_members in Hc.
  unfold no_reverse. destruct Hc as [_ [_ [_ [-> [-> _]]]]]. discriminate.
Qed.

Lemma reachable_bests_ok (g : Game.t) : reachable g -> bests_ok g.
Proof.
  apply reachable_invariant; [| apply action_bests_ok].
  intros env g0 Hc. apply construct_members in Hc.
  destruct Hc as [Hst [_ [_ [_ [_ [_ [_ [_ [_ [_ [_ [Ho [Hp _]]]]]]]]]]]]].
  unfold bests_ok. rewrite Ho, Hp, Hst.
  destruct (loadHighestScores_bests env) as [-> ->].
  split; [| discriminate]. split; [apply best_of_nonneg |].
  apply best_of_incl, scores_of_incl.
Qed.

Lemma run_same_setup (inputs : list Input) (g0 g : Game.t) :
  Game.run inputs g0 = Some g -> same_setup g0 g.
Proof. intros H. apply actions_same_setup, (run_actions inputs), H. Qed.

Lemma reachable_obstacles (g : Game.t) :
  reachable g ->
  Forall on_board (Game.obstacles g) /\ (List.length (Game.obstacles g) <= 100)%nat.
Proof.
  intros [env [g0 [inputs [Hc Hr]]]].
  apply run_same_setup in Hr. destruct Hr as [-> _].
  apply construct_members in Hc.
  destruct Hc as [_ [_ [_ [_ [_ [_ [_ [_ [_ [_ [-> _]]]]]]]]]]].
  rewrite loadObstacles_obstacles.
  destruct (open_read _ _); [apply kept_obstacles_ok |].
  split; [constructor | simpl; lia].
Qed.

End ReachableInv.

Lemma distinct_NoDup (l : list Position) : distinct l = true -> NoDup l.
Proof.
  induction l as [| a l IH]; simpl; intros H; [constructor |].
  apply andb_prop in H. destruct H as [Ha Hl].
  constructor; [| apply IH; exact Hl].
  apply existsb_Position_false. apply negb_true_iff. exact Ha.
Qed.

Lemma grid_cells_NoDup : NoDup Game.grid_cells.
Proof. apply distinct_NoDup. vm_compute. reflexivity. Qed.

(** A board on which the snake and the obstacles together have fewer than
    600 cells has a free cell. *)
Lemma free_cell_exists (g : Game.t) :
  (List.length (Game.snake g) + List.length (Game.obstacles g) < 600)%nat ->
  exists p, free_cell g p.
Proof.
  intros Hlen. destruct (Game.emptyPositions g) as [| p l] eqn:E.
  - exfalso.
    assert (Hincl : incl Game.grid_cells (Game.snake g ++ Game.obstacles g)).
    { intros p Hp. apply in_or_app.
      destruct (Game.isEmpty g p) eqn:Ep.
      - exfalso. apply (proj1 (emptyPositions_nil g) E p).
        apply in_emptyPositions. unfold Game.emptyPositions.
        apply filter_In. split; assumption.
      - unfold Game.isEmpty in Ep. apply andb_false_iff in Ep.
        destruct Ep as [Ep | Ep]; apply negb_false_iff in Ep;
          apply existsb_Position in Ep; tauto. }
    apply (NoDup_incl_length grid_cells_NoDup) in Hincl.
    rewrite grid_cells_length, length_app in Hincl. lia.
  - exists p. apply in_emptyPositions. rewrite E. left. reflexivity.
Qed.

Lemma first_session_reachable : reachable (sorter := insertion_sorter) first_session.
Proof.
  exists first_run, first_menu, [short_input [KEY_ENTER]].
  split; vm_compute; reflexivity.
Qed.

Lemma first_game_over_reachable :
  reachable (sorter := insertion_sorter) first_game_over.
Proof.
  exists first_run, first_menu, into_the_wall.
  split; vm_compute; reflexivity.
Qed.

(** ** The run as a whole *)

(** X1.  Whatever the files hold, whatever [rand()] returns and whatever
    the player does, the constructor returns a game and the main loop runs
    through all its passes: [front()] and [pop_back()] are never called on
    an empty snake and the food is never taken from outside the vector of
    empty cells.  So [main] returns 0 after the greeting. *)
Theorem run_never_undefined (sorter : StdSort) (env : Game.t)
    (inputs : list Input) :
  (exists g0 g, Game.construct env = Some g0 /\ Game.run inputs g0 = Some g)
  /\ forall stdin : string,
       exists g, main stdin env inputs = Some (greeting, g, 0).
Proof.
  assert (Hrun : forall env' : Game.t,
             exists g0 g, Game.construct env' = Some g0
                          /\ Game.run inputs g0 = Some g).
  { intros env'. destruct (construct_menu env') as [g0 [Hc _]].
    destruct (run_inv inputs g0 (construct_inv env' g0 Hc)) as [g [Hr _]].
    exists g0, g. split; assumption. }
  split; [apply Hrun |].
  intros stdin. unfold main.
  match goal with |- context [Game.construct ?e] =>
    destruct (Hrun e) as [g0 [g [Hc Hr]]] end.
  rewrite Hc, Hr. eexists. reflexivity.
Qed.

Lemma run_never_undefined_witness :
  option_map (fun r => (fst (fst r), snd r))
    (main (sorter := insertion_sorter) ("ann" ++ newline)%string first_run
       into_the_wall)
  = Some (greeting, 0).
Proof.
  destruct (proj2 (run_never_undefined insertion_sorter first_run into_the_wall)
              ("ann" ++ newline)%string) as [g Hg].
  rewrite Hg. reflexivity.
Defined.

(** X2.  While a session runs (PLAYING or PAUSED), the snake is a chain of
    at least three distinct cells of the board, each next to the one behind
    it, and the score is ten times the number of segments beyond three: at
    most 5970, far from the limits of [int]. *)
Theorem session_snake_invariant (sorter : StdSort) (g : Game.t) :
  reachable g -> in_session g ->
  NoDup (Game.snake g) /\ Forall on_board (Game.snake g)
  /\ contiguous (Game.snake g)
  /\ (3 <= List.length (Game.snake g) <= 600)%nat
  /\ Game.score g = 10 * (Z.of_nat (List.length (Game.snake g)) - 3)
  /\ 0 <= Game.score g <= 5970.
Proof.
  intros Hr Hin.
  destruct (reachable_board_inv g Hr Hin) as [Hok [Hcont _]].
  pose proof (session_ok_bounds g Hok) as [Hlen Hscore].
  destruct Hok as [Hnd [Hon [H3 Hsc]]].
  repeat split; try assumption; lia.
Qed.

Lemma session_snake_invariant_witness :
  in_session first_session
  /\ contiguous (Game.snake first_session)
  /\ Game.score first_session = 0.
Proof.
  assert (Hin : in_session first_session) by (left; vm_compute; reflexivity).
  split; [exact Hin |].
  destruct (session_snake_invariant insertion_sorter first_session
              first_session_reachable Hin) as [_ [_ [Hc [_ [Hs _]]]]].
  split; [exact Hc | rewrite Hs; vm_compute; reflexivity].
Defined.

(** X3.  The buffered direction is never the reverse of the current one,
    so the snake never turns back on itself: while a session runs the head
    lies one step in the current direction from the second segment, and the
    cell the next tick moves the head to is not that segment. *)
Theorem snake_never_reverses (sorter : StdSort) (g : Game.t) :
  reachable g ->
  Game.nextDirection g <> opposite (Game.currentDirection g)
  /\ (in_session g ->
      forall (front neck : Position) (body : list Position),
        Game.snake g = front :: neck :: body ->
        front = Game.advance (Game.currentDirection g) neck
        /\ Game.advance (Game.nextDirection g) front <> neck).
Proof.
  intros Hr. pose proof (reachable_no_reverse g Hr) as Hno.
  split; [exact Hno |].
  intros Hin front neck body Hsn.
  destruct (reachable_board_inv g Hr Hin) as [[_ [Hon _]] [_ [Hhead _]]].
  unfold heading in Hhead. rewrite Hsn in Hhead, Hon.
  split; [exact Hhead |].
  pose proof (Forall_inv Hon) as Hf.
  pose proof (Forall_inv (Forall_inv_tail Hon)) as Hn.
  unfold no_reverse in Hno. unfold on_board in Hf, Hn.
  destruct neck as [nx ny]. simpl in Hn.
  intros Hback. rewrite Hhead in Hback, Hf.
  destruct (Game.currentDirection g), (Game.nextDirection g);
    try (exfalso; apply Hno; reflexivity);
    simpl in Hback, Hf;
    rewrite ?(wrap_int_id (nx - 1)), ?(wrap_int_id (nx + 1)),
            ?(wrap_int_id (ny - 1)), ?(wrap_int_id (ny + 1)) in Hback, Hf by lia;
    simpl in Hf;
    pose proof (f_equal x Hback) as Hx; pose proof (f_equal y Hback) as Hy;
    simpl in Hx, Hy; clear Hback;
    repeat match goal with
           | H : context [wrap_int ?z] |- _ => rewrite (wrap_int_id z) in H by lia
           end; lia.
Qed.

Lemma snake_never_reverses_witness :
  Game.nextDirection first_session <> opposite (Game.currentDirection first_session)
  /\ Game.advance (Game.nextDirection first_session) (mkPosition 15 10)
     <> mkPosition 15 11.
Proof.
  destruct (snake_never_reverses insertion_sorter first_session
              first_session_reachable) as [Hno Hneck].
  split; [exact Hno |].
  apply (Hneck (or_introl eq_refl) (mkPosition 15 10) (mkPosition 15 11)
           [mkPosition 15 12] eq_refl).
Defined.

(** X4.  While a session runs, the food lies on a cell of the board that
    neither the snake nor an obstacle occupies, unless the board has no such
    cell left; with at most 100 obstacles loaded, it does so whenever the
    snake is shorter than 500 segments. *)
Theorem food_on_free_cell (sorter : StdSort) (g : Game.t) :
  reachable g -> in_session g ->
  (free_cell g (Game.food g) \/ forall p, ~ free_cell g p)
  /\ ((List.length (Game.snake g) < 500)%nat -> free_cell g (Game.food g)).
Proof.
  intros Hr Hin.
  destruct (reachable_board_inv g Hr Hin) as [_ [_ [_ Hfood]]].
  split; [exact Hfood |].
  intros Hlen. destruct Hfood as [Hfree | Hfull]; [exact Hfree |].
  exfalso. destruct (reachable_obstacles g Hr) as [_ Hobs].
  destruct (free_cell_exists g) as [p Hp]; [lia |].
  apply (Hfull p Hp).
Qed.

Lemma food_on_free_cell_witness :
  in_session first_session
  /\ Game.food first_session = mkPosition 0 10
  /\ free_cell first_session (mkPosition 0 10).
Proof.
  assert (Hin : in_session first_session) by (left; vm_compute; reflexivity).
  split; [exact Hin |]. split; [vm_compute; reflexivity |].
  apply (food_on_free_cell insertion_sorter first_session
           first_session_reachable Hin).
  vm_compute. lia.
Defined.

Lemma second_game_over_reachable :
  reachable (sorter := insertion_sorter) second_game_over.
Proof.
  exists second_run, second_menu, into_the_wall.
  split; vm_compute; reflexivity.
Qed.

(** X5.  The player's best score is never negative and never above the
    overall best; and when the game is over the score of the session has
    already been taken into both, so it is above neither. *)
Theorem best_scores_ordered (sorter : StdSort) (g : Game.t) :
  reachable g ->
  0 <= Game.personalBestScore g <= Game.overallHighestScore g
  /\ (Game.currentState g = GAME_OVER ->
      Game.score g <= Game.personalBestScore g
      /\ Game.score g <= Game.overallHighestScore g).
Proof.
  intros Hr. destruct (reachable_bests_ok g Hr) as [Hb Hover].
  split; [exact Hb |].
  intros Hst. specialize (Hover Hst). lia.
Qed.

Lemma best_scores_ordered_witness :
  Game.currentState second_game_over = GAME_OVER
  /\ Game.score second_game_over = 20
  /\ Game.score second_game_over <= Game.personalBestScore second_game_over.
Proof.
  assert (Hst : Game.currentState second_game_over = GAME_OVER)
    by (vm_compute; reflexivity).
  split; [exact Hst |]. split; [vm_compute; reflexivity |].
  apply (best_scores_ordered insertion_sorter second_game_over
           second_game_over_reachable).
  exact Hst.
Defined.

(** X6.  The game over screen never shows "NEW PERSONAL BEST!" or "NEW
    HIGHEST SCORE!": when the state is GAME_OVER the score has already been
    saved as the player's best, so neither condition of [drawGameOver] can
    hold, and the only lines of text drawn are the title, the final score
    and the three key hints. *)
Theorem record_banner_never_drawn (sorter : StdSort) (g : Game.t) :
  reachable g -> Game.currentState g = GAME_OVER ->
  (forall centerX centerY : Z, Draw.record_banner g centerX centerY = [])
  /\ forall (text : string) (px py fontSize spacing : F32.t) (tint : Paint),
       In (DrawTextEx text px py fontSize spacing tint) (Draw.drawGameOver g) ->
       text = "GAME OVER"%string
       \/ text = ("Final Score: " ++ Draw.to_string (Game.score g))%string
       \/ text = "R - Restart Game"%string
       \/ text = "L - View Leaderboard"%string
       \/ text = "Q - Return to Menu"%string.
Proof.
  intros Hr Hst. destruct (reachable_bests_ok g Hr) as [Hb Hover].
  specialize (Hover Hst).
  assert (Hbanner : forall centerX centerY : Z,
             Draw.record_banner g centerX centerY = []).
  { intros cx cy. unfold Draw.record_banner.
    assert (E1 : (Game.personalBestScore g <? Game.score g) = false)
      by (apply Z.ltb_ge; lia).
    assert (E2 : (Game.overallHighestScore g <? Game.score g) = false)
      by (apply Z.ltb_ge; lia).
    rewrite E1, E2. reflexivity. }
  split; [exact Hbanner |].
  intros text px py fontSize spacing tint. unfold Draw.drawGameOver.
  rewrite Hbanner. cbn [app In].
  intros H.
  repeat match goal with
         | H : _ \/ _ |- _ => destruct H as [H | H]
         end;
    try discriminate; try contradiction;
    injection H as <- _ _ _ _ _; tauto.
Qed.

Lemma record_banner_never_drawn_witness :
  Game.currentState second_game_over = GAME_OVER
  /\ Game.personalBestScore second_menu = 10
  /\ Game.score second_game_over = 20
  /\ Draw.record_banner second_game_over 425 275 = [].
Proof.
  assert (Hst : Game.currentState second_game_over = GAME_OVER)
    by (vm_compute; reflexivity).
  split; [exact Hst |]. split; [vm_compute; reflexivity |].
  split; [vm_compute; reflexivity |].
  apply (record_banner_never_drawn insertion_sorter second_game_over
           second_game_over_reachable Hst).
Defined.

(** X7.  The marked menu item is always one of the four.  In the menu, a
    pass without Enter or Space moves the mark one item down for Down or S
    and one item up for Up or W, from the last item to the first and back;
    with both pressed it stays. *)
Theorem menu_item_in_range (sorter : StdSort) (g : Game.t) :
  reachable g ->
  0 <= Game.selectedMenuItem g <= 3
  /\ forall inp : Input,
       Game.currentState g = MENU ->
       IsKeyPressed inp KEY_ENTER || IsKeyPressed inp KEY_SPACE = false ->
       exists g', Game.handleInput inp g = Some g'
         /\ Game.currentState g' = MENU
         /\ Game.selectedMenuItem g'
            = (Game.selectedMenuItem g
               + (if IsKeyPressed inp KEY_DOWN || IsKeyPressed inp KEY_S
                  then 1 else 0)
               + (if IsKeyPressed inp KEY_UP || IsKeyPressed inp KEY_W
                  then 3 else 0)) mod 4.
Proof.
  intros Hr. pose proof (reachable_menu_ok g Hr) as Hm. unfold menu_ok in Hm.
  split; [exact Hm |].
  intros inp Hst Henter. unfold Game.handleInput. rewrite Hst.
  unfold Game.handleMenuInput. rewrite Henter.
  eexists. split; [reflexivity |].
  assert (Hsel : Game.selectedMenuItem g = 0 \/ Game.selectedMenuItem g = 1
                 \/ Game.selectedMenuItem g = 2 \/ Game.selectedMenuItem g = 3)
    by lia.
  destruct (IsKeyPressed inp KEY_DOWN || IsKeyPressed inp KEY_S);
    destruct (IsKeyPressed inp KEY_UP || IsKeyPressed inp KEY_W);
    simpl; (split; [exact Hst |]);
    destruct Hsel as [E | [E | [E | E]]]; rewrite E; reflexivity.
Qed.

Lemma menu_item_in_range_witness :
  Game.selectedMenuItem first_menu = 0
  /\ exists g', Game.handleInput (sorter := insertion_sorter)
                  (short_input [KEY_UP]) first_menu = Some g'
       /\ Game.selectedMenuItem g' = 3.
Proof.
  split; [vm_compute; reflexivity |].
  destruct (menu_item_in_range insertion_sorter first_menu first_menu_reachable)
    as [_ Hnav].
  destruct (Hnav (short_input [KEY_UP])) as [g' [Hh [_ Hsel]]];
    [vm_compute; reflexivity | vm_compute; reflexivity |].
  exists g'. split; [exact Hh |]. rewrite Hsel. vm_compute. reflexivity.
Defined.

(** X8.  A run changes neither the obstacles, which are the cells of the
    board that the constructor kept from obstacles.txt (at most 100), nor
    the player's name, and it writes to no file but scores.txt,
    user_scores.txt and settings.txt: obstacles.txt and every other file
    keep their text. *)
Theorem setup_is_fixed (sorter : StdSort) (env g0 g : Game.t)
    (inputs : list Input) :
  Game.construct env = Some g0 -> Game.run inputs g0 = Some g ->
  Game.obstacles g
    = match open_read (Game.files env) "obstacles.txt" with
      | Some text => kept_obstacles (read_int_pairs text)
      | None => []
      end
  /\ Forall on_board (Game.obstacles g)
  /\ (List.length (Game.obstacles g) <= 100)%nat
  /\ Game.playerName g = Game.playerName env
  /\ (forall path : string,
        path <> "scores.txt"%string -> path <> "user_scores.txt"%string ->
        path <> "settings.txt"%string ->
        open_read (Game.files g) path = open_read (Game.files env) path)
  /\ open_read (Game.files g) "obstacles.txt"
     = open_read (Game.files env) "obstacles.txt".
Proof.
  intros Hc Hr.
  pose proof (run_same_setup inputs g0 g Hr) as [Ho [Hn [_ [_ [_ Hf]]]]].
  pose proof (construct_members env g0 Hc)
    as [_ [_ [_ [_ [_ [_ [Hn0 [Hf0 [_ [_ [Ho0 _]]]]]]]]]]].
  assert (Hobs : Game.obstacles g
                 = match open_read (Game.files env) "obstacles.txt" with
                   | Some text => kept_obstacles (read_int_pairs text)
                   | None => []
                   end).
  { rewrite Ho, Ho0. apply loadObstacles_obstacles. }
  split; [exact Hobs |].
  assert (Hreach : reachable g) by (exists env, g0, inputs; split; assumption).
  destruct (reachable_obstacles g Hreach) as [Hon Hlen].
  split; [exact Hon |]. split; [exact Hlen |].
  split; [congruence |].
  assert (Hother : forall path : string,
             path <> "scores.txt"%string -> path <> "user_scores.txt"%string ->
             path <> "settings.txt"%string ->
             open_read (Game.files g) path = open_read (Game.files env) path).
  { intros path H1 H2 H3. unfold open_read. rewrite Hf by assumption.
    rewrite Hf0. reflexivity. }
  split; [exact Hother |].
  apply Hother; discriminate.
Qed.

Lemma setup_is_fixed_witness :
  Game.construct (sorter := insertion_sorter) second_run = Some second_menu
  /\ Game.run (sorter := insertion_sorter) into_the_wall second_menu
     = Some second_game_over
  /\ Game.obstacles second_game_over = []
  /\ Game.playerName second_game_over = "ann"%string.
Proof.
  assert (Hc : Game.construct (sorter := insertion_sorter) second_run
               = Some second_menu) by (vm_compute; reflexivity).
  assert (Hr : Game.run (sorter := insertion_sorter) into_the_wall second_menu
               = Some second_game_over) by (vm_compute; reflexivity).
  split; [exact Hc |]. split; [exact Hr |].
  destruct (setup_is_fixed insertion_sorter second_run second_menu
              second_game_over into_the_wall Hc Hr) as [Ho [_ [_ [Hn _]]]].
  split; [rewrite Ho; reflexivity | rewrite Hn; reflexivity].
Defined.

(** ** What a store holds *)

Lemma skipws_head (s : string) (c : ascii) (s' : string) :
  skipws s = String c s' -> isspace c = false.
Proof.
  induction s as [| a s IH]; simpl; [discriminate |].
  destruct (isspace a) eqn:Ea; [exact IH |].
  intros H. injection H as <- _. exact Ea.
Qed.

Lemma read_word_no_space (s : string) : no_space (fst (read_word s)) = true.
Proof.
  induction s as [| c s IH]; simpl; [reflexivity |].
  destruct (isspace c) eqn:Ec; [reflexivity |].
  destruct (read_word s) as [w rest]. simpl in *. rewrite Ec, IH. reflexivity.
Qed.

(** A name that [operator>>] has read is a word. *)
Lemma extract_string_is_word (s w rest : string) :
  extract_string s = Some (w, rest) -> is_word w = true.
Proof.
  unfold extract_string. destruct (skipws s) as [| c s'] eqn:E; [discriminate |].
  apply skipws_head in E. intros H. apply some_eq in H.
  pose proof (read_word_no_space (String c s')) as Hn. rewrite H in Hn.
  simpl in H. rewrite E in H. destruct (read_word s') as [w' rest'].
  injection H as <- _. exact Hn.
Qed.

Lemma extract_int_in_range (s : string) (v : Z) (rest : string) :
  extract_int s = Some (v, rest) -> in_int_range v = true.
Proof.
  unfold extract_int. destruct (parse_integer (skipws s)) as [[v' rest'] |];
    [| discriminate].
  destruct (in_int_range v') eqn:E; [| discriminate].
  intros H. injection H as <- _. exact E.
Qed.

(** Every pair read from a store can be written and read back. *)
Lemma read_pairs_storable (text : string) :
  Forall storable (read_name_score_pairs text).
Proof.
  remember (String.length text) as n eqn:Hn.
  revert text Hn. induction n as [n IH] using lt_wf_ind. intros text Hn.
  rewrite read_name_score_pairs_step.
  destruct (extract_string text) as [[w s1] |] eqn:E1; [| constructor].
  destruct (extract_int s1) as [[v s2] |] eqn:E2; [| constructor].
  constructor.
  - split; [apply (extract_string_is_word text w s1 E1)
           | apply (extract_int_in_range s1 v s2 E2)].
  - apply (IH (String.length s2)); [| reflexivity].
    apply extract_string_shrinks in E1. apply extract_int_shrinks in E2. lia.
Qed.

Lemma stored_pairs_storable (fs : FileSystem) (path : string) :
  Forall storable (stored_pairs fs path).
Proof.
  unfold stored_pairs. destruct (open_read fs path);
    [apply read_pairs_storable | constructor].
Qed.

(** *** Rebuilding a map from its own entries *)

Lemma StronglySorted_app_l {A : Type} (R : A -> A -> Prop) (l1 l2 : list A) :
  StronglySorted R (l1 ++ l2) -> StronglySorted R l1.
Proof.
  induction l1 as [| a l1 IH]; simpl; intros H; [constructor |].
  inversion H as [| ? ? Hs Hf]; subst. constructor; [apply IH; exact Hs |].
  apply Forall_app in Hf. apply Hf.
Qed.

Lemma assign_last (k : string) (v : Z) (m : StdMap.t) :
  map_ok (m ++ [(k, v)]) ->
  StdMap.find k m = None /\ StdMap.assign k v m = m ++ [(k, v)].
Proof.
  induction m as [| [k' v'] m IH]; simpl; intros H; [split; reflexivity |].
  inversion H as [| ? ? Hs Hf]; subst.
  assert (Hlt : String.compare k' k = Lt).
  { rewrite Forall_forall in Hf. apply (Hf (k, v)).
    apply in_or_app. right. left. reflexivity. }
  assert (Hgt : String.compare k k' = Gt).
  { rewrite String.compare_antisym, Hlt. reflexivity. }
  destruct (IH Hs) as [Hfind Hassign].
  rewrite Hgt, Hassign.
  rewrite (compare_neq k k') by (rewrite Hgt; discriminate).
  split; [exact Hfind | reflexivity].
Qed.

Lemma rebuild_keep_best (m acc : StdMap.t) :
  map_ok (acc ++ m) -> fold_left Game.keep_best m acc = acc ++ m.
Proof.
  revert acc. induction m as [| [k v] m IH]; intros acc H; simpl.
  - rewrite app_nil_r. reflexivity.
  - assert (H1 : map_ok (acc ++ [(k, v)])).
    { apply (StronglySorted_app_l _ _ m). rewrite <- app_assoc. exact H. }
    destruct (assign_last k v acc H1) as [Hfind Hassign].
    unfold Game.keep_best at 2. simpl. rewrite Hfind, Hassign.
    rewrite IH by (rewrite <- app_assoc; exact H).
    rewrite <- app_assoc. reflexivity.
Qed.

Lemma rebuild_assign (m acc : StdMap.t) :
  map_ok (acc ++ m) ->
  fold_left (fun a p => StdMap.assign (fst p) (snd p) a) m acc = acc ++ m.
Proof.
  revert acc. induction m as [| [k v] m IH]; intros acc H; simpl.
  - rewrite app_nil_r. reflexivity.
  - assert (H1 : map_ok (acc ++ [(k, v)])).
    { apply (StronglySorted_app_l _ _ m). rewrite <- app_assoc. exact H. }
    destruct (assign_last k v acc H1) as [_ Hassign]. rewrite Hassign.
    rewrite IH by (rewrite <- app_assoc; exact H).
    rewrite <- app_assoc. reflexivity.
Qed.

Lemma best_of_bound (l : list Z) (bound : Z) :
  0 <= bound -> (forall s, In s l -> s <= bound) -> best_of l <= bound.
Proof.
  intros H0 H. destruct (best_of_attained l) as [-> | Hin]; [exact H0 |].
  apply H, Hin.
Qed.

Lemma best_recorded_unique (pairs : list (string * Z)) (n : string) (v v' : Z) :
  best_recorded pairs n v -> best_recorded pairs n v' -> v = v'.
Proof.
  intros [H1 H2] [H1' H2']. specialize (H2 v' H1'). specialize (H2' v H1). lia.
Qed.

(** The entries of the map that the merging loop builds: for every name of
    the store its highest score, names ascending. *)
Lemma merged_entries (pairs : list (string * Z)) :
  let m := fold_left Game.keep_best pairs StdMap.empty in
  map_ok m
  /\ (forall n v, In (n, v) m <-> best_recorded pairs n v)
  /\ (Forall storable pairs -> Forall storable m).
Proof.
  intros m. destruct (merged_all pairs) as [Hok [Hbest Hall]]. fold m in Hok, Hbest, Hall.
  assert (Hiff : forall n v, In (n, v) m <-> best_recorded pairs n v).
  { intros n v. rewrite <- (map_ok_find m n v Hok). split; [apply Hbest |].
    intros Hb. destruct (Hall n v (proj1 Hb)) as [v' Hv'].
    rewrite Hv'. f_equal.
    apply (best_recorded_unique pairs n); [apply Hbest; exact Hv' | exact Hb]. }
  split; [exact Hok |]. split; [exact Hiff |].
  intros Hst. apply Forall_forall. intros [n v] Hin.
  apply Hiff in Hin. rewrite Forall_forall in Hst. apply Hst, Hin.
Qed.

Lemma in_scores_where (keep : string -> bool) (l : list (string * Z)) (s : Z) :
  In s (map snd (filter (fun p => keep (fst p)) l))
  <-> exists n, In (n, s) l /\ keep n = true.
Proof.
  rewrite in_map_iff. split.
  - intros [[n v] [<- Hin]]. apply filter_In in Hin. exists n. exact Hin.
  - intros [n Hin]. exists (n, s). split; [reflexivity |]. apply filter_In. exact Hin.
Qed.

(** Merging a store does not change the best score of any group of names. *)
Lemma best_of_merged (keep : string -> bool) (pairs : list (string * Z)) :
  best_of (map snd (filter (fun p => keep (fst p))
                      (fold_left Game.keep_best pairs StdMap.empty)))
  = best_of (map snd (filter (fun p => keep (fst p)) pairs)).
Proof.
  destruct (merged_entries pairs) as [_ [Hiff _]].
  apply Z.le_antisymm.
  - apply best_of_incl. intros s Hs. apply in_scores_where in Hs.
    destruct Hs as [n [Hin Hk]]. apply in_scores_where. exists n.
    split; [| exact Hk]. apply Hiff in Hin. apply Hin.
  - apply best_of_bound; [apply best_of_nonneg |].
    intros s Hs. apply in_scores_where in Hs. destruct Hs as [n [Hin Hk]].
    destruct (merged_all pairs) as [Hok [Hbest Hall]].
    destruct (Hall n s Hin) as [v Hv].
    pose proof (Hbest n v Hv) as [Hv1 Hv2].
    apply Z.le_trans with v; [apply Hv2; exact Hin |].
    apply best_of_upper. apply in_scores_where. exists n.
    split; [apply (map_ok_find _ n v Hok); exact Hv | exact Hk].
Qed.

Lemma filter_all {A : Type} (l : list A) : filter (fun _ => true) l = l.
Proof. induction l as [| a l IH]; simpl; [| rewrite IH]; reflexivity. Qed.

(** What [saveSessionBestScore] leaves in the files. *)
Lemma saveSessionBestScore_files (g : Game.t) :
  Game.files (Game.saveSessionBestScore g)
  = write_file (Game.files g) "user_scores.txt"
      (Game.score_lines
         (fold_left Game.keep_best
            (stored_pairs (Game.files g) "user_scores.txt") StdMap.empty)).
Proof.
  unfold Game.saveSessionBestScore, stored_pairs.
  destruct (open_read (Game.files g) "user_scores.txt"); reflexivity.
Qed.

Lemma saveSessionBestScore_store (g : Game.t) :
  writable (Game.files g) "user_scores.txt" = true ->
  stored_pairs (Game.files (Game.saveSessionBestScore g)) "user_scores.txt"
  = fold_left Game.keep_best
      (stored_pairs (Game.files g) "user_scores.txt") StdMap.empty.
Proof.
  intros Hw. rewrite saveSessionBestScore_files.
  unfold stored_pairs at 1. rewrite (write_file_same _ _ _ Hw).
  apply read_score_lines.
  apply (merged_entries (stored_pairs (Game.files g) "user_scores.txt")).
  apply stored_pairs_storable.
Qed.

(** The best scores read from the store are the same after
    [saveSessionBestScore]. *)
Lemma saveSessionBestScore_bests (keep : string -> bool) (g : Game.t) :
  best_of (map snd (filter (fun p => keep (fst p))
             (stored_pairs (Game.files (Game.saveSessionBestScore g))
                "user_scores.txt")))
  = best_of (map snd (filter (fun p => keep (fst p))
               (stored_pairs (Game.files g) "user_scores.txt"))).
Proof.
  destruct (writable (Game.files g) "user_scores.txt") eqn:Hw.
  - rewrite (saveSessionBestScore_store g Hw). apply best_of_merged.
  - rewrite saveSessionBestScore_files. unfold write_file. rewrite Hw.
    reflexivity.
Qed.

(** X9.  [saveSessionBestScore] touches no member of the game and records
    nothing about the session: it rewrites user_scores.txt (when the file
    can be opened for writing) with one line per name of the file, carrying
    the highest score found for that name, names ascending.  Doing it again
    changes nothing, no other file is touched, and the best scores that
    [loadHighestScores] reads from the store are the same before and
    after. *)
Theorem saveSessionBestScore_spec (g : Game.t) :
  let path := "user_scores.txt"%string in
  let pairs := stored_pairs (Game.files g) path in
  let g' := Game.saveSessionBestScore g in
  let kept := stored_pairs (Game.files g') path in
  g' = Game.set_files (Game.files g') g
  /\ (forall p, p <> path ->
        open_read (Game.files g') p = open_read (Game.files g) p)
  /\ (writable (Game.files g) path = false -> Game.files g' = Game.files g)
  /\ (writable (Game.files g) path = true ->
        (forall n v, In (n, v) kept <-> best_recorded pairs n v)
        /\ StronglySorted key_lt kept
        /\ stored_pairs (Game.files (Game.saveSessionBestScore g')) path = kept)
  /\ Game.overallHighestScore (Game.loadHighestScores g')
     = Game.overallHighestScore (Game.loadHighestScores g)
  /\ Game.personalBestScore (Game.loadHighestScores g')
     = Game.personalBestScore (Game.loadHighestScores g).
Proof.
  intros path pairs g' kept. unfold path in *.
  set (m := fold_left Game.keep_best pairs StdMap.empty).
  pose proof (saveSessionBestScore_files g) as Hfiles.
  fold pairs in Hfiles. fold m in Hfiles. fold g' in Hfiles.
  destruct (merged_entries pairs) as [Hok [Hiff _]]. fold m in Hok, Hiff.
  split; [reflexivity |].
  split.
  { intros p Hp. rewrite Hfiles. unfold open_read. apply write_file_other, Hp. }
  split.
  { intros Hw. rewrite Hfiles. unfold write_file. rewrite Hw. reflexivity. }
  split.
  { intros Hw.
    assert (Hkept : kept = m) by (apply (saveSessionBestScore_store g Hw)).
    rewrite Hkept.
    split; [exact Hiff |]. split; [exact Hok |].
    assert (Hw' : writable (Game.files g') "user_scores.txt" = true)
      by (rewrite Hfiles, write_file_writable; exact Hw).
    rewrite (saveSessionBestScore_store g' Hw').
    fold kept. rewrite Hkept.
    apply (rebuild_keep_best m StdMap.empty). exact Hok. }
  destruct (loadHighestScores_bests g') as [-> ->].
  destruct (loadHighestScores_bests g) as [-> ->].
  replace (Game.playerName g') with (Game.playerName g) by reflexivity.
  split.
  - pose proof (saveSessionBestScore_bests (fun _ => true) g) as H.
    rewrite !filter_all in H. exact H.
  - apply (saveSessionBestScore_bests
             (fun n => String.eqb n (Game.playerName g)) g).
Qed.

Lemma saveSessionBestScore_spec_witness :
  open_read
    (Game.files
       (Game.saveSessionBestScore
          (with_user_scores ("y 35" ++ newline ++ "x 10" ++ newline
                             ++ "x 20" ++ newline ++ "y 5" ++ newline)%string)))
    "user_scores.txt"
  = Some ("x 20" ++ newline ++ "y 35" ++ newline)%string
  /\ Game.personalBestScore
       (Game.loadHighestScores
          (Game.saveSessionBestScore
             (with_user_scores ("y 35" ++ newline ++ "x 10" ++ newline
                                ++ "x 20" ++ newline ++ "y 5" ++ newline)%string)))
     = 20.
Proof.
  pose proof (saveSessionBestScore_spec
                (with_user_scores ("y 35" ++ newline ++ "x 10" ++ newline
                                   ++ "x 20" ++ newline ++ "y 5" ++ newline)%string))
    as H.
  cbv zeta in H. destruct H as [_ [_ [_ [_ [_ Hp]]]]].
  split; [vm_compute; reflexivity |].
  rewrite Hp. vm_compute. reflexivity.
Defined.

(** *** The map that [savePersonalBest] builds *)

Lemma fold_assign_ok (pairs : list (string * Z)) (m : StdMap.t) :
  map_ok m ->
  map_ok (fold_left (fun a p => StdMap.assign (fst p) (snd p) a) pairs m).
Proof.
  revert m. induction pairs as [| [k v] pairs IH]; intros m Hm; simpl;
    [exact Hm |].
  apply IH, assign_ok, Hm.
Qed.

Lemma fold_assign_In (pairs : list (string * Z)) (m : StdMap.t) (p : string * Z) :
  In p (fold_left (fun a q => StdMap.assign (fst q) (snd q) a) pairs m) ->
  In p pairs \/ In p m.
Proof.
  revert m. induction pairs as [| [k v] pairs IH]; intros m; simpl; [tauto |].
  intros H. apply IH in H. destruct H as [H | H]; [tauto |].
  apply assign_keys in H. destruct H as [-> | H]; tauto.
Qed.

Lemma fold_assign_find (pairs : list (string * Z)) (m : StdMap.t) (n : string) :
  StdMap.find n (fold_left (fun a p => StdMap.assign (fst p) (snd p) a) pairs m)
  = match last_score n pairs with
    | Some v => Some v
    | None => StdMap.find n m
    end.
Proof.
  revert m. induction pairs as [| [k v] pairs IH]; intros m; simpl;
    [reflexivity |].
  rewrite IH. destruct (last_score n pairs); [reflexivity |].
  destruct (String.eqb_spec n k) as [-> | Hne].
  - apply find_assign_same.
  - rewrite find_assign_other by exact Hne.
    destruct (StdMap.find n m); reflexivity.
Qed.

(** What [savePersonalBest] leaves in the store when it saves. *)
Lemma savePersonalBest_store (g : Game.t) :
  Game.personalBestScore g < Game.score g ->
  writable (Game.files g) "user_scores.txt" = true ->
  is_word (Game.playerName g) = true ->
  in_int_range (Game.score g) = true ->
  stored_pairs (Game.files (Game.savePersonalBest g)) "user_scores.txt"
  = StdMap.assign (Game.playerName g) (Game.score g)
      (fold_left (fun a p => StdMap.assign (fst p) (snd p) a)
         (stored_pairs (Game.files g) "user_scores.txt") StdMap.empty).
Proof.
  intros Hlt Hw Hname Hrange.
  set (path := "user_scores.txt"%string).
  set (pairs := stored_pairs (Game.files g) path).
  set (stored := fold_left (fun a p => StdMap.assign (fst p) (snd p) a) pairs
                   StdMap.empty).
  set (m := StdMap.assign (Game.playerName g) (Game.score g) stored).
  assert (Hfiles : Game.files (Game.savePersonalBest g)
                   = write_file (Game.files g) path (Game.score_lines m)).
  { unfold Game.savePersonalBest.
    assert (E' : (Game.score g <=? Game.personalBestScore g) = false)
      by (apply Z.leb_gt; exact Hlt).
    rewrite E'. cbv zeta. unfold m, stored, pairs, stored_pairs, path.
    destruct (open_read (Game.files g) "user_scores.txt");
      match goal with |- context [if ?c then _ else _] => destruct c end;
      reflexivity. }
  assert (Hst : Forall storable m).
  { apply Forall_forall. intros p Hin. apply assign_keys in Hin.
    destruct Hin as [-> | Hin]; [split; assumption |].
    apply fold_assign_In in Hin. destruct Hin as [Hin | []].
    pose proof (stored_pairs_storable (Game.files g) path) as Hall.
    rewrite Forall_forall in Hall. apply Hall, Hin. }
  unfold stored_pairs. rewrite Hfiles, (write_file_same _ _ _ Hw).
  apply read_score_lines, Hst.
Qed.

(** In a map the scores of a name are the one score assigned to it. *)
Lemma best_of_assigned (player : string) (s : Z) (stored : StdMap.t) :
  map_ok stored -> 0 <= s ->
  best_of (scores_of player (StdMap.assign player s stored)) = s.
Proof.
  intros Hok H0.
  assert (Hm : map_ok (StdMap.assign player s stored)) by (apply assign_ok, Hok).
  assert (Hin : forall v, In v (scores_of player (StdMap.assign player s stored))
                          <-> v = s).
  { intros v. unfold scores_of.
    rewrite (in_scores_where (fun n => String.eqb n player)).
    split.
    - intros [n [Hn Hk]]. apply String.eqb_eq in Hk. subst n.
      apply (map_ok_find _ _ _ Hm) in Hn. rewrite find_assign_same in Hn.
      injection Hn as Hn. lia.
    - intros ->. exists player. rewrite String.eqb_refl. split; [| reflexivity].
      apply (map_ok_find _ _ _ Hm). apply find_assign_same. }
  apply Z.le_antisymm.
  - apply best_of_bound; [exact H0 |]. intros v Hv. apply Hin in Hv. lia.
  - apply best_of_upper. apply Hin. reflexivity.
Qed.

(** X10.  [savePersonalBest] does nothing unless the score is above the
    player's best.  If it is, the score becomes the player's best in
    memory, and the overall best if it is above that; user_scores.txt is
    rewritten with one line per name, names ascending: the player with the
    new score, every other name with the score of its last line in the old
    file (not its highest).  Read back, the store gives the new score as
    the player's best. *)
Theorem savePersonalBest_spec (g : Game.t) :
  let path := "user_scores.txt"%string in
  let pairs := stored_pairs (Game.files g) path in
  let g' := Game.savePersonalBest g in
  let kept := stored_pairs (Game.files g') path in
  (Game.score g <= Game.personalBestScore g -> g' = g)
  /\ (Game.personalBestScore g < Game.score g ->
      Game.personalBestScore g' = Game.score g
      /\ Game.overallHighestScore g'
         = Z.max (Game.overallHighestScore g) (Game.score g)
      /\ (writable (Game.files g) path = true ->
          is_word (Game.playerName g) = true ->
          in_int_range (Game.score g) = true ->
          StronglySorted key_lt kept
          /\ (forall n v,
                In (n, v) kept
                <-> if String.eqb n (Game.playerName g) then v = Game.score g
                    else last_score n pairs = Some v)
          /\ (0 <= Game.score g ->
              Game.personalBestScore (Game.loadHighestScores g')
              = Game.score g))).
Proof.
  intros path pairs g' kept. split.
  { intros Hle. unfold g', Game.savePersonalBest.
    apply Z.leb_le in Hle. rewrite Hle. reflexivity. }
  intros Hlt.
  destruct (savePersonalBest_bests g) as [Hp [Ho _]]. fold g' in Hp, Ho.
  assert (E : (Game.personalBestScore g <? Game.score g) = true)
    by (apply Z.ltb_lt; exact Hlt).
  rewrite E in Ho.
  split; [rewrite Hp; lia |]. split; [exact Ho |].
  intros Hw Hname Hrange.
  pose proof (savePersonalBest_store g Hlt Hw Hname Hrange) as Hkept.
  fold path in Hkept. fold pairs in Hkept. fold g' in Hkept. fold kept in Hkept.
  set (stored := fold_left (fun a p => StdMap.assign (fst p) (snd p) a) pairs
                   StdMap.empty) in Hkept.
  assert (Hstored : map_ok stored) by (apply fold_assign_ok; constructor).
  assert (Hok : map_ok kept) by (rewrite Hkept; apply assign_ok, Hstored).
  split; [exact Hok |]. split.
  { intros n v. rewrite <- (map_ok_find kept n v Hok), Hkept.
    destruct (String.eqb_spec n (Game.playerName g)) as [-> | Hne].
    - rewrite find_assign_same. split; [intros H; injection H as H; lia |].
      intros ->. reflexivity.
    - rewrite find_assign_other by exact Hne. unfold stored.
      rewrite fold_assign_find. simpl.
      destruct (last_score n pairs); split; intros H; congruence. }
  intros H0. destruct (loadHighestScores_bests g') as [_ ->].
  fold path. fold kept.
  replace (Game.playerName g') with (Game.playerName g).
  2:{ destruct (savePersonalBest_board g) as [_ [_ [_ [_ [_ [_ [Hn _]]]]]]].
      symmetry. exact Hn. }
  rewrite Hkept. apply best_of_assigned; assumption.
Qed.

Lemma savePersonalBest_spec_witness :
  Game.personalBestScore
    (with_user_scores ("y 35" ++ newline ++ "y 5" ++ newline
                       ++ "x 10" ++ newline)%string)
  < 30
  /\ open_read
       (Game.files
          (Game.savePersonalBest
             (Game.set_score 30
                (with_user_scores ("y 35" ++ newline ++ "y 5" ++ newline
                                   ++ "x 10" ++ newline)%string))))
       "user_scores.txt"
     = Some ("x 30" ++ newline ++ "y 5" ++ newline)%string
  /\ Game.personalBestScore
       (Game.savePersonalBest
          (Game.set_score 30
             (with_user_scores ("y 35" ++ newline ++ "y 5" ++ newline
                                ++ "x 10" ++ newline)%string)))
     = 30
  /\ Game.personalBestScore
       (Game.loadHighestScores
          (Game.savePersonalBest
             (Game.set_score 30
                (with_user_scores ("y 35" ++ newline ++ "y 5" ++ newline
                                   ++ "x 10" ++ newline)%string))))
     = 30.
Proof.
  pose proof (savePersonalBest_spec
                (Game.set_score 30
                   (with_user_scores ("y 35" ++ newline ++ "y 5" ++ newline
                                      ++ "x 10" ++ newline)%string))) as H.
  cbv zeta in H. destruct H as [_ H].
  assert (Hlt : 7 < 30) by lia.
  destruct (H Hlt) as [Hpb [_ Hfile]].
  destruct (Hfile eq_refl eq_refl eq_refl) as [_ [_ Hload]].
  split; [exact Hlt |]. split; [vm_compute; reflexivity |].
  split; [exact Hpb |]. apply Hload. simpl. lia.
Defined.

(** ** The leaderboard and the stores along a run *)

Section Stores.
Context {sorter : StdSort}.

Lemma loadLeaderboard_ok (g : Game.t) : leaderboard_ok (Game.loadLeaderboard g).
Proof.
  destruct (loadLeaderboard_entries g) as [Hu [Hin [Hs _]]].
  split; [exact Hu |]. split; [exact Hs |].
  apply Forall_forall. intros e He. apply Hin in He. destruct He as [He _].
  pose proof (stored_pairs_storable (Game.files g) "scores.txt") as Hall.
  rewrite Forall_forall in Hall. destruct (Hall _ He) as [H1 H2].
  split; [left; exact H1 | exact H2].
Qed.

Lemma leaderboard_ok_same (g g' : Game.t) :
  Game.leaderboard g' = Game.leaderboard g ->
  Game.playerName g' = Game.playerName g ->
  leaderboard_ok g -> leaderboard_ok g'.
Proof. unfold leaderboard_ok. intros -> ->. tauto. Qed.

Lemma changeState_leaderboard_ok (s : GameState) (g : Game.t) :
  leaderboard_ok g -> leaderboard_ok (Game.changeState s g).
Proof.
  intros H. unfold Game.changeState.
  destruct s; try (apply (leaderboard_ok_same g); [reflexivity | reflexivity | exact H]).
  apply (leaderboard_ok_same
           (Game.loadLeaderboard (Game.set_selectedMenuItem 0
                                    (Game.set_currentState LEADERBOARD g))));
    [reflexivity | reflexivity | apply loadLeaderboard_ok].
Qed.

Lemma saveToLeaderboard_ok (g : Game.t) :
  in_int_range (Game.score g) = true ->
  leaderboard_ok g -> leaderboard_ok (Game.saveToLeaderboard g).
Proof.
  intros Hrange [Hu [Hs Hall]].
  split; [apply saveToLeaderboard_unique; exact Hu |].
  destruct (Z.ltb_spec 0 (Game.score g)) as [Hpos | Hpos].
  - destruct (saveToLeaderboard_unfold g Hpos Hu) as [Hlb _].
    rewrite Hlb.
    replace (Game.playerName (Game.saveToLeaderboard g)) with (Game.playerName g)
      by (symmetry; apply (saveToLeaderboard_board g)).
    split; [apply StronglySorted_firstn, std_sort_sorted |].
    apply Forall_forall. intros e He. apply firstn_incl in He.
    apply (proj1 (std_sort_In _ e)) in He. apply upsert_max_In in He.
    rewrite Forall_forall in Hall.
    destruct He as [[_ He] | [Hn [[old [Hin Hsc]] | [_ Hsc]]]].
    + apply Hall, He.
    + split; [right; exact Hn |]. rewrite Hsc.
      apply in_int_range_max; [| exact Hrange].
      apply (Hall _ Hin).
    + split; [right; exact Hn | rewrite Hsc; exact Hrange].
  - unfold Game.saveToLeaderboard.
    assert (E : (0 <? Game.score g) = false) by (apply Z.ltb_ge; exact Hpos).
    rewrite E. split; assumption.
Qed.

Lemma in_int_range_small (z : Z) : 0 <= z <= 5970 -> in_int_range z = true.
Proof.
  intros H. unfold in_int_range, INT_MIN, INT_MAX.
  apply andb_true_intro. rewrite !Z.leb_le. lia.
Qed.

Lemma action_leaderboard_ok (a b : Game.t) :
  action a b -> board_inv a -> leaderboard_ok a -> leaderboard_ok b.
Proof.
  intros H Hb Ha.
  destruct H as [g Hst | g Hst | g g' Hst Hr | s g Hs | g Hst | g Hst | g Hst
                | d g Hst Hd | g Hst | g Hst | v g Hst | v g
                | g front body Hst Hsn Hhit | g front body g' Hst Hsn Hfree Hfood Hr
                | g front body Hst Hsn Hfree Hfood];
    try (apply (leaderboard_ok_same g); [reflexivity | reflexivity | exact Ha]);
    try (apply changeState_leaderboard_ok; exact Ha).
  - apply changeState_leaderboard_ok.
    apply reset_members in Hr. destruct Hr as [fd [rc ->]].
    apply (leaderboard_ok_same g); [reflexivity | reflexivity | exact Ha].
  - apply changeState_leaderboard_ok.
    apply (leaderboard_ok_same (Game.saveToLeaderboard (moved g front))).
    + apply savePersonalBest_leaderboard.
    + apply (savePersonalBest_board (Game.saveToLeaderboard (moved g front))).
    + apply saveToLeaderboard_ok.
      * destruct (Hb (or_introl Hst)) as [Hok _].
        apply session_ok_bounds in Hok. apply in_int_range_small. apply Hok.
      * apply (leaderboard_ok_same g); [reflexivity | reflexivity | exact Ha].
  - apply generateFood_members in Hr. destruct Hr as [fd [rc ->]].
    apply (leaderboard_ok_same g); [reflexivity | reflexivity | exact Ha].
Qed.

Lemma stored_pairs_other (fs : FileSystem) (path data p : string) :
  p <> path -> stored_pairs (write_file fs path data) p = stored_pairs fs p.
Proof.
  intros Hp. unfold stored_pairs, open_read.
  rewrite write_file_other by exact Hp. reflexivity.
Qed.

Lemma best_stored_same (g g' : Game.t) :
  Game.files g' = Game.files g -> Game.playerName g' = Game.playerName g ->
  Game.personalBestScore g' = Game.personalBestScore g ->
  best_stored g -> best_stored g'.
Proof. unfold best_stored. intros -> -> ->. tauto. Qed.

Lemma changeState_best_stored (s : GameState) (g : Game.t) :
  best_stored g -> best_stored (Game.changeState s g).
Proof. apply best_stored_same; expose; reflexivity. Qed.

Lemma savePersonalBest_best_stored (g : Game.t) :
  0 <= Game.score g -> in_int_range (Game.score g) = true ->
  best_stored g -> best_stored (Game.savePersonalBest g).
Proof.
  intros H0 Hrange Hg.
  destruct (Z.leb_spec (Game.score g) (Game.personalBestScore g)) as [Hle | Hlt].
  - unfold Game.savePersonalBest. apply Z.leb_le in Hle. rewrite Hle. exact Hg.
  - unfold best_stored.
    destruct (savePersonalBest_board g) as [_ [_ [_ [_ [_ [_ [Hn _]]]]]]].
    rewrite Hn. intros Hw Hname.
    assert (Hw' : writable (Game.files g) "user_scores.txt" = true).
    { destruct (savePersonalBest_files g) as [E | [data E]]; rewrite E in Hw;
        [exact Hw | rewrite write_file_writable in Hw; exact Hw]. }
    rewrite (savePersonalBest_store g Hlt Hw' Hname Hrange).
    rewrite best_of_assigned; [| apply fold_assign_ok; constructor | exact H0].
    destruct (savePersonalBest_bests g) as [-> _]. lia.
Qed.

Lemma saveToLeaderboard_best_stored (g : Game.t) :
  best_stored g -> best_stored (Game.saveToLeaderboard g).
Proof.
  unfold best_stored.
  replace (Game.playerName (Game.saveToLeaderboard g)) with (Game.playerName g)
    by (symmetry; apply (saveToLeaderboard_board g)).
  replace (Game.personalBestScore (Game.saveToLeaderboard g))
    with (Game.personalBestScore g)
    by (rewrite (saveToLeaderboard_shape g); reflexivity).
  destruct (saveToLeaderboard_files g) as [-> | [data ->]]; [tauto |].
  rewrite write_file_writable, stored_pairs_other by discriminate. tauto.
Qed.

Lemma action_best_stored (a b : Game.t) :
  action a b -> board_inv a -> best_stored a -> best_stored b.
Proof.
  intros H Hb Ha.
  destruct H as [g Hst | g Hst | g g' Hst Hr | s g Hs | g Hst | g Hst | g Hst
                | d g Hst Hd | g Hst | g Hst | v g Hst | v g
                | g front body Hst Hsn Hhit | g front body g' Hst Hsn Hfree Hfood Hr
                | g front body Hst Hsn Hfree Hfood];
    try (apply (best_stored_same g); [reflexivity | reflexivity | reflexivity
                                     | exact Ha]);
    try (apply changeState_best_stored; exact Ha).
  - apply changeState_best_stored.
    apply reset_members in Hr. destruct Hr as [fd [rc ->]].
    apply (best_stored_same g); [reflexivity | reflexivity | reflexivity | exact Ha].
  - (* saveSettings *)
    unfold best_stored, Game.saveSettings. simpl.
    rewrite write_file_writable, stored_pairs_other by discriminate. exact Ha.
  - (* a collision *)
    apply changeState_best_stored.
    destruct (Hb (or_introl Hst)) as [Hok _]. apply session_ok_bounds in Hok.
    assert (Hsc : Game.score (Game.saveToLeaderboard (moved g front))
                  = Game.score g).
    { rewrite (saveToLeaderboard_shape (moved g front)). reflexivity. }
    apply savePersonalBest_best_stored.
    + rewrite Hsc. lia.
    + rewrite Hsc. apply in_int_range_small. apply Hok.
    + apply saveToLeaderboard_best_stored.
      apply (best_stored_same g); [reflexivity | reflexivity | reflexivity
                                  | exact Ha].
  - apply generateFood_members in Hr. destruct Hr as [fd [rc ->]].
    apply (best_stored_same g); [reflexivity | reflexivity | reflexivity | exact Ha].
Qed.

Lemma construct_stores (env g : Game.t) :
  Game.construct env = Some g -> leaderboard_ok g /\ best_stored g.
Proof.
  intros Hc. pose proof (construct_members env g Hc)
    as [_ [_ [_ [_ [_ [_ [Hn [Hf [_ [_ [_ [_ [Hp [Hl _]]]]]]]]]]]]]].
  split.
  - apply (leaderboard_ok_same (Game.loadLeaderboard env));
      [exact Hl | | apply loadLeaderboard_ok].
    rewrite Hn. symmetry. apply (loadLeaderboard_board env).
  - unfold best_stored. rewrite Hn, Hf, Hp. intros _ _.
    apply (loadHighestScores_bests env).
Qed.

Lemma reachable_stores (g : Game.t) :
  reachable g -> leaderboard_ok g /\ best_stored g.
Proof.
  intros Hr.
  assert (H : board_inv g /\ leaderboard_ok g /\ best_stored g).
  { revert g Hr. apply reachable_invariant.
    - intros env g0 Hc. split; [apply (construct_board_inv env), Hc |].
      apply (construct_stores env), Hc.
    - intros a b Hab [Hb [Hl Hs]].
      split; [apply (action_board_inv a b Hab Hb) |].
      split; [apply (action_leaderboard_ok a b Hab Hb Hl)
             | apply (action_best_stored a b Hab Hb Hs)]. }
  tauto.
Qed.

End Stores.

(** X11.  The leaderboard in memory is always in descending order of score
    and never holds a name twice; every entry has a score that fits an
    [int] and a name that is a word, unless it is the player's own name as
    typed. *)
Theorem leaderboard_invariant (sorter : StdSort) (g : Game.t) :
  reachable g ->
  unique_names (Game.leaderboard g)
  /\ StronglySorted score_ge (Game.leaderboard g)
  /\ (forall e, In e (Game.leaderboard g) ->
        INT_MIN <= ScoreEntry.score e <= INT_MAX
        /\ (is_word (ScoreEntry.name e) = true
            \/ ScoreEntry.name e = Game.playerName g)).
Proof.
  intros Hr. destruct (reachable_stores g Hr) as [[Hu [Hs Hall]] _].
  split; [exact Hu |]. split; [exact Hs |].
  intros e He. rewrite Forall_forall in Hall.
  destruct (Hall e He) as [Hname Hrange].
  split; [| exact Hname].
  unfold in_int_range in Hrange. apply andb_prop in Hrange.
  rewrite !Z.leb_le in Hrange. exact Hrange.
Qed.

Lemma leaderboard_invariant_witness :
  Game.leaderboard second_game_over = [ScoreEntry.mk "ann" 20]
  /\ unique_names (Game.leaderboard second_game_over).
Proof.
  split; [vm_compute; reflexivity |].
  apply (leaderboard_invariant insertion_sorter second_game_over
           second_game_over_reachable).
Defined.

Lemma entry_ok_storable (player : string) (e : ScoreEntry.t) :
  is_word player = true -> entry_ok player e -> storable (Game.pair_of e).
Proof.
  intros Hw [[Hn | Hn] Hr]; split; simpl; try assumption.
  rewrite Hn. exact Hw.
Qed.

Lemma unique_names_NoDup (l : list ScoreEntry.t) : unique_names l -> NoDup l.
Proof. unfold unique_names. apply NoDup_map_inv. Qed.

Lemma sorted_scores_unique (l1 l2 : list Z) :
  Permutation l1 l2 ->
  StronglySorted (fun a b => b <= a) l1 -> StronglySorted (fun a b => b <= a) l2 ->
  l1 = l2.
Proof.
  revert l2. induction l1 as [| a l1 IH]; intros l2 Hp H1 H2.
  - apply Permutation_nil in Hp. symmetry. exact Hp.
  - destruct l2 as [| b l2].
    { apply Permutation_sym, Permutation_nil in Hp. discriminate. }
    inversion H1 as [| ? ? Hs1 Hf1]; subst.
    inversion H2 as [| ? ? Hs2 Hf2]; subst.
    rewrite Forall_forall in Hf1, Hf2.
    assert (Hab : a = b).
    { assert (Ha : In a (b :: l2))
        by (apply (Permutation_in _ Hp); left; reflexivity).
      assert (Hb : In b (a :: l1))
        by (apply (Permutation_in _ (Permutation_sym Hp)); left; reflexivity).
      destruct Ha as [Ha | Ha]; [symmetry; exact Ha |].
      destruct Hb as [Hb | Hb]; [exact Hb |].
      specialize (Hf1 _ Hb). specialize (Hf2 _ Ha). lia. }
    subst b. f_equal. apply IH; [| exact Hs1 | exact Hs2].
    apply (Permutation_cons_inv Hp).
Qed.

Lemma sorted_map_score (l : list ScoreEntry.t) :
  StronglySorted score_ge l ->
  StronglySorted (fun a b => b <= a) (map ScoreEntry.score l).
Proof.
  induction 1 as [| e l Hs IH Hf]; simpl; constructor; [exact IH |].
  apply Forall_map. exact Hf.
Qed.

(** X12.  What [saveToLeaderboard] writes is what the leaderboard screen
    shows afterwards: for a leaderboard in order, a player whose name is a
    word and a positive score, entering LEADERBOARD after the save reloads
    from scores.txt exactly the entries that the save left in memory (in
    descending order; entries with equal scores may swap). *)
Theorem saved_leaderboard_is_reloaded (sorter : StdSort) (g : Game.t) :
  leaderboard_ok g ->
  is_word (Game.playerName g) = true ->
  0 < Game.score g <= INT_MAX ->
  writable (Game.files g) "scores.txt" = true ->
  let g' := Game.saveToLeaderboard g in
  let shown := Game.leaderboard (Game.changeState LEADERBOARD g') in
  stored_pairs (Game.files g') "scores.txt"
    = map Game.pair_of (Game.leaderboard g')
  /\ Permutation shown (Game.leaderboard g')
  /\ StronglySorted score_ge shown
  /\ map ScoreEntry.score shown = map ScoreEntry.score (Game.leaderboard g').
Proof.
  intros Hok Hname [Hpos Hmax] Hw g' shown.
  assert (Hrange : in_int_range (Game.score g) = true).
  { unfold in_int_range, INT_MIN. apply andb_true_intro.
    rewrite !Z.leb_le. lia. }
  pose proof (saveToLeaderboard_ok g Hrange Hok) as [Hu' [Hs' Hall']].
  fold g' in Hu', Hs', Hall'.
  destruct Hok as [Hu _].
  destruct (saveToLeaderboard_unfold g Hpos Hu) as [_ Hfiles]. fold g' in Hfiles.
  assert (Hn' : Game.playerName g' = Game.playerName g)
    by apply (saveToLeaderboard_board g).
  assert (Hstored : stored_pairs (Game.files g') "scores.txt"
                    = map Game.pair_of (Game.leaderboard g')).
  { unfold stored_pairs. rewrite Hfiles, (write_file_same _ _ _ Hw).
    apply read_score_lines. apply Forall_map.
    eapply Forall_impl; [| exact Hall'].
    intros e He. apply (entry_ok_storable (Game.playerName g')); [| exact He].
    rewrite Hn'. exact Hname. }
  split; [exact Hstored |].
  assert (Hshown : shown = Game.leaderboard (Game.loadLeaderboard g')).
  { unfold shown, Game.changeState. rewrite !loadLeaderboard_leaderboard.
    reflexivity. }
  destruct (loadLeaderboard_entries g') as [Hu2 [Hin2 [Hs2 _]]].
  rewrite <- Hshown in Hu2, Hin2, Hs2. rewrite Hstored in Hin2.
  assert (Hperm : Permutation shown (Game.leaderboard g')).
  { apply NoDup_Permutation; [apply unique_names_NoDup, Hu2
                             | apply unique_names_NoDup, Hu' |].
    intros e. rewrite Hin2. split.
    - intros [He _]. apply in_map_iff in He. destruct He as [e' [E He']].
      assert (e' = e); [| subst; exact He'].
      destruct e, e'. unfold Game.pair_of in E. simpl in E. congruence.
    - intros He. split.
      + apply in_map_iff. exists e. split; [destruct e; reflexivity | exact He].
      + intros s Hs. apply in_map_iff in Hs. destruct Hs as [e' [E He']].
        assert (e' = e).
        { apply (unique_names_same _ _ _ Hu' He' He).
          destruct e'. unfold Game.pair_of in E. simpl in *. congruence. }
        subst e'. apply (f_equal snd) in E. simpl in E. lia. }
  split; [exact Hperm |]. split; [exact Hs2 |].
  apply sorted_scores_unique;
    [apply Permutation_map, Hperm | apply sorted_map_score, Hs2
    | apply sorted_map_score, Hs'].
Qed.

Lemma saved_leaderboard_is_reloaded_witness :
  leaderboard_ok (game_over_with 60 [("bob", 70); ("ann", 50)]%string)
  /\ Permutation
       (Game.leaderboard
          (Game.changeState (sorter := insertion_sorter) LEADERBOARD
             (Game.saveToLeaderboard (sorter := insertion_sorter)
                (game_over_with 60 [("bob", 70); ("ann", 50)]%string))))
       (Game.leaderboard
          (Game.saveToLeaderboard (sorter := insertion_sorter)
             (game_over_with 60 [("bob", 70); ("ann", 50)]%string))).
Proof.
  assert (Hok : leaderboard_ok (game_over_with 60 [("bob", 70); ("ann", 50)]%string)).
  { split; [| split].
    - unfold unique_names. simpl.
      repeat constructor; simpl; intuition discriminate.
    - repeat constructor; unfold score_ge; simpl; lia.
    - repeat constructor. }
  split; [exact Hok |].
  apply (saved_leaderboard_is_reloaded insertion_sorter
           (game_over_with 60 [("bob", 70); ("ann", 50)]%string) Hok);
    [reflexivity | unfold INT_MAX; simpl; lia | reflexivity].
Defined.

(** X13.  The player's best score survives from one run to the next: if
    user_scores.txt can be written and the player's name is a word, then at
    every point of a run the best in memory is the best the file records
    for the player, and a later run of the same player that starts from the
    files as the destructor leaves them loads this very score. *)
Theorem personal_best_survives (sorter : StdSort) (env g0 g env' g1 : Game.t)
    (inputs : list Input) :
  Game.construct env = Some g0 -> Game.run inputs g0 = Some g ->
  writable (Game.files env) "user_scores.txt" = true ->
  is_word (Game.playerName env) = true ->
  Game.files env' = Game.files (Game.destructor g) ->
  Game.playerName env' = Game.playerName env ->
  Game.construct env' = Some g1 ->
  Game.personalBestScore g
    = best_of (scores_of (Game.playerName env)
                 (stored_pairs (Game.files g) "user_scores.txt"))
  /\ Game.personalBestScore g1 = Game.personalBestScore g.
Proof.
  intros Hc Hr Hw Hname Hfiles Hplayer Hc1.
  assert (Hreach : reachable g) by (exists env, g0, inputs; split; assumption).
  destruct (reachable_stores g Hreach) as [_ Hbest].
  pose proof (run_same_setup inputs g0 g Hr) as [_ [Hn [_ [_ [Hwr _]]]]].
  pose proof (construct_members env g0 Hc)
    as [_ [_ [_ [_ [_ [_ [Hn0 [Hf0 _]]]]]]]].
  assert (Hpb : Game.personalBestScore g
                = best_of (scores_of (Game.playerName env)
                             (stored_pairs (Game.files g) "user_scores.txt"))).
  { unfold best_stored in Hbest. rewrite Hn, Hn0 in Hbest. apply Hbest.
    - rewrite Hwr, Hf0. exact Hw.
    - exact Hname. }
  split; [exact Hpb |].
  pose proof (construct_members env' g1 Hc1)
    as [_ [_ [_ [_ [_ [_ [_ [_ [_ [_ [_ [_ [Hp1 _]]]]]]]]]]]]].
  rewrite Hp1, Hpb. destruct (loadHighestScores_bests env') as [_ ->].
  rewrite Hfiles, Hplayer. unfold Game.destructor, Game.saveSettings.
  cbn [Game.files Game.set_files].
  rewrite stored_pairs_other by discriminate.
  apply (saveSessionBestScore_bests
           (fun n => String.eqb n (Game.playerName env)) g).
Qed.

Lemma personal_best_survives_witness :
  Game.personalBestScore second_menu = 10
  /\ Game.personalBestScore second_game_over = 20
  /\ Game.personalBestScore third_menu = Game.personalBestScore second_game_over.
Proof.
  split; [vm_compute; reflexivity |]. split; [vm_compute; reflexivity |].
  apply (personal_best_survives insertion_sorter second_run second_menu
           second_game_over (next_run second_game_over second_run)
           third_menu into_the_wall);
    vm_compute; reflexivity.
Defined.

(** X14.  The grid setting survives from one run to the next: the
    destructor writes it to settings.txt, and a run that starts from the
    files as the destructor leaves them constructs a game with the same
    setting, provided settings.txt can be written. *)
Theorem grid_setting_survives (sorter : StdSort) (g env' g1 : Game.t) :
  writable (Game.files g) "settings.txt" = true ->
  Game.files env' = Game.files (Game.destructor g) ->
  Game.construct env' = Some g1 ->
  open_read (Game.files (Game.destructor g)) "settings.txt"
    = Some (if Game.showGrid g then "1" else "0")%string
  /\ Game.showGrid g1 = Game.showGrid g.
Proof.
  intros Hw Hfiles Hc.
  assert (Hread : open_read (Game.files (Game.destructor g)) "settings.txt"
                  = Some (if Game.showGrid g then "1" else "0")%string).
  { unfold Game.destructor, Game.saveSettings. cbn [Game.files Game.set_files].
    rewrite write_file_same; [reflexivity |].
    rewrite saveSessionBestScore_files, write_file_writable. exact Hw. }
  split; [exact Hread |].
  destruct (construct_members env' g1 Hc)
    as [_ [_ [_ [_ [_ [_ [_ [_ [_ [_ [_ [_ [_ [_ [Hg _]]]]]]]]]]]]]]].
  rewrite Hg. unfold Game.loadSettings. cbn [Game.files Game.set_showGrid].
  rewrite Hfiles, Hread. simpl. destruct (Game.showGrid g); reflexivity.
Qed.

Lemma grid_setting_survives_witness :
  Game.showGrid first_menu = true
  /\ Game.showGrid grid_off = false
  /\ Game.showGrid grid_off_next = Game.showGrid grid_off.
Proof.
  split; [vm_compute; reflexivity |]. split; [vm_compute; reflexivity |].
  apply (grid_setting_survives insertion_sorter grid_off
           (next_run grid_off first_run) grid_off_next);
    vm_compute; reflexivity.
Defined.

(** X15.  A player name with a blank in it breaks the stores: the name is
    written as typed but read back word by word.  When the part after the
    blank begins like no number, the line of that name ends the reading:
    the lines before it are read as written, that line and every line after
    it are lost. *)
Theorem spaced_name_ends_reading (first second : string) (v : Z)
    (before after : list (string * Z)) :
  is_word first = true -> no_number_ahead second -> Forall storable before ->
  read_name_score_pairs
    (Game.score_lines
       (before ++ ((first ++ " " ++ second)%string, v) :: after))
  = before.
Proof.
  intros Hfirst Hsecond Hbefore.
  induction Hbefore as [| [n s] before Hp Hb IH].
  - cbn [app]. rewrite score_lines_cons. cbn [fst snd]. unfold score_line.
    rewrite !string_app_assoc.
    rewrite read_name_score_pairs_step.
    rewrite (extract_string_word first _ Hfirst) by reflexivity.
    destruct second as [| c second]; [contradiction |].
    destruct Hsecond as [Hs [Hd [Hm Hpl]]].
    unfold extract_int. cbn [append skipws]. change (isspace " ") with true.
    cbv iota. rewrite Hs.
    assert (Hnone : forall tail, parse_integer (String c tail) = None).
    { intros tail. unfold parse_integer.
      destruct (Ascii.eqb_spec c "-"%char) as [-> | _]; [contradiction |].
      destruct (Ascii.eqb_spec c "+"%char) as [-> | _]; [contradiction |].
      assert (Hp : parse_digits false (String c tail) = None)
        by (unfold parse_digits; rewrite Hd; reflexivity).
      destruct c as [[] [] [] [] [] [] [] []]; try exact Hp; contradiction. }
    rewrite Hnone. reflexivity.
  - cbn [app]. rewrite score_lines_cons. cbn [fst snd].
    rewrite (read_score_line n s _ Hp). f_equal. exact IH.
Qed.

Lemma spaced_name_ends_reading_witness :
  read_name_score_pairs
    ("bob 70" ++ newline ++ "Ann Lee 60" ++ newline ++ "cat 50" ++ newline)
  = [("bob"%string, 70)].
Proof.
  apply (spaced_name_ends_reading "Ann" "Lee" 60 [("bob"%string, 70)]
           [("cat"%string, 50)]).
  - reflexivity.
  - repeat split; discriminate.
  - repeat constructor.
Defined.

(** ** Pausing *)

Section Pause.
Context {sorter : StdSort}.

Lemma set_animationTimer_twice (t t' : F32.t) (g : Game.t) :
  Game.set_animationTimer t' (Game.set_animationTimer t g)
  = Game.set_animationTimer t' g.
Proof. reflexivity. Qed.

Lemma set_animationTimer_same (g : Game.t) :
  Game.set_animationTimer (Game.animationTimer g) g = g.
Proof. destruct g; reflexivity. Qed.

Lemma frame_paused (inp : Input) (g : Game.t) :
  Game.currentState g = PAUSED -> idle_in_pause inp ->
  Game.frame inp g = Some (Game.updateAnimations (GetFrameTime inp) g).
Proof.
  intros Hst [Hp Hq]. unfold Game.frame, Game.handleInput.
  rewrite Hst, Hp, Hq. cbv iota. rewrite Hst. reflexivity.
Qed.

Lemma run_paused (inputs : list Input) (g : Game.t) :
  Game.currentState g = PAUSED -> Forall idle_in_pause inputs ->
  exists t, Game.run inputs g = Some (Game.set_animationTimer t g).
Proof.
  intros Hst Hall. revert g Hst.
  induction Hall as [| inp inputs Hinp Hall IH]; intros g Hst.
  - exists (Game.animationTimer g). rewrite set_animationTimer_same. reflexivity.
  - cbn [Game.run].
    destruct (negb (WindowShouldClose inp) && Game.gameRunning g).
    + rewrite (frame_paused inp g Hst Hinp). cbv iota.
      destruct (IH (Game.updateAnimations (GetFrameTime inp) g) Hst) as [t Ht].
      exists t. rewrite Ht. reflexivity.
    + exists (Game.animationTimer g). rewrite set_animationTimer_same. reflexivity.
Qed.

End Pause.

(** X16.  A pause freezes the game.  Pressing P or Space while playing
    pauses in that very pass, before [update] is called: snake, food,
    score, directions and the movement timer stay as they are.  While
    paused, passes without P, Space, Q and Escape change nothing but the
    animation timer, however many they are and however long they take: the
    movement timer does not run on.  P or Space in a pause resumes the game,
    and [update] runs already in the pass of the key press. *)
Theorem pause_freezes (sorter : StdSort) (g : Game.t) :
  (forall inp : Input,
      Game.currentState g = PLAYING ->
      IsKeyPressed inp KEY_P || IsKeyPressed inp KEY_SPACE = true ->
      exists g', Game.frame inp g = Some g'
        /\ Game.currentState g' = PAUSED
        /\ Game.snake g' = Game.snake g /\ Game.food g' = Game.food g
        /\ Game.score g' = Game.score g
        /\ Game.currentDirection g' = Game.currentDirection g
        /\ Game.nextDirection g' = Game.nextDirection g
        /\ Game.moveTimer g' = Game.moveTimer g)
  /\ (forall inputs : list Input,
        Game.currentState g = PAUSED -> Forall idle_in_pause inputs ->
        exists t, Game.run inputs g = Some (Game.set_animationTimer t g))
  /\ (forall inp : Input,
        Game.currentState g = PAUSED ->
        IsKeyPressed inp KEY_P || IsKeyPressed inp KEY_SPACE = true ->
        IsKeyPressed inp KEY_Q || IsKeyPressed inp KEY_ESCAPE = false ->
        Game.frame inp g
        = match Game.update (GetFrameTime inp) (Game.changeState PLAYING g) with
          | Some g' => Some (Game.updateAnimations (GetFrameTime inp) g')
          | None => None
          end).
Proof.
  split; [| split].
  - intros inp Hst Hp. unfold Game.frame, Game.handleInput, Game.handleGameInput.
    rewrite Hst, Hp. cbv iota. rewrite changeState_state.
    cbn [GameState_eqb]. eexists. split; [reflexivity |].
    unfold Game.updateAnimations.
    cbn [Game.currentState Game.snake Game.food Game.score Game.currentDirection
         Game.nextDirection Game.moveTimer Game.set_animationTimer].
    repeat split; try reflexivity.
  - intros inputs Hst Hall. apply run_paused; assumption.
  - intros inp Hst Hp Hq. unfold Game.frame, Game.handleInput.
    rewrite Hst, Hp, Hq. cbv iota. rewrite changeState_state.
    reflexivity.
Qed.

Lemma pause_freezes_witness :
  Game.currentState paused_session = PAUSED
  /\ Forall idle_in_pause (repeat (long_input []) 5)
  /\ Game.snake paused_session
     = [mkPosition 15 10; mkPosition 15 11; mkPosition 15 12]
  /\ (exists t,
        Game.run (sorter := insertion_sorter) (repeat (long_input []) 5)
          paused_session
        = Some (Game.set_animationTimer t paused_session))
  /\ option_map Game.snake
       (Game.run (sorter := insertion_sorter) (repeat (long_input []) 5)
          first_session)
     = Some [mkPosition 15 5; mkPosition 15 6; mkPosition 15 7].
Proof.
  assert (Hst : Game.currentState paused_session = PAUSED)
    by (vm_compute; reflexivity).
  assert (Hidle : Forall idle_in_pause (repeat (long_input []) 5))
    by (repeat constructor).
  split; [exact Hst |]. split; [exact Hidle |].
  split; [vm_compute; reflexivity |].
  split; [| vm_compute; reflexivity].
  apply (proj1 (proj2 (pause_freezes insertion_sorter paused_session))
           (repeat (long_input []) 5) Hst Hidle).
Defined.

(** ** Leaving the game *)

Section Quit.
Context {sorter : StdSort}.

Lemma reset_gameRunning (g g' : Game.t) :
  Game.reset g = Some g' -> Game.gameRunning g' = Game.gameRunning g.
Proof.
  intros H. destruct (reset_members g g' H) as [fd [rc ->]]. reflexivity.
Qed.

Lemma changeState_gameRunning (s : GameState) (g : Game.t) :
  Game.gameRunning (Game.changeState s g) = Game.gameRunning g.
Proof. apply changeState_proj. intros; reflexivity. Qed.

Lemma tick_gameRunning (g g' : Game.t) :
  Game.tick g = Some g' -> Game.gameRunning g' = Game.gameRunning g.
Proof.
  intros H. destruct (Game.snake g) as [| front body] eqn:Hs.
  - exfalso. revert H. unfold Game.tick, Game.moveSnake.
    cbn [Game.snake Game.set_currentDirection Game.set_moveTimer].
    rewrite Hs. discriminate.
  - destruct (tick_unfold g front body Hs) as [b [_ [_ Ht]]].
    rewrite Ht in H. destruct b.
    + apply some_eq in H. subst g'. rewrite changeState_gameRunning.
      rewrite (savePersonalBest_proj Game.gameRunning) by (intros; reflexivity).
      rewrite (saveToLeaderboard_proj Game.gameRunning) by (intros; reflexivity).
      reflexivity.
    + destruct (Position_eqb _ _).
      * destruct (generateFood_members _ _ H) as [fd [rc ->]]. reflexivity.
      * apply some_eq in H. subst g'. reflexivity.
Qed.

Lemma update_gameRunning (deltaTime : F32.t) (g g' : Game.t) :
  Game.update deltaTime g = Some g' -> Game.gameRunning g' = Game.gameRunning g.
Proof.
  unfold Game.update. cbv zeta.
  destruct (F32.leb _ _).
  - intros H. apply tick_gameRunning in H. exact H.
  - intros H. apply some_eq in H. subst g'. reflexivity.
Qed.

(** The input handling ends the game only in the menu, by Enter or Space
    on its fourth item. *)
Lemma handleInput_quit (inp : Input) (g g' : Game.t) :
  Game.handleInput inp g = Some g' ->
  Game.gameRunning g = true -> Game.gameRunning g' = false ->
  Game.currentState g = MENU /\ Game.currentState g' = MENU
  /\ Game.selectedMenuItem g' = 3
  /\ IsKeyPressed inp KEY_ENTER || IsKeyPressed inp KEY_SPACE = true.
Proof.
  intros H Hrun Hquit. unfold Game.handleInput in H.
  destruct (Game.currentState g) eqn:Hst.
  - (* MENU *)
    unfold Game.handleMenuInput in H. cbv zeta in H.
    set (g2 := if IsKeyPressed inp KEY_UP || IsKeyPressed inp KEY_W
               then _ else _) in H.
    assert (H2 : Game.gameRunning g2 = true /\ Game.currentState g2 = MENU).
    { unfold g2.
      destruct (IsKeyPressed inp KEY_UP || IsKeyPressed inp KEY_W);
        destruct (IsKeyPressed inp KEY_DOWN || IsKeyPressed inp KEY_S);
        simpl; split; assumption. }
    destruct H2 as [H2 H2'].
    destruct (IsKeyPressed inp KEY_ENTER || IsKeyPressed inp KEY_SPACE).
    + destruct (Game.selectedMenuItem g2) as [| p | p] eqn:Hsel.
      * destruct (Game.reset g2) as [g3 |] eqn:Hr; [| discriminate].
        apply some_eq in H. subst g'.
        rewrite changeState_gameRunning, (reset_gameRunning _ _ Hr) in Hquit.
        congruence.
      * destruct p as [[| |] | [| |] |];
          apply some_eq in H; subst g';
          rewrite ?changeState_gameRunning in Hquit; try congruence.
        cbn [Game.currentState Game.selectedMenuItem Game.set_gameRunning].
        repeat split; assumption.
      * apply some_eq in H. subst g'. congruence.
    + apply some_eq in H. subst g'. congruence.
  - (* PLAYING *)
    exfalso. apply some_eq in H. subst g'. revert Hquit.
    unfold Game.handleGameInput.
    repeat match goal with
           | |- context [if ?c then _ else _] => destruct c
           end;
      rewrite ?changeState_gameRunning; simpl; congruence.
  - (* PAUSED *)
    exfalso. apply some_eq in H. subst g'. revert Hquit.
    repeat match goal with
           | |- context [if ?c then _ else _] => destruct c
           end;
      rewrite ?changeState_gameRunning; simpl; congruence.
  - (* GAME_OVER *)
    exfalso. revert H.
    destruct (IsKeyPressed inp KEY_R).
    + destruct (Game.reset g) as [g1 |] eqn:Hr; [| discriminate].
      cbv iota. intros H. apply some_eq in H. subst g'. revert Hquit.
      repeat match goal with
             | |- context [if ?c then _ else _] => destruct c
             end;
        rewrite ?changeState_gameRunning, (reset_gameRunning _ _ Hr); congruence.
    + cbv iota. intros H. apply some_eq in H. subst g'. revert Hquit.
      repeat match goal with
             | |- context [if ?c then _ else _] => destruct c
             end;
        rewrite ?changeState_gameRunning; congruence.
  - (* LEADERBOARD *)
    exfalso. apply some_eq in H. subst g'. revert Hquit.
    unfold Game.handleLeaderboardInput.
    destruct (_ || _); rewrite ?changeState_gameRunning; congruence.
  - (* SETTINGS *)
    exfalso. apply some_eq in H. subst g'. revert Hquit.
    unfold Game.handleSettingsInput. cbv zeta.
    repeat match goal with
           | |- context [if ?c then _ else _] => destruct c
           end;
      rewrite ?changeState_gameRunning; simpl; congruence.
Qed.

Lemma frame_quit (inp : Input) (g g' : Game.t) :
  Game.frame inp g = Some g' ->
  Game.gameRunning g = true -> Game.gameRunning g' = false ->
  Game.currentState g' = MENU /\ Game.selectedMenuItem g' = 3.
Proof.
  unfold Game.frame. intros H Hrun Hquit.
  destruct (Game.handleInput inp g) as [g1 |] eqn:E1; [| discriminate].
  destruct (Game.gameRunning g1) eqn:Hrun1.
  - exfalso.
    destruct (GameState_eqb (Game.currentState g1) PLAYING).
    + destruct (Game.update (GetFrameTime inp) g1) as [g2 |] eqn:E2; [| discriminate].
      apply some_eq in H. subst g'. apply update_gameRunning in E2.
      unfold Game.updateAnimations in Hquit. simpl in Hquit. congruence.
    + apply some_eq in H. subst g'.
      unfold Game.updateAnimations in Hquit. simpl in Hquit. congruence.
  - destruct (handleInput_quit inp g g1 E1 Hrun Hrun1) as [_ [Hst [Hsel _]]].
    rewrite Hst in H. cbn [GameState_eqb] in H.
    apply some_eq in H. subst g'. split; [exact Hst | exact Hsel].
Qed.

Lemma run_stopped (inputs : list Input) (g : Game.t) :
  Game.gameRunning g = false -> Game.run inputs g = Some g.
Proof.
  intros H. destruct inputs as [| inp inputs]; [reflexivity |].
  cbn [Game.run]. rewrite H, andb_false_r. reflexivity.
Qed.

Lemma run_quit (inputs : list Input) (g g' : Game.t) :
  Game.run inputs g = Some g' ->
  Game.gameRunning g = true -> Game.gameRunning g' = false ->
  Game.currentState g' = MENU /\ Game.selectedMenuItem g' = 3.
Proof.
  revert g. induction inputs as [| inp inputs IH]; intros g H Hrun Hquit.
  - apply some_eq in H. subst g'. congruence.
  - cbn [Game.run] in H.
    destruct (negb (WindowShouldClose inp) && Game.gameRunning g).
    + destruct (Game.frame inp g) as [g1 |] eqn:E; [| discriminate].
      destruct (Game.gameRunning g1) eqn:Hrun1.
      * apply (IH g1 H Hrun1 Hquit).
      * rewrite (run_stopped inputs g1 Hrun1) in H.
        apply some_eq in H. subst g'.
        apply (frame_quit inp g g1 E Hrun Hrun1).
    + apply some_eq in H. subst g'. congruence.
Qed.

End Quit.

(** X17.  The game ends itself in one way only: by Enter or Space on the
    fourth item of the menu.  When a run has switched [gameRunning] off, the
    game is in the menu with that item marked; nothing that happens while
    playing, paused, after a game over or in the other screens ends the
    program, and from then on the main loop makes no further pass. *)
Theorem quits_only_from_menu (sorter : StdSort) (env g0 g : Game.t)
    (inputs : list Input) :
  Game.construct env = Some g0 -> Game.run inputs g0 = Some g ->
  Game.gameRunning g = false ->
  Game.currentState g = MENU /\ Game.selectedMenuItem g = 3
  /\ forall more : list Input, Game.run more g = Some g.
Proof.
  intros Hc Hr Hquit.
  assert (Hrun : Game.gameRunning g0 = true).
  { destruct (construct_members env g0 Hc) as [_ [_ [_ [_ [_ [H _]]]]]]. exact H. }
  destruct (run_quit inputs g0 g Hr Hrun Hquit) as [Hst Hsel].
  split; [exact Hst |]. split; [exact Hsel |].
  intros more. apply run_stopped. exact Hquit.
Qed.

Lemma quits_only_from_menu_witness :
  Game.construct (sorter := insertion_sorter) first_run = Some first_menu
  /\ option_map Game.gameRunning
       (Game.run (sorter := insertion_sorter) to_exit first_menu)
     = Some false
  /\ option_map Game.selectedMenuItem
       (Game.run (sorter := insertion_sorter) to_exit first_menu)
     = Some 3
  /\ option_map Game.gameRunning
       (Game.run (sorter := insertion_sorter) into_the_wall first_menu)
     = Some true.
Proof.
  assert (Hc : Game.construct (sorter := insertion_sorter) first_run
               = Some first_menu) by (vm_compute; reflexivity).
  split; [exact Hc |].
  destruct (Game.run (sorter := insertion_sorter) to_exit first_menu)
    as [g |] eqn:Hr; [| vm_compute in Hr; discriminate].
  assert (Hq : Game.gameRunning g = false).
  { assert (E : option_map Game.gameRunning
                  (Game.run (sorter := insertion_sorter) to_exit first_menu)
                = Some false) by (vm_compute; reflexivity).
    rewrite Hr in E. simpl in E. apply some_eq in E. exact E. }
  destruct (quits_only_from_menu insertion_sorter first_run first_menu g
              to_exit Hc Hr Hq) as [_ [Hsel _]].
  cbn [option_map]. rewrite Hq, Hsel.
  split; [reflexivity |]. split; [reflexivity |]. vm_compute. reflexivity.
Defined.

(** ** The leaderboard screen *)

Lemma texts_app (a b : list DrawCall) : texts (a ++ b) = texts a ++ texts b.
Proof. apply flat_map_app. Qed.

Lemma bars_app (a b : list DrawCall) : bars (a ++ b) = bars a ++ bars b.
Proof. apply flat_map_app. Qed.

Lemma firstn_min_length {A : Type} (n : nat) (l : list A) :
  firstn (Nat.min (List.length l) n) l = firstn n l.
Proof.
  destruct (Nat.le_ge_cases (List.length l) n) as [H | H].
  - rewrite Nat.min_l by exact H. rewrite firstn_all, firstn_all2; auto.
  - rewrite Nat.min_r by exact H. reflexivity.
Qed.

(** The rows that the loop of [drawLeaderboard] draws for the first [n]
    entries, numbered from [i]: their texts and their bars. *)
Lemma leaderboard_rows_texts (player : string) (startY : Z) (n i : nat)
    (l : list ScoreEntry.t) :
  texts (Draw.leaderboard_rows player startY i (firstn n l))
  = flat_map (fun p => [Draw.to_string (Z.of_nat (fst p) + 1);
                        ScoreEntry.name (snd p);
                        Draw.to_string (ScoreEntry.score (snd p))])
             (combine (seq i n) l).
Proof.
  revert i l. induction n as [| n IH]; intros i l; [reflexivity |].
  destruct l as [| e l]; [reflexivity |].
  cbn [firstn Draw.leaderboard_rows seq combine flat_map fst snd].
  rewrite texts_app, IH. unfold Draw.leaderboard_row. cbv zeta.
  destruct (String.eqb (ScoreEntry.name e) player); reflexivity.
Qed.

Lemma leaderboard_rows_bars (player : string) (startY : Z) (n i : nat)
    (l : list ScoreEntry.t) :
  bars (Draw.leaderboard_rows player startY i (firstn n l))
  = map (fun p => startY + 40 + Z.of_nat (fst p) * 30 - 5)
        (filter (fun p => String.eqb (ScoreEntry.name (snd p)) player)
                (combine (seq i n) l)).
Proof.
  revert i l. induction n as [| n IH]; intros i l; [reflexivity |].
  destruct l as [| e l]; [reflexivity |].
  cbn [firstn Draw.leaderboard_rows seq combine filter fst snd].
  rewrite bars_app, IH. unfold Draw.leaderboard_row. cbv zeta.
  destruct (String.eqb (ScoreEntry.name e) player); reflexivity.
Qed.

Lemma ranked_length (l : list ScoreEntry.t) :
  List.length (ranked l) = Nat.min 10 (List.length l).
Proof. unfold ranked. rewrite length_combine, length_seq. reflexivity. Qed.

Lemma leaderboard_view_length (l : list ScoreEntry.t) :
  List.length (leaderboard_view l) = (3 * Nat.min 10 (List.length l))%nat.
Proof.
  unfold leaderboard_view. rewrite <- ranked_length.
  induction (ranked l) as [| p r IH]; [reflexivity |].
  cbn [flat_map app List.length]. rewrite IH. lia.
Qed.

Lemma ranked_rows {A : Type} (row : nat * ScoreEntry.t -> A * A * A)
    (l : list ScoreEntry.t) (start n i : nat) (e : ScoreEntry.t) :
  nth_error l i = Some e -> (i < n)%nat ->
  let v := flat_map (fun p => [fst (fst (row p)); snd (fst (row p)); snd (row p)])
                    (combine (seq start n) l) in
  nth_error v (3 * i) = Some (fst (fst (row ((start + i)%nat, e))))
  /\ nth_error v (3 * i + 1) = Some (snd (fst (row ((start + i)%nat, e))))
  /\ nth_error v (3 * i + 2) = Some (snd (row ((start + i)%nat, e))).
Proof.
  revert start n i. induction l as [| a l IH]; intros start n i Hnth Hi v.
  - destruct i; discriminate.
  - destruct n as [| n]; [lia |]. subst v.
    cbn [seq combine flat_map app].
    destruct i as [| i].
    + injection Hnth as ->. rewrite Nat.add_0_r. repeat split.
    + cbn [nth_error] in Hnth.
      replace (3 * S i)%nat with (S (S (S (3 * i)))) by lia.
      replace (S (S (S (3 * i))) + 1)%nat with (S (S (S (3 * i + 1)))) by lia.
      replace (S (S (S (3 * i))) + 2)%nat with (S (S (S (3 * i + 2)))) by lia.
      cbn [nth_error].
      replace (start + S i)%nat with (S start + i)%nat by lia.
      apply (IH (S start) n i Hnth). lia.
Qed.

(** X18.  The leaderboard screen shows the title, then either "No scores
    yet. Be the first!" or the three column heads and one row for each of
    the first ten entries in memory, in their order: the rank counted from
    1, the name and the score; and last the hint on the keys.  An eleventh
    entry and those behind it are in memory but not on the screen.  A bar is
    drawn behind the rows, and only those, whose name is the player's. *)
Theorem drawLeaderboard_view (g : Game.t) :
  texts (Draw.drawLeaderboard g)
  = ["LEADERBOARD"%string]
    ++ match Game.leaderboard g with
       | [] => ["No scores yet. Be the first!"%string]
       | _ :: _ => ["Rank"; "Player"; "Score"]%string
                   ++ leaderboard_view (Game.leaderboard g)
       end
    ++ ["Press Q or Escape to return to menu"%string]
  /\ List.length (leaderboard_view (Game.leaderboard g))
     = (3 * Nat.min 10 (List.length (Game.leaderboard g)))%nat
  /\ bars (Draw.drawLeaderboard g)
     = map (fun p => 135 + 30 * Z.of_nat (fst p))
           (filter (fun p => String.eqb (ScoreEntry.name (snd p)) (Game.playerName g))
                   (ranked (Game.leaderboard g)))
  /\ (forall (i : nat) (e : ScoreEntry.t),
        nth_error (Game.leaderboard g) i = Some e -> (i < 10)%nat ->
        nth_error (leaderboard_view (Game.leaderboard g)) (3 * i)
        = Some (Draw.to_string (Z.of_nat i + 1))
        /\ nth_error (leaderboard_view (Game.leaderboard g)) (3 * i + 1)
           = Some (ScoreEntry.name e)
        /\ nth_error (leaderboard_view (Game.leaderboard g)) (3 * i + 2)
           = Some (Draw.to_string (ScoreEntry.score e))).
Proof.
  assert (Hten : Z.to_nat Game.MAX_LEADERBOARD_ENTRIES = 10%nat) by reflexivity.
  split; [| split; [apply leaderboard_view_length | split]].
  - unfold Draw.drawLeaderboard. cbv zeta. rewrite !texts_app.
    destruct (Game.leaderboard g) as [| e l] eqn:Hl; [reflexivity |].
    rewrite <- Hl, texts_app, Hten, firstn_min_length, leaderboard_rows_texts.
    reflexivity.
  - unfold Draw.drawLeaderboard. cbv zeta. rewrite !bars_app.
    destruct (Game.leaderboard g) as [| e l] eqn:Hl; [reflexivity |].
    rewrite <- Hl, bars_app, Hten, firstn_min_length, leaderboard_rows_bars.
    cbn [bars flat_map app]. rewrite app_nil_r.
    apply map_ext. intros p. lia.
  - intros i e Hnth Hi.
    apply (ranked_rows
             (fun p => (Draw.to_string (Z.of_nat (fst p) + 1),
                        ScoreEntry.name (snd p),
                        Draw.to_string (ScoreEntry.score (snd p))))
             (Game.leaderboard g) 0 10 i e Hnth Hi).
Qed.

Lemma drawLeaderboard_view_witness :
  List.length (Game.leaderboard eleven_loaded) = 11%nat
  /\ nth_error (Game.leaderboard eleven_loaded) 10 = Some (ScoreEntry.mk "kim" 10)
  /\ texts (Draw.drawLeaderboard eleven_loaded)
     = ["LEADERBOARD"; "Rank"; "Player"; "Score";
        "1"; "joe"; "110"; "2"; "fay"; "100"; "3"; "dan"; "90";
        "4"; "ida"; "80"; "5"; "bob"; "70"; "6"; "gus"; "60";
        "7"; "hal"; "50"; "8"; "cat"; "40"; "9"; "ann"; "30";
        "10"; "eve"; "20";
        "Press Q or Escape to return to menu"]%string
  /\ bars (Draw.drawLeaderboard eleven_loaded) = [375].
Proof.
  destruct (drawLeaderboard_view eleven_loaded) as [Htexts [_ [Hbars _]]].
  split; [vm_compute; reflexivity |]. split; [vm_compute; reflexivity |].
  split; [rewrite Htexts | rewrite Hbars]; vm_compute; reflexivity.
Defined.

(** ** When the records change *)

Section Records.
Context {sorter : StdSort}.

Lemma changeState_records (s : GameState) (g : Game.t) :
  records (Game.changeState s g) = records g.
Proof. apply changeState_proj. intros; reflexivity. Qed.

Lemma reset_records (g g' : Game.t) :
  Game.reset g = Some g' -> records g' = records g.
Proof.
  intros H. destruct (reset_members g g' H) as [fd [rc ->]]. reflexivity.
Qed.

Lemma saveSettings_records (g : Game.t) :
  records (Game.saveSettings g) = records g.
Proof.
  unfold records, Game.saveSettings, open_read.
  cbn [Game.files Game.set_files Game.personalBestScore Game.overallHighestScore].
  rewrite !write_file_other by discriminate. reflexivity.
Qed.

Lemma handleInput_records (inp : Input) (g g' : Game.t) :
  Game.handleInput inp g = Some g' -> records g' = records g.
Proof.
  intros H. unfold Game.handleInput in H.
  destruct (Game.currentState g) eqn:Hst.
  - (* MENU *)
    unfold Game.handleMenuInput in H. cbv zeta in H.
    set (g2 := if IsKeyPressed inp KEY_UP || IsKeyPressed inp KEY_W
               then _ else _) in H.
    assert (H2 : records g2 = records g).
    { unfold g2.
      destruct (IsKeyPressed inp KEY_UP || IsKeyPressed inp KEY_W);
        destruct (IsKeyPressed inp KEY_DOWN || IsKeyPressed inp KEY_S);
        reflexivity. }
    destruct (IsKeyPressed inp KEY_ENTER || IsKeyPressed inp KEY_SPACE).
    + destruct (Game.selectedMenuItem g2) as [| p | p].
      * destruct (Game.reset g2) as [g3 |] eqn:Hr; [| discriminate].
        apply some_eq in H. subst g'.
        rewrite changeState_records, (reset_records _ _ Hr). exact H2.
      * destruct p as [[| |] | [| |] |];
          apply some_eq in H; subst g';
          rewrite ?changeState_records; exact H2.
      * apply some_eq in H. subst g'. exact H2.
    + apply some_eq in H. subst g'. exact H2.
  - (* PLAYING *)
    apply some_eq in H. subst g'. unfold Game.handleGameInput.
    repeat match goal with
           | |- context [if ?c then _ else _] => destruct c
           end;
      rewrite ?changeState_records; reflexivity.
  - (* PAUSED *)
    apply some_eq in H. subst g'.
    repeat match goal with
           | |- context [if ?c then _ else _] => destruct c
           end;
      rewrite ?changeState_records; reflexivity.
  - (* GAME_OVER *)
    revert H. destruct (IsKeyPressed inp KEY_R).
    + destruct (Game.reset g) as [g1 |] eqn:Hr; [| discriminate].
      cbv iota. intros H. apply some_eq in H. subst g'.
      repeat match goal with
             | |- context [if ?c then _ else _] => destruct c
             end;
        rewrite ?changeState_records, (reset_records _ _ Hr); reflexivity.
    + cbv iota. intros H. apply some_eq in H. subst g'.
      repeat match goal with
             | |- context [if ?c then _ else _] => destruct c
             end;
        rewrite ?changeState_records; reflexivity.
  - (* LEADERBOARD *)
    apply some_eq in H. subst g'. unfold Game.handleLeaderboardInput.
    destruct (_ || _); rewrite ?changeState_records; reflexivity.
  - (* SETTINGS *)
    apply some_eq in H. subst g'. unfold Game.handleSettingsInput. cbv zeta.
    repeat match goal with
           | |- context [if ?c then _ else _] => destruct c
           end;
      rewrite ?changeState_records, ?saveSettings_records; reflexivity.
Qed.

(** After the input handling at a game over without R, [update] is not
    called. *)
Lemma handleInput_game_over (inp : Input) (g g' : Game.t) :
  Game.handleInput inp g = Some g' ->
  Game.currentState g = GAME_OVER -> IsKeyPressed inp KEY_R = false ->
  Game.currentState g' <> PLAYING.
Proof.
  intros H Hst Hr. unfold Game.handleInput in H. rewrite Hst, Hr in H.
  cbv iota in H. apply some_eq in H. subst g'.
  repeat match goal with
         | |- context [if ?c then _ else _] => destruct c
         end;
    rewrite ?changeState_state; congruence.
Qed.

Lemma tick_records (g g' : Game.t) :
  Game.tick g = Some g' -> Game.currentState g' <> GAME_OVER ->
  records g' = records g.
Proof.
  intros H Hst. destruct (Game.snake g) as [| front body] eqn:Hs.
  - exfalso. revert H. unfold Game.tick, Game.moveSnake.
    cbn [Game.snake Game.set_currentDirection Game.set_moveTimer].
    rewrite Hs. discriminate.
  - destruct (tick_unfold g front body Hs) as [b [_ [_ Ht]]].
    rewrite Ht in H. destruct b.
    + apply some_eq in H. subst g'. rewrite changeState_state in Hst.
      congruence.
    + destruct (Position_eqb _ _).
      * destruct (generateFood_members _ _ H) as [fd [rc ->]]. reflexivity.
      * apply some_eq in H. subst g'. reflexivity.
Qed.

Lemma update_records (deltaTime : F32.t) (g g' : Game.t) :
  Game.update deltaTime g = Some g' -> Game.currentState g' <> GAME_OVER ->
  records g' = records g.
Proof.
  unfold Game.update. cbv zeta.
  destruct (F32.leb _ _).
  - intros H Hst. apply (tick_records _ _ H Hst).
  - intros H _. apply some_eq in H. subst g'. reflexivity.
Qed.

End Records.

(** X19.  The records of earlier sessions change only in the pass in which
    a game ends.  A pass that does not end in the state GAME_OVER, or that
    begins there without R being pressed, leaves the texts of scores.txt
    and user_scores.txt and both best scores in memory as they were: no
    menu, pause, settings or leaderboard screen, and no step of the snake
    short of the collision, writes a score. *)
Theorem scores_kept_until_game_over (sorter : StdSort) (inp : Input)
    (g g' : Game.t) :
  Game.frame inp g = Some g' ->
  Game.currentState g' <> GAME_OVER
  \/ (Game.currentState g = GAME_OVER /\ IsKeyPressed inp KEY_R = false) ->
  open_read (Game.files g') "scores.txt" = open_read (Game.files g) "scores.txt"
  /\ open_read (Game.files g') "user_scores.txt"
     = open_read (Game.files g) "user_scores.txt"
  /\ Game.personalBestScore g' = Game.personalBestScore g
  /\ Game.overallHighestScore g' = Game.overallHighestScore g.
Proof.
  intros H Hcase.
  assert (Hrec : records g' = records g).
  { unfold Game.frame in H.
    destruct (Game.handleInput inp g) as [g1 |] eqn:E1; [| discriminate].
    rewrite <- (handleInput_records inp g g1 E1).
    destruct (GameState_eqb (Game.currentState g1) PLAYING) eqn:Est.
    - apply GameState_eqb_eq in Est.
      destruct (Game.update (GetFrameTime inp) g1) as [g2 |] eqn:E2; [| discriminate].
      apply some_eq in H. subst g'.
      change (records (Game.updateAnimations (GetFrameTime inp) g2))
        with (records g2).
      apply (update_records _ _ _ E2).
      destruct Hcase as [Hst | [Hst Hr]]; [exact Hst |].
      destruct (handleInput_game_over inp g g1 E1 Hst Hr Est).
    - apply some_eq in H. subst g'. reflexivity. }
  unfold records in Hrec. injection Hrec as H1 H2 H3 H4.
  repeat split; assumption.
Qed.

Lemma scores_kept_until_game_over_witness :
  option_map Game.currentState
    (Game.frame (sorter := insertion_sorter) (short_input [KEY_ENTER]) second_menu)
  = Some PLAYING
  /\ option_map (fun g => open_read (Game.files g) "user_scores.txt")
       (Game.frame (sorter := insertion_sorter) (short_input [KEY_ENTER]) second_menu)
     = Some (Some ("ann 10" ++ newline)%string)
  /\ option_map Game.personalBestScore
       (Game.frame (sorter := insertion_sorter) (short_input [KEY_ENTER]) second_menu)
     = Some 10
  /\ open_read (Game.files second_game_over) "user_scores.txt"
     = Some ("ann 20" ++ newline)%string.
Proof.
  destruct (Game.frame (sorter := insertion_sorter) (short_input [KEY_ENTER])
              second_menu) as [g |] eqn:Hf; [| vm_compute in Hf; discriminate].
  assert (Hst : Game.currentState g = PLAYING).
  { assert (E : option_map Game.currentState
                  (Game.frame (sorter := insertion_sorter)
                     (short_input [KEY_ENTER]) second_menu) = Some PLAYING)
      by (vm_compute; reflexivity).
    rewrite Hf in E. apply some_eq in E. exact E. }
  destruct (scores_kept_until_game_over insertion_sorter
              (short_input [KEY_ENTER]) second_menu g Hf)
    as [_ [Hu [Hp _]]].
  { left. rewrite Hst. discriminate. }
  cbn [option_map]. rewrite Hst, Hu, Hp.
  repeat split; vm_compute; reflexivity.
Defined.

(** ** The player's name *)

Lemma getline_first_line (line rest : string) :
  getline line = line -> getline (line ++ newline ++ rest) = line.
Proof.
  induction line as [| c line IH]; [reflexivity |].
  cbn [getline append]. destruct (Ascii.eqb c (ascii_of_nat 10)); [discriminate |].
  intros H. injection H as H. rewrite (IH H). reflexivity.
Qed.

Lemma getline_idem (s : string) : getline (getline s) = getline s.
Proof.
  induction s as [| c s IH]; [reflexivity |].
  cbn [getline]. destruct (Ascii.eqb c (ascii_of_nat 10)) eqn:E; [reflexivity |].
  cbn [getline]. rewrite E, IH. reflexivity.
Qed.

Lemma destructor_playerName (g : Game.t) :
  Game.playerName (Game.destructor g) = Game.playerName g.
Proof. reflexivity. Qed.

(** X20.  [main] greets, reads the name and returns 0.  The player of the
    game is the first line typed, as it is, blanks included, and "Player"
    when that line is empty; the name stays the same to the end of the
    program. *)
Theorem main_player_name (sorter : StdSort) (stdin : string) (env : Game.t)
    (inputs : list Input) (out : string) (g : Game.t) (status : Z) :
  main stdin env inputs = Some (out, g, status) ->
  out = greeting /\ status = 0
  /\ Game.playerName g
     = (if String.eqb (getline stdin) "" then "Player"%string else getline stdin)
  /\ getline (getline stdin) = getline stdin
  /\ (forall line rest : string,
        getline line = line -> getline (line ++ newline ++ rest) = line).
Proof.
  unfold main. cbv zeta.
  set (name := if String.eqb (getline stdin) "" then "Player"%string
               else getline stdin).
  destruct (Game.construct (Game.set_playerName name env)) as [game |] eqn:Hc;
    [| discriminate].
  destruct (Game.run inputs game) as [game' |] eqn:Hr; [| discriminate].
  intros H. injection H as <- <- <-.
  split; [reflexivity |]. split; [reflexivity |].
  split; [| split; [apply getline_idem | exact getline_first_line]].
  rewrite destructor_playerName.
  destruct (run_same_setup inputs game game' Hr) as [_ [-> _]].
  destruct (construct_members _ _ Hc) as [_ [_ [_ [_ [_ [_ [-> _]]]]]]].
  reflexivity.
Qed.

Lemma main_player_name_witness :
  option_map (fun r => Game.playerName (snd (fst r)))
    (main (sorter := insertion_sorter) ("Ann Lee" ++ newline ++ "more")%string
       first_run [])
  = Some "Ann Lee"%string
  /\ option_map (fun r => Game.playerName (snd (fst r)))
       (main (sorter := insertion_sorter) newline first_run [])
     = Some "Player"%string.
Proof.
  split.
  - destruct (main (sorter := insertion_sorter)
                ("Ann Lee" ++ newline ++ "more")%string first_run [])
      as [[[out g] status] |] eqn:Hm; [| vm_compute in Hm; discriminate].
    destruct (main_player_name insertion_sorter _ _ _ _ _ _ Hm) as [_ [_ [Hn _]]].
    cbn [option_map fst snd]. rewrite Hn. reflexivity.
  - destruct (main (sorter := insertion_sorter) newline first_run [])
      as [[[out g] status] |] eqn:Hm; [| vm_compute in Hm; discriminate].
    destruct (main_player_name insertion_sorter _ _ _ _ _ _ Hm) as [_ [_ [Hn _]]].
    cbn [option_map fst snd]. rewrite Hn. reflexivity.
Defined.
